(** * Orchestration and adaptive execution core: a shallow embedding

    This development embeds the scheduling core of the repository:

    - [src/core/engines/coact_engine.py]: the complexity analyzer
      ([analyze_task_complexity]), the strategy selection, the
      automation-tier executors ([_execute_sequential],
      [_execute_parallel], [_execute_hybrid], [_execute_adaptive]) and the
      engine object around them: [initialize], [execute_task] with its
      TerminalBench path, the learning records, the metrics and the
      background processor;
    - [src/thinkmesh_core/orchestration/orchestrator.py]: the agent
      registry, task submission and status, the consumer of the task
      queue, the router [_find_suitable_agents], the seven routing
      strategies, [_execute_on_agent], [_create_subtasks],
      [_achieve_consensus], [_complete_task] and [shutdown];
    - [src/thinkmesh_core/orchestration/task_router.py]: [TaskRouter.route].

    Modelling conventions.
    - Python [int] is [Z]. A Python [float] is the rational [Q] it
      stands for, and the arithmetic of the analyzer, of the agents'
      scores and of the routers' sort keys rounds as binary64 does
      ([Py.float], to nearest, ties to even); infinities, NaN and the
      sign of zero are not modelled. The executors and the metrics of
      the engine compare and divide the rationals as they are.
    - [str] is [string], the characters being the code points below 256.
    - A [dict] whose iteration order matters is an association list in
      insertion order.
    - Mutable objects that are shared (tasks, agents) live in a store and
      are referred to by position.
    - An [async] function is a state transformer that also records the
      states that are observable while it is suspended in an [await]. *)

From Stdlib Require Import ZArith QArith Qminmax String Ascii List Lia Bool.
From Stdlib Require Import Sorted Permutation DecimalString DecimalNat.
From Stdlib Require Import DecimalFacts Qround Qpower Qabs Lqa.
From stdpp Require Import base list.
Import ListNotations.

Set Implicit Arguments.
Set Warnings "-register-all".
Unset Strict Implicit.

(* ================================================================== *)
(** * Python built-ins used by the sources *)
(* ================================================================== *)

Module Py.

Open Scope Q_scope.

(** [min(a, b)] returns [a] unless [b < a]; [max(a, b)] returns [a]
    unless [b > a]. *)
Definition min (a b : Q) : Q :=
  match b ?= a with Lt => b | _ => a end.

Definition max (a b : Q) : Q :=
  match b ?= a with Gt => b | _ => a end.

(** [int(x)] on a float: truncation towards zero. *)
Definition int (x : Q) : Z := Z.quot (Qnum x) (Z.pos (Qden x)).

(** Comparisons as the booleans the interpreter computes. *)
Definition le (a b : Q) : bool := Qle_bool a b.
Definition lt (a b : Q) : bool := negb (Qle_bool b a).
Definition ge (a b : Q) : bool := Qle_bool b a.

Lemma le_iff a b : le a b = true <-> a <= b.
Proof. apply Qle_bool_iff. Qed.

Lemma le_false_iff a b : le a b = false <-> b < a.
Proof.
  unfold le. rewrite <- not_true_iff_false, Qle_bool_iff.
  split; [apply Qnot_le_lt | apply Qlt_not_le].
Qed.

Lemma lt_iff a b : lt a b = true <-> a < b.
Proof. unfold lt. rewrite negb_true_iff. apply le_false_iff. Qed.

Lemma min_le_l a b : min a b <= a.
Proof.
  unfold min. destruct (b ?= a) eqn:E; try apply Qle_refl.
  apply Qlt_le_weak. exact E.
Qed.

Lemma min_glb c a b : c <= a -> c <= b -> c <= min a b.
Proof. unfold min. destruct (b ?= a); auto. Qed.

Lemma max_ge_l a b : a <= max a b.
Proof.
  unfold max. destruct (b ?= a) eqn:E; try apply Qle_refl.
  apply Qlt_le_weak. apply (proj2 (Qgt_alt b a)). exact E.
Qed.

Lemma max_lub c a b : a <= c -> b <= c -> max a b <= c.
Proof. unfold max. destruct (b ?= a); auto. Qed.

(** ** Floating point

    A Python [float] is an IEEE 754 binary64 number. A finite one is a
    rational, and it is modelled by that rational: comparisons are exact,
    and every arithmetic operation returns the exact result rounded to the
    nearest binary64 number, ties to even. Infinities and NaN are not
    modelled: results of magnitude [2 ^ 1024] and more, which binary64
    turns into infinities, are outside the model. *)

Unset Implicit Arguments.

(** The integer nearest to [x], a tie going to the even one. *)
Definition rne (x : Q) : Z :=
  let q := Qfloor x in
  match Qcompare (x - inject_Z q) (1 # 2) with
  | Lt => q
  | Gt => (q + 1)%Z
  | Eq => if Z.even q then q else (q + 1)%Z
  end.

(** [floor (log2 x)] for [x > 0]. *)
Definition ilog2 (x : Q) : Z :=
  let e := (Z.log2 (Qnum x) - Z.log2 (Z.pos (Qden x)))%Z in
  if Qle_bool (2 ^ e) x then e else (e - 1)%Z.

(** The exponent of the unit in the last place of the binade of [x]: 53
    significant bits, and not below the subnormal step [2 ^ -1074]. *)
Definition ulp_exponent (x : Q) : Z := Z.max (ilog2 x - 52) (-1074).

(** Rounding of [x > 0] to the nearest multiple of that unit. *)
Definition round_pos (x : Q) : Q :=
  let g := ulp_exponent x in inject_Z (rne (x * 2 ^ (- g))) * 2 ^ g.

(** The binary64 number nearest to [x], in lowest terms: what a literal
    denotes and what an arithmetic operation returns for the exact result
    [x]. *)
Definition float (x : Q) : Q :=
  Qred match Qcompare x 0 with
       | Eq => 0
       | Gt => round_pos x
       | Lt => - round_pos (- x)
       end.

Lemma rne_comp x y : x == y -> rne x = rne y.
Proof.
  intros H. unfold rne. rewrite (Qfloor_comp _ _ H).
  assert (E : x - inject_Z (Qfloor y) == y - inject_Z (Qfloor y))
    by (rewrite H; reflexivity).
  rewrite (Qcompare_comp _ _ E _ _ (Qeq_refl (1 # 2))). reflexivity.
Qed.

Lemma rne_mono x y : x <= y -> (rne x <= rne y)%Z.
Proof.
  intros H. pose proof (Qfloor_resp_le _ _ H) as Hq.
  pose proof (Qfloor_le x) as Hx1. pose proof (Qlt_floor x) as Hx2.
  pose proof (Qfloor_le y) as Hy1. pose proof (Qlt_floor y) as Hy2.
  unfold rne.
  destruct (Z.eq_dec (Qfloor x) (Qfloor y)) as [E|E].
  - rewrite <- E in *.
    destruct (Qcompare_spec (x - inject_Z (Qfloor x)) (1 # 2)) as [Ex|Ex|Ex];
      destruct (Qcompare_spec (y - inject_Z (Qfloor x)) (1 # 2)) as [Ey|Ey|Ey];
      destruct (Z.even (Qfloor x)); try lia; exfalso; lra.
  - assert (Hlt : (Qfloor x + 1 <= Qfloor y)%Z) by lia.
    destruct (Qcompare (x - _) _); destruct (Qcompare (y - _) _);
      destruct (Z.even (Qfloor x)); destruct (Z.even (Qfloor y)); try lia.
Qed.

Lemma rne_int n : rne (inject_Z n) = n.
Proof.
  unfold rne. rewrite Qfloor_Z.
  assert (E : Qcompare (inject_Z n - inject_Z n) (1 # 2) = Lt).
  { apply Qlt_alt. setoid_replace (inject_Z n - inject_Z n) with 0 using relation Qeq by ring.
    reflexivity. }
  rewrite E. reflexivity.
Qed.

Lemma rne_le_int x p : x <= inject_Z p -> (rne x <= p)%Z.
Proof. intros H. rewrite <- (rne_int p). apply rne_mono, H. Qed.

Lemma rne_ge_int x p : inject_Z p <= x -> (p <= rne x)%Z.
Proof. intros H. rewrite <- (rne_int p) at 1. apply rne_mono, H. Qed.

(** Powers of two. *)
Lemma pow2_pos h : 0 < 2 ^ h.
Proof. apply Qpower_0_lt. reflexivity. Qed.

Lemma pow2_plus a b : 2 ^ (a + b) == 2 ^ a * 2 ^ b.
Proof. apply Qpower_plus. discriminate. Qed.

Lemma pow2_le a b : (a <= b)%Z -> 2 ^ a <= 2 ^ b.
Proof. intros H. apply Qpower_le_compat_l; [exact H | discriminate]. Qed.

Lemma pow2_lt_inv a b : 2 ^ a < 2 ^ b -> (a < b)%Z.
Proof. intros H. apply (Qpower_lt_compat_l_inv 2); [exact H | reflexivity]. Qed.

Lemma pow2_Z a : (0 <= a)%Z -> 2 ^ a == inject_Z (2 ^ a).
Proof. intros H. rewrite Zpower_Qpower by exact H. reflexivity. Qed.

Lemma pow2_cancel a : 2 ^ a * 2 ^ (- a) == 1.
Proof. rewrite <- pow2_plus, Z.add_opp_diag_r. reflexivity. Qed.

Lemma ilog2_spec x : 0 < x -> 2 ^ ilog2 x <= x /\ x < 2 ^ (ilog2 x + 1).
Proof.
  intros Hx. unfold ilog2.
  assert (Hn : (0 < Qnum x)%Z) by (unfold Qlt in Hx; cbn in Hx; lia).
  set (a := Z.log2 (Qnum x)). set (b := Z.log2 (Z.pos (Qden x))).
  assert (Ha : (0 <= a)%Z) by apply Z.log2_nonneg.
  assert (Hb : (0 <= b)%Z) by apply Z.log2_nonneg.
  destruct (Z.log2_spec (Qnum x) Hn) as [Ha1 Ha2]. fold a in Ha1, Ha2.
  destruct (Z.log2_spec (Z.pos (Qden x)) eq_refl) as [Hb1 Hb2].
  fold b in Hb1, Hb2.
  set (N := inject_Z (Qnum x)). set (D := inject_Z (Z.pos (Qden x))).
  assert (E : x * D == N).
  { unfold N, D. destruct x as [n d]. cbn [Qnum Qden].
    unfold Qeq, Qmult, inject_Z. cbn. lia. }
  assert (HD : 0 < D) by (unfold D, Qlt; cbn; lia).
  assert (HN1 : 2 ^ a <= N).
  { rewrite (pow2_Z a Ha). unfold N. rewrite <- Zle_Qle. exact Ha1. }
  assert (HN2 : N < 2 ^ (a + 1)).
  { rewrite (pow2_Z (a + 1)) by lia. unfold N. rewrite <- Zlt_Qlt.
    replace (a + 1)%Z with (Z.succ a) by lia. exact Ha2. }
  assert (HD1 : 2 ^ b <= D).
  { rewrite (pow2_Z b Hb). unfold D. rewrite <- Zle_Qle. exact Hb1. }
  assert (HD2 : D < 2 ^ (b + 1)).
  { rewrite (pow2_Z (b + 1)) by lia. unfold D. rewrite <- Zlt_Qlt.
    replace (b + 1)%Z with (Z.succ b) by lia. exact Hb2. }
  assert (E1 : 2 ^ (a - b - 1) * 2 ^ (b + 1) == 2 ^ a).
  { rewrite <- pow2_plus. replace (a - b - 1 + (b + 1))%Z with a by lia.
    reflexivity. }
  assert (E2 : 2 ^ (a - b + 1) * 2 ^ b == 2 ^ (a + 1)).
  { rewrite <- pow2_plus. replace (a - b + 1 + b)%Z with (a + 1)%Z by lia.
    reflexivity. }
  pose proof (pow2_pos (a - b - 1)) as P1.
  pose proof (pow2_pos (a - b + 1)) as P2.
  clearbody N D.
  assert (Hlow : 2 ^ (a - b - 1) < x).
  { generalize dependent (2 ^ (a - b - 1)). generalize dependent (2 ^ (b + 1)).
    generalize dependent (2 ^ a). intros. nra. }
  assert (Hhigh : x < 2 ^ (a - b + 1)).
  { generalize dependent (2 ^ (a - b + 1)). generalize dependent (2 ^ b).
    generalize dependent (2 ^ (a + 1)). intros. nra. }
  destruct (Qle_bool (2 ^ (a - b)) x) eqn:T.
  - apply Qle_bool_iff in T. split; [exact T | exact Hhigh].
  - assert (T' : x < 2 ^ (a - b)).
    { apply Qnot_le_lt. intros H. apply Qle_bool_iff in H. congruence. }
    split.
    + apply Qlt_le_weak. exact Hlow.
    + replace (a - b - 1 + 1)%Z with (a - b)%Z by lia. exact T'.
Qed.

Lemma ilog2_upper x k : 0 < x -> x < 2 ^ k -> (ilog2 x < k)%Z.
Proof.
  intros Hx H. destruct (ilog2_spec x Hx) as [H1 _].
  apply pow2_lt_inv. eapply Qle_lt_trans; eassumption.
Qed.

Lemma ilog2_lower x k : 0 < x -> 2 ^ k <= x -> (k <= ilog2 x)%Z.
Proof.
  intros Hx H. destruct (ilog2_spec x Hx) as [_ H2].
  assert (H3 : 2 ^ k < 2 ^ (ilog2 x + 1)) by (eapply Qle_lt_trans; eassumption).
  apply pow2_lt_inv in H3. lia.
Qed.

Lemma ilog2_mono x y : 0 < x -> x <= y -> (ilog2 x <= ilog2 y)%Z.
Proof.
  intros Hx Hxy. destruct (ilog2_spec x Hx) as [H1 _].
  apply ilog2_lower; [eapply Qlt_le_trans; eassumption|].
  eapply Qle_trans; eassumption.
Qed.

Lemma ilog2_comp x y : 0 < x -> x == y -> ilog2 x = ilog2 y.
Proof.
  intros Hx E. assert (Hy : 0 < y) by (rewrite <- E; exact Hx).
  apply Z.le_antisymm; apply ilog2_mono; try assumption;
    rewrite E; apply Qle_refl.
Qed.

Lemma ulp_exponent_comp x y : 0 < x -> x == y -> ulp_exponent x = ulp_exponent y.
Proof. intros Hx E. unfold ulp_exponent. rewrite (ilog2_comp x y Hx E). reflexivity. Qed.

Lemma ulp_exponent_mono x y :
  0 < x -> x <= y -> (ulp_exponent x <= ulp_exponent y)%Z.
Proof.
  intros Hx Hxy. unfold ulp_exponent.
  pose proof (ilog2_mono x y Hx Hxy). lia.
Qed.

Lemma inject_Z_le a b : (a <= b)%Z -> inject_Z a <= inject_Z b.
Proof. intros H. rewrite <- Zle_Qle. exact H. Qed.

(** Scaling by the unit in the last place. *)
Lemma scale_le x y g : x <= y * 2 ^ g -> x * 2 ^ (- g) <= y.
Proof.
  intros H. pose proof (pow2_pos (- g)) as Hp.
  assert (E : y == y * 2 ^ g * 2 ^ (- g)).
  { rewrite <- Qmult_assoc, pow2_cancel. ring. }
  rewrite E. apply Qmult_le_compat_r; [exact H | apply Qlt_le_weak, Hp].
Qed.

Lemma scale_ge x y g : y * 2 ^ g <= x -> y <= x * 2 ^ (- g).
Proof.
  intros H. pose proof (pow2_pos (- g)) as Hp.
  assert (E : y == y * 2 ^ g * 2 ^ (- g)).
  { rewrite <- Qmult_assoc, pow2_cancel. ring. }
  rewrite E. apply Qmult_le_compat_r; [exact H | apply Qlt_le_weak, Hp].
Qed.

Lemma round_pos_le_grid x p :
  x <= inject_Z p * 2 ^ ulp_exponent x -> round_pos x <= inject_Z p * 2 ^ ulp_exponent x.
Proof.
  intros H. unfold round_pos. cbv zeta.
  apply Qmult_le_compat_r; [|apply Qlt_le_weak, pow2_pos].
  apply inject_Z_le. apply rne_le_int, scale_le, H.
Qed.

Lemma round_pos_ge_grid x p :
  inject_Z p * 2 ^ ulp_exponent x <= x -> inject_Z p * 2 ^ ulp_exponent x <= round_pos x.
Proof.
  intros H. unfold round_pos. cbv zeta.
  apply Qmult_le_compat_r; [|apply Qlt_le_weak, pow2_pos].
  apply inject_Z_le. apply rne_ge_int, scale_ge, H.
Qed.

Lemma round_pos_nonneg x : 0 <= x -> 0 <= round_pos x.
Proof.
  intros H. assert (E : 0 == inject_Z 0 * 2 ^ ulp_exponent x) by ring.
  rewrite E at 1. apply round_pos_ge_grid. rewrite <- E. exact H.
Qed.

Lemma round_pos_comp x y : 0 < x -> x == y -> round_pos x == round_pos y.
Proof.
  intros Hx E. unfold round_pos. rewrite <- (ulp_exponent_comp x y Hx E).
  assert (E' : x * 2 ^ (- ulp_exponent x) == y * 2 ^ (- ulp_exponent x))
    by (apply Qmult_comp; [exact E | reflexivity]).
  rewrite (rne_comp _ _ E'). reflexivity.
Qed.

Lemma round_pos_mono x y : 0 < x -> x <= y -> round_pos x <= round_pos y.
Proof.
  intros Hx Hxy. assert (Hy : 0 < y) by (eapply Qlt_le_trans; eassumption).
  pose proof (ulp_exponent_mono x y Hx Hxy) as Hg.
  destruct (Z.eq_dec (ulp_exponent x) (ulp_exponent y)) as [E|E].
  - unfold round_pos. cbv zeta. rewrite <- E.
    apply Qmult_le_compat_r; [|apply Qlt_le_weak, pow2_pos].
    apply inject_Z_le. apply rne_mono.
    apply Qmult_le_compat_r; [exact Hxy | apply Qlt_le_weak, pow2_pos].
  - assert (Hlt : (ulp_exponent x < ulp_exponent y)%Z) by lia.
    assert (Hgy : ulp_exponent y = (ilog2 y - 52)%Z)
      by (unfold ulp_exponent in *; lia).
    assert (Hex : (ilog2 x + 1 <= ilog2 y)%Z)
      by (unfold ulp_exponent in *; lia).
    destruct (ilog2_spec x Hx) as [_ Hx2].
    destruct (ilog2_spec y Hy) as [Hy1 _].
    apply Qle_trans with (2 ^ ilog2 y).
    + assert (Eb : 2 ^ ilog2 y
                   == inject_Z (2 ^ (ilog2 y - ulp_exponent x))
                      * 2 ^ ulp_exponent x).
      { rewrite <- pow2_Z by lia. rewrite <- pow2_plus.
        replace (ilog2 y - ulp_exponent x + ulp_exponent x)%Z
          with (ilog2 y) by lia. reflexivity. }
      rewrite Eb. apply round_pos_le_grid. rewrite <- Eb.
      apply Qlt_le_weak. eapply Qlt_le_trans; [exact Hx2|].
      apply pow2_le, Hex.
    + assert (Eb : 2 ^ ilog2 y == inject_Z (2 ^ 52) * 2 ^ ulp_exponent y).
      { rewrite <- pow2_Z by lia. rewrite <- pow2_plus, Hgy.
        replace (52 + (ilog2 y - 52))%Z with (ilog2 y) by lia. reflexivity. }
      rewrite Eb. apply round_pos_ge_grid. rewrite <- Eb. exact Hy1.
Qed.

(** A rational [k * 2 ^ h] with [0 < k < 2 ^ 53] and [h >= -1074] is a
    binary64 number. *)
Lemma round_pos_exact k h :
  (0 < k < 2 ^ 53)%Z -> (-1074 <= h)%Z ->
  round_pos (inject_Z k * 2 ^ h) == inject_Z k * 2 ^ h.
Proof.
  intros Hk Hh. set (y := inject_Z k * 2 ^ h).
  assert (Hy : 0 < y).
  { unfold y. apply Qmult_lt_0_compat; [|apply pow2_pos].
    change 0 with (inject_Z 0). rewrite <- Zlt_Qlt. lia. }
  assert (Hup : y < 2 ^ (53 + h)).
  { unfold y. rewrite pow2_plus.
    apply Qmult_lt_compat_r; [apply pow2_pos|].
    rewrite (pow2_Z 53) by lia. rewrite <- Zlt_Qlt. lia. }
  pose proof (ilog2_upper y (53 + h) Hy Hup) as He.
  assert (Hg : (ulp_exponent y <= h)%Z) by (unfold ulp_exponent; lia).
  unfold round_pos. cbv zeta. set (g := ulp_exponent y) in *.
  assert (P : inject_Z (2 ^ (h - g)) == 2 ^ (h - g))
    by (symmetry; apply pow2_Z; lia).
  assert (E : y * 2 ^ (- g) == inject_Z (k * 2 ^ (h - g))).
  { rewrite inject_Z_mult, P. unfold y.
    rewrite <- Qmult_assoc, <- pow2_plus.
    replace (h + - g)%Z with (h - g)%Z by lia. reflexivity. }
  rewrite (rne_comp _ _ E), rne_int.
  rewrite inject_Z_mult, P.
  rewrite <- Qmult_assoc, <- pow2_plus.
  replace (h - g + g)%Z with h by lia.
  reflexivity.
Qed.

Lemma round_pos_idem x : 0 < x -> 0 < round_pos x ->
  round_pos (round_pos x) == round_pos x.
Proof.
  intros Hx Hr. set (g := ulp_exponent x).
  set (m := rne (x * 2 ^ (- g))).
  assert (Er : round_pos x == inject_Z m * 2 ^ g) by reflexivity.
  assert (Hg : (-1074 <= g)%Z) by (unfold g, ulp_exponent; lia).
  destruct (ilog2_spec x Hx) as [_ Hx2].
  assert (Hm2 : (m <= 2 ^ 53)%Z).
  { apply rne_le_int. rewrite <- pow2_Z by lia.
    apply scale_le. rewrite <- pow2_plus.
    apply Qlt_le_weak. eapply Qlt_le_trans; [exact Hx2|].
    apply pow2_le. unfold g, ulp_exponent. lia. }
  assert (Hm1 : (0 < m)%Z).
  { rewrite Er in Hr.
    destruct (Z_lt_le_dec 0 m) as [H|H]; [exact H|exfalso].
    assert (Hle : inject_Z m * 2 ^ g <= 0).
    { setoid_replace 0 with (0 * 2 ^ g) using relation Qeq by ring.
      apply Qmult_le_compat_r; [|apply Qlt_le_weak, pow2_pos].
      change 0 with (inject_Z 0). rewrite <- Zle_Qle. exact H. }
    apply (Qlt_irrefl 0). eapply Qlt_le_trans; eassumption. }
  rewrite (round_pos_comp _ _ Hr Er).
  destruct (Z.eq_dec m (2 ^ 53)%Z) as [E|E].
  - assert (E2 : inject_Z m * 2 ^ g == inject_Z (2 ^ 52) * 2 ^ (g + 1)).
    { rewrite E, <- !pow2_Z by lia. rewrite <- !pow2_plus.
      replace (53 + g)%Z with (52 + (g + 1))%Z by lia. reflexivity. }
    assert (Hpos : 0 < inject_Z m * 2 ^ g) by (rewrite <- Er; exact Hr).
    rewrite (round_pos_comp _ _ Hpos E2), Er, E2.
    apply round_pos_exact; lia.
  - rewrite Er. apply round_pos_exact; lia.
Qed.

(** ** The conversion [float] *)

Lemma float_comp x y : x == y -> float x = float y.
Proof.
  intros E. unfold float.
  rewrite (Qcompare_comp _ _ E _ _ (Qeq_refl 0)).
  destruct (Qcompare_spec y 0) as [H|H|H]; apply Qred_complete.
  - reflexivity.
  - assert (Hx : 0 < - x) by (rewrite E; lra).
    assert (E' : - x == - y) by (rewrite E; reflexivity).
    rewrite (round_pos_comp _ _ Hx E'). reflexivity.
  - assert (Hx : 0 < x) by (rewrite E; exact H).
    apply (round_pos_comp _ _ Hx E).
Qed.

Lemma float_pos x : 0 < x -> float x == round_pos x.
Proof.
  intros H. unfold float. rewrite (proj1 (Qgt_alt x 0) H). apply Qred_correct.
Qed.

Lemma float_neg x : x < 0 -> float x == - round_pos (- x).
Proof.
  intros H. unfold float. rewrite (proj1 (Qlt_alt x 0) H). apply Qred_correct.
Qed.

Lemma float_0 x : x == 0 -> float x = 0.
Proof. intros H. rewrite (float_comp _ _ H). reflexivity. Qed.

Lemma float_nonneg x : 0 <= x -> 0 <= float x.
Proof.
  intros H. destruct (Qle_lt_or_eq _ _ H) as [Hlt|Heq].
  - rewrite (float_pos x Hlt). apply round_pos_nonneg, H.
  - rewrite (float_0 x) by (symmetry; exact Heq). apply Qle_refl.
Qed.

Lemma float_nonpos x : x <= 0 -> float x <= 0.
Proof.
  intros H. destruct (Qle_lt_or_eq _ _ H) as [Hlt|Heq].
  - rewrite (float_neg x Hlt).
    assert (H0 : 0 <= round_pos (- x)) by (apply round_pos_nonneg; lra).
    lra.
  - rewrite (float_0 x Heq). apply Qle_refl.
Qed.

Lemma float_le_compat x y : x <= y -> float x <= float y.
Proof.
  intros H. destruct (Qlt_le_dec 0 x) as [Hx|Hx].
  - assert (Hy : 0 < y) by lra.
    rewrite (float_pos x Hx), (float_pos y Hy). apply round_pos_mono; assumption.
  - destruct (Qlt_le_dec y 0) as [Hy|Hy].
    + assert (Hx' : x < 0) by lra.
      rewrite (float_neg x Hx'), (float_neg y Hy).
      assert (Hm : round_pos (- y) <= round_pos (- x))
        by (apply round_pos_mono; lra).
      lra.
    + apply Qle_trans with 0; [apply float_nonpos, Hx | apply float_nonneg, Hy].
Qed.

Lemma float_idem x : float (float x) = float x.
Proof.
  destruct (Q_dec 0 x) as [[Hx|Hx]|Hx].
  - pose proof (float_pos x Hx) as E.
    pose proof (round_pos_nonneg x (Qlt_le_weak _ _ Hx)) as H0.
    destruct (Qle_lt_or_eq _ _ H0) as [Hr|Hr].
    + assert (Hf : 0 < float x) by (rewrite E; exact Hr).
      unfold float at 1. rewrite (proj1 (Qgt_alt _ 0) Hf).
      unfold float at 2. rewrite (proj1 (Qgt_alt x 0) Hx).
      apply Qred_complete.
      rewrite (round_pos_comp _ _ Hf E). apply round_pos_idem; assumption.
    + assert (Hf : float x == 0) by (rewrite E; symmetry; exact Hr).
      rewrite (float_0 _ Hf). unfold float.
      rewrite (proj1 (Qgt_alt x 0) Hx).
      change 0 with (Qred 0) at 1. apply Qred_complete. exact Hr.
  - pose proof (float_neg x Hx) as E.
    assert (Hx' : 0 < - x) by lra.
    pose proof (round_pos_nonneg (- x) (Qlt_le_weak _ _ Hx')) as H0.
    destruct (Qle_lt_or_eq _ _ H0) as [Hr|Hr].
    + assert (Hf : float x < 0) by (rewrite E; lra).
      unfold float at 1. rewrite (proj1 (Qlt_alt _ 0) Hf).
      unfold float at 2. rewrite (proj1 (Qlt_alt x 0) Hx).
      apply Qred_complete.
      assert (E' : - float x == round_pos (- x)) by (rewrite E; ring).
      assert (Hf' : 0 < - float x) by lra.
      rewrite (round_pos_comp _ _ Hf' E').
      rewrite (round_pos_idem _ Hx' Hr). reflexivity.
    + assert (Hf : float x == 0) by (rewrite E, <- Hr; reflexivity).
      rewrite (float_0 _ Hf). unfold float.
      rewrite (proj1 (Qlt_alt x 0) Hx).
      change 0 with (Qred 0) at 1. apply Qred_complete. rewrite <- Hr.
      reflexivity.
  - rewrite (float_0 x) by (symmetry; exact Hx). reflexivity.
Qed.

(** Every [k * 2 ^ h] with [|k| <= 2 ^ 53] and [h >= -1074] is a binary64
    number. *)
Lemma float_exact k h :
  (Z.abs k <= 2 ^ 53)%Z -> (-1074 <= h)%Z ->
  float (inject_Z k * 2 ^ h) == inject_Z k * 2 ^ h.
Proof.
  intros Hk Hh.
  assert (Hpos : forall k', (0 < k' <= 2 ^ 53)%Z ->
            round_pos (inject_Z k' * 2 ^ h) == inject_Z k' * 2 ^ h).
  { intros k' Hk'. destruct (Z.eq_dec k' (2 ^ 53)%Z) as [E|E].
    - assert (E2 : inject_Z k' * 2 ^ h == inject_Z (2 ^ 52) * 2 ^ (h + 1)).
      { rewrite E, <- !pow2_Z by lia. rewrite <- !pow2_plus.
        replace (53 + h)%Z with (52 + (h + 1))%Z by lia. reflexivity. }
      assert (Hp : 0 < inject_Z k' * 2 ^ h).
      { apply Qmult_lt_0_compat; [|apply pow2_pos].
        change 0 with (inject_Z 0). rewrite <- Zlt_Qlt. lia. }
      rewrite (round_pos_comp _ _ Hp E2), E2. apply round_pos_exact; lia.
    - apply round_pos_exact; lia. }
  destruct (Z.lt_trichotomy k 0) as [H|[H|H]].
  - assert (Hn : inject_Z k * 2 ^ h < 0).
    { setoid_replace 0 with (0 * 2 ^ h) using relation Qeq by ring.
      apply Qmult_lt_compat_r; [apply pow2_pos|].
      change 0 with (inject_Z 0). rewrite <- Zlt_Qlt. exact H. }
    rewrite (float_neg _ Hn).
    assert (E : - (inject_Z k * 2 ^ h) == inject_Z (- k) * 2 ^ h)
      by (rewrite inject_Z_opp; ring).
    assert (Hp : 0 < - (inject_Z k * 2 ^ h)) by lra.
    rewrite (round_pos_comp _ _ Hp E), Hpos by lia.
    rewrite inject_Z_opp. ring.
  - subst k. rewrite float_0 by ring. ring.
  - assert (Hp : 0 < inject_Z k * 2 ^ h).
    { apply Qmult_lt_0_compat; [|apply pow2_pos].
      change 0 with (inject_Z 0). rewrite <- Zlt_Qlt. exact H. }
    rewrite (float_pos _ Hp). apply Hpos. lia.
Qed.

Lemma round_pos_rep x :
  0 < x ->
  exists m, (0 <= m <= 2 ^ 53)%Z
            /\ round_pos x == inject_Z m * 2 ^ ulp_exponent x.
Proof.
  intros Hx. exists (rne (x * 2 ^ (- ulp_exponent x))).
  split; [|reflexivity]. split.
  - apply rne_ge_int. apply Qmult_le_0_compat;
      [apply Qlt_le_weak, Hx | apply Qlt_le_weak, pow2_pos].
  - destruct (ilog2_spec x Hx) as [_ Hx2].
    apply rne_le_int.
    assert (P : inject_Z (2 ^ 53) == 2 ^ 53) by (symmetry; apply pow2_Z; lia).
    rewrite P. apply scale_le. rewrite <- pow2_plus.
    apply Qlt_le_weak. eapply Qlt_le_trans; [exact Hx2|].
    apply pow2_le. unfold ulp_exponent. lia.
Qed.

(** Every binary64 number is [k * 2 ^ h] with [|k| <= 2 ^ 53] and
    [h >= -1074]. *)
Lemma float_rep x :
  exists k h, (Z.abs k <= 2 ^ 53)%Z /\ (-1074 <= h)%Z
              /\ float x == inject_Z k * 2 ^ h.
Proof.
  destruct (Q_dec 0 x) as [[Hx|Hx]|Hx].
  - destruct (round_pos_rep x Hx) as (m & Hm & E).
    exists m, (ulp_exponent x). split; [lia|].
    split; [unfold ulp_exponent; lia|].
    rewrite (float_pos x Hx). exact E.
  - assert (Hx' : 0 < - x) by lra.
    destruct (round_pos_rep (- x) Hx') as (m & Hm & E).
    exists (- m)%Z, (ulp_exponent (- x)). split; [lia|].
    split; [unfold ulp_exponent; lia|].
    rewrite (float_neg x Hx), E, inject_Z_opp. ring.
  - exists 0%Z, 0%Z. split; [cbn; lia|]. split; [lia|].
    rewrite (float_0 x) by (symmetry; exact Hx). reflexivity.
Qed.

(** Doubling a binary64 number is exact. *)
Lemma float_double x : float (float x * 2) == float x * 2.
Proof.
  destruct (float_rep x) as (k & h & Hk & Hh & E).
  assert (E2 : float x * 2 == inject_Z k * 2 ^ (h + 1)).
  { rewrite E, pow2_plus. change (2 ^ 1) with 2. ring. }
  rewrite (float_comp _ _ E2), E2. apply float_exact; lia.
Qed.

Lemma is_float_double x : float x == x -> float (x * 2) == x * 2.
Proof.
  intros H. assert (E : x * 2 == float x * 2) by (rewrite H; reflexivity).
  rewrite (float_comp _ _ E), float_double, H. reflexivity.
Qed.

Set Implicit Arguments.

Arguments float : simpl never.

(** [a + b], [a - b], [a * b] and [a / b] on floats; [a / b] is also the
    true division of two integers, which is correctly rounded. *)
Definition fadd (a b : Q) : Q := float (a + b).
Definition fsub (a b : Q) : Q := float (a - b).
Definition fmul (a b : Q) : Q := float (a * b).
Definition fdiv (a b : Q) : Q := float (a / b).

(** [sum(xs)] on floats, from the start value [0]. Up to Python 3.11
    the floats are added from left to right. From Python 3.12 the
    additions also collect Neumaier's compensation [c], which is added at
    the end when it is not zero. *)
Definition neumaier (state : Q * Q) (x : Q) : Q * Q :=
  let (f_result, c) := state in
  let t := fadd f_result x in
  (t, if Qle_bool (Qabs x) (Qabs f_result)
      then fadd c (fadd (fsub f_result t) x)
      else fadd c (fadd (fsub x t) f_result)).

Definition sum (compensated : bool) (xs : list Q) : Q :=
  if compensated
  then match xs with
       | [] => 0
       | x :: rest =>
           let (f_result, c) := fold_left neumaier rest (fadd 0 x, 0) in
           if Qeq_bool c 0 then f_result else fadd f_result c
       end
  else fold_left fadd xs 0.

(** [x] is a binary64 number. *)
Definition is_float (x : Q) : Prop := float x == x.

Lemma float_1 : float 1 == 1.
Proof. vm_compute. reflexivity. Qed.

Lemma is_float_float x : is_float (float x).
Proof. unfold is_float. rewrite float_idem. reflexivity. Qed.



Close Scope Q_scope.
Open Scope string_scope.

(** [str.lower()]: among the code points below 256 the capital letters
    are A..Z and 0xC0..0xDE without the multiplication sign 0xD7. *)
Definition lower_char (c : ascii) : ascii :=
  let n := nat_of_ascii c in
  if ((65 <=? n)%nat && (n <=? 90)%nat)
     || ((192 <=? n)%nat && (n <=? 222)%nat && negb (n =? 215)%nat)
  then ascii_of_nat (n + 32) else c.

Fixpoint lower (s : string) : string :=
  match s with
  | EmptyString => EmptyString
  | String c s' => String (lower_char c) (lower s')
  end.

(** The characters [str.split()] treats as separators, among the code
    points below 256: tab, line feed, vertical tab, form feed, carriage
    return, the four separators 0x1c..0x1f, the space, the next-line
    control 0x85 and the no-break space 0xa0. *)
Definition isspace (c : ascii) : bool :=
  let n := nat_of_ascii c in
  (n =? 32)%nat || ((9 <=? n)%nat && (n <=? 13)%nat)
  || ((28 <=? n)%nat && (n <=? 31)%nat)
  || (n =? 133)%nat || (n =? 160)%nat.

(** [str.split()] without arguments: the maximal runs of characters that
    are not separators, in order; no empty word is produced. [cur] is the
    word being read, if any. *)
Fixpoint split_from (cur : option string) (s : string) : list string :=
  match s with
  | EmptyString => match cur with Some w => [w] | None => [] end
  | String c s' =>
      if isspace c then
        match cur with
        | Some w => w :: split_from None s'
        | None => split_from None s'
        end
      else
        split_from
          (Some (match cur with
                 | Some w => w ++ String c EmptyString
                 | None => String c EmptyString
                 end)) s'
  end.

Definition split (s : string) : list string := split_from None s.

(** [str(n)] for a non-negative integer. *)
Definition str_nat (n : nat) : string :=
  NilZero.string_of_uint (Nat.to_uint n).

Close Scope string_scope.

(** ** Dictionaries with insertion order *)

Abbreviation dict V := (list (string * V)%type) (only parsing).

Section Dict.
Context {V : Type}.

Fixpoint get (k : string) (d : dict V) : option V :=
  match d with
  | [] => None
  | (k', v) :: d' => if String.eqb k k' then Some v else get k d'
  end.

Definition contains (k : string) (d : dict V) : bool :=
  match get k d with Some _ => true | None => false end.

(** [d[k] = v]: an existing key keeps its position, a new key goes
    last. *)
Fixpoint set (k : string) (v : V) (d : dict V) : dict V :=
  match d with
  | [] => [(k, v)]
  | (k', v') :: d' =>
      if String.eqb k k' then (k, v) :: d' else (k', v') :: set k v d'
  end.

(** [del d[k]] for a key that is present (a no-op otherwise). *)
Fixpoint del (k : string) (d : dict V) : dict V :=
  match d with
  | [] => []
  | (k', v') :: d' =>
      if String.eqb k k' then d' else (k', v') :: del k d'
  end.

Definition values (d : dict V) : list V := map snd d.
End Dict.

(** ** [list.sort(key=..., reverse=True)]

    The sort is stable, also with [reverse=True]: elements whose keys
    compare equal keep their original relative order. It is modelled by
    the insertion sort that puts every element in front of the first
    later element whose key is not larger. *)

Section Sort.
Context {A : Type} (key : A -> Q).

Fixpoint insert_desc (x : A) (l : list A) : list A :=
  match l with
  | [] => [x]
  | y :: l' =>
      if ge (key x) (key y) then x :: y :: l' else y :: insert_desc x l'
  end.

Fixpoint sort_desc (l : list A) : list A :=
  match l with
  | [] => []
  | x :: l' => insert_desc x (sort_desc l')
  end.

(** [max(l, key=...)]: the first element whose key is maximal. *)
Fixpoint max_by (best : A) (l : list A) : A :=
  match l with
  | [] => best
  | x :: l' => max_by (if lt (key best) (key x) then x else best) l'
  end.
End Sort.

(** ** The ranking that the stable descending sort produces

    When every element carries its position [idx] in the original order,
    sorting a list that is in that order ranks it by key, larger first,
    and among equal keys by position, smaller first. *)

Section SortMembers.
Context {A : Type} (key : A -> Q).

Lemma elem_of_insert_desc x l y :
  y ∈ insert_desc key x l <-> y = x \/ y ∈ l.
Proof.
  induction l as [|z l IH]; simpl.
  - rewrite list_elem_of_singleton, elem_of_nil. tauto.
  - destruct (ge (key x) (key z)).
    + rewrite !elem_of_cons. tauto.
    + rewrite !elem_of_cons, IH. tauto.
Qed.

Lemma elem_of_sort_desc l y : y ∈ sort_desc key l <-> y ∈ l.
Proof.
  induction l as [|x l IH]; simpl; [tauto|].
  rewrite elem_of_insert_desc, elem_of_cons, IH. tauto.
Qed.

Lemma length_insert_desc x l :
  length (insert_desc key x l) = S (length l).
Proof.
  induction l as [|z l IH]; simpl; [reflexivity|].
  destruct (ge (key x) (key z)); simpl; congruence.
Qed.

Lemma length_sort_desc l : length (sort_desc key l) = length l.
Proof.
  induction l as [|x l IH]; simpl; [reflexivity|].
  rewrite length_insert_desc. congruence.
Qed.

End SortMembers.

Section SortFacts.
Context {A : Type} (key : A -> Q) (idx : A -> nat).

Definition ranks_before (x y : A) : Prop :=
  (key y < key x)%Q \/ ((key x == key y)%Q /\ (idx x < idx y)%nat).

Lemma insert_desc_ranked x l :
  StronglySorted ranks_before l ->
  Forall (fun y => (idx x < idx y)%nat) l ->
  StronglySorted ranks_before (insert_desc key x l).
Proof.
  induction l as [|z l IH]; intros Hs Hx; simpl.
  - repeat constructor.
  - apply StronglySorted_inv in Hs as [Hs Hz].
    apply Forall_cons in Hx as [Hxz Hx].
    destruct (ge (key x) (key z)) eqn:E.
    + apply Qle_bool_iff in E.
      assert (Hle : Forall (fun y => (key y <= key x)%Q) (z :: l)).
      { constructor; [exact E|].
        rewrite Forall_forall in Hz |- *. intros y Hy.
        apply Qle_trans with (key z); [|exact E].
        destruct (Hz y Hy) as [Hlt|[Heq _]].
        - apply Qlt_le_weak, Hlt.
        - rewrite Heq. apply Qle_refl. }
      constructor; [constructor; assumption|].
      assert (Hx' : Forall (fun y => (idx x < idx y)%nat) (z :: l))
        by (constructor; assumption).
      rewrite Forall_forall in Hle, Hx' |- *. intros y Hy.
      destruct (Qle_lt_or_eq _ _ (Hle y Hy)) as [Hlt|Heq].
      * left. exact Hlt.
      * right. split; [symmetry; exact Heq | apply Hx', Hy].
    + constructor; [apply IH; assumption|].
      rewrite Forall_forall in Hz |- *. intros y Hy.
      apply (proj1 (elem_of_insert_desc key x l y)) in Hy as [->|Hy];
        [|apply Hz, Hy].
      left. apply (proj1 (le_false_iff (key z) (key x))). exact E.
Qed.

Lemma sort_desc_ranked l :
  StronglySorted (fun x y => (idx x < idx y)%nat) l ->
  StronglySorted ranks_before (sort_desc key l).
Proof.
  induction l as [|x l IH]; intros Hs; simpl.
  - constructor.
  - apply StronglySorted_inv in Hs as [Hs Hx].
    apply insert_desc_ranked; [apply IH, Hs|].
    rewrite Forall_forall in Hx |- *. intros y Hy.
    apply Hx. apply (proj1 (elem_of_sort_desc key l y)), Hy.
Qed.

End SortFacts.

(** ** Reading back what was stored *)

Lemma get_set_same {V} (k : string) (v : V) (d : dict V) :
  get k (set k v d) = Some v.
Proof.
  induction d as [|[k' v'] d IH]; cbn.
  - rewrite String.eqb_refl. reflexivity.
  - destruct (String.eqb k k') eqn:E; cbn; rewrite ?String.eqb_refl, ?E;
      [reflexivity | exact IH].
Qed.

(** ** More string operations

    [str.upper()] and the substring test [sub in s]. Among the code
    points below 256 the small letters with a capital below 256 are a..z
    and 0xE0..0xFE without the division sign 0xF7. The three others (the
    micro sign, the sharp s and the y with diaeresis, whose capitals lie
    elsewhere) are kept as they are; no text compared with an upper-cased
    one here contains them or their capitals. *)

Definition upper_char (c : ascii) : ascii :=
  let n := nat_of_ascii c in
  if ((97 <=? n)%nat && (n <=? 122)%nat)
     || ((224 <=? n)%nat && (n <=? 254)%nat && negb (n =? 247)%nat)
  then ascii_of_nat (n - 32) else c.

Fixpoint upper (s : string) : string :=
  match s with
  | EmptyString => EmptyString
  | String c s' => String (upper_char c) (upper s')
  end.

Fixpoint str_contains (sub s : string) : bool :=
  String.prefix sub s
  || match s with
     | EmptyString => false
     | String _ s' => str_contains sub s'
     end.

Lemma lower_char_idem c : lower_char (lower_char c) = lower_char c.
Proof. destruct c as [[] [] [] [] [] [] [] []]; reflexivity. Qed.

Lemma lower_upper_char c : lower_char (upper_char c) = lower_char c.
Proof. destruct c as [[] [] [] [] [] [] [] []]; reflexivity. Qed.

Lemma upper_lower_char c : upper_char (lower_char c) = upper_char c.
Proof. destruct c as [[] [] [] [] [] [] [] []]; reflexivity. Qed.

Lemma lower_idem s : lower (lower s) = lower s.
Proof.
  induction s as [|c s IH]; cbn [lower]; [reflexivity|].
  rewrite lower_char_idem, IH. reflexivity.
Qed.

Lemma lower_upper s : lower (upper s) = lower s.
Proof.
  induction s as [|c s IH]; cbn [lower upper]; [reflexivity|].
  rewrite lower_upper_char, IH. reflexivity.
Qed.

Lemma upper_lower s : upper (lower s) = upper s.
Proof.
  induction s as [|c s IH]; cbn [lower upper]; [reflexivity|].
  rewrite upper_lower_char, IH. reflexivity.
Qed.

Lemma lower_app a b : lower (a ++ b) = (lower a ++ lower b)%string.
Proof.
  induction a as [|c a IH]; cbn [lower String.append]; [reflexivity|].
  rewrite IH. reflexivity.
Qed.

Lemma prefix_app sub post : String.prefix sub (sub ++ post) = true.
Proof.
  induction sub as [|c sub IH]; cbn.
  - destruct post; reflexivity.
  - destruct (ascii_dec c c) as [_|Hne]; [exact IH | contradiction].
Qed.

Lemma str_contains_app sub pre post :
  str_contains sub (pre ++ sub ++ post) = true.
Proof.
  induction pre as [|c pre IH]; cbn [String.append].
  - destruct (sub ++ post)%string eqn:E; cbn [str_contains];
      rewrite <- E, prefix_app; reflexivity.
  - cbn [str_contains]. rewrite IH. apply orb_true_r.
Qed.

End Py.

(* ================================================================== *)
(** * The CoAct-1 automation engine ([coact_engine.py]) *)
(* ================================================================== *)

Module CoAct.

Inductive TaskComplexity := SIMPLE | MODERATE | COMPLEX | VERY_COMPLEX.

Inductive ExecutionStrategy := SEQUENTIAL | PARALLEL | HYBRID | ADAPTIVE.

Record CoActResult := {
  task_id : string;
  success : bool;
  execution_time : Q;
  strategy_used : ExecutionStrategy;
  steps_completed : Z;
  total_steps : Z;
  confidence : Q;
  error_message : option string }.

Definition set_strategy_used (s : ExecutionStrategy) (r : CoActResult)
  : CoActResult :=
  {| task_id := task_id r; success := success r;
     execution_time := execution_time r; strategy_used := s;
     steps_completed := steps_completed r; total_steps := total_steps r;
     confidence := confidence r; error_message := error_message r |}.

(** ** Complexity analysis *)

Open Scope Q_scope.

(** The weights are float literals. *)
Definition complexity_keywords : Py.dict Q :=
  [ ("analyze"%string, Py.float 1.2); ("integrate"%string, Py.float 1.5);
    ("coordinate"%string, Py.float 1.8); ("optimize"%string, Py.float 2.0);
    ("synthesize"%string, Py.float 2.2); ("orchestrate"%string, Py.float 2.5);
    ("multiple"%string, Py.float 1.3); ("complex"%string, Py.float 2.0);
    ("advanced"%string, Py.float 1.7); ("simultaneous"%string, Py.float 2.3);
    ("parallel"%string, Py.float 1.8); ("sequential"%string, Py.float 1.2) ].

Definition _recommend_strategy (c : TaskComplexity) : ExecutionStrategy :=
  match c with
  | SIMPLE => SEQUENTIAL
  | MODERATE => PARALLEL
  | COMPLEX => HYBRID
  | VERY_COMPLEX => ADAPTIVE
  end.

Record ComplexityAnalysis := {
  complexity_score : Q;
  complexity_level : TaskComplexity;
  indicators : list string;
  estimated_steps : Z;
  estimated_time : Q;
  recommended_strategy : ExecutionStrategy }.

(** The loop [for word in words] over the accumulator
    [(complexity_score, indicators)]; [complexity_score += w] is a float
    addition. *)
Fixpoint scan_words (words : list string) (acc : Q * list string)
  : Q * list string :=
  match words with
  | [] => acc
  | word :: rest =>
      match Py.get word complexity_keywords with
      | Some w => scan_words rest (Py.fadd (fst acc) w, snd acc ++ [word])
      | None => scan_words rest acc
      end
  end.

(** The chain [if score <= 2.0 ... elif score <= 4.0 ... elif score <= 6.0
    ... else]; the three thresholds are binary64 numbers. *)
Definition level_of_score (complexity_score : Q) : TaskComplexity :=
  if Py.le complexity_score 2.0 then SIMPLE
  else if Py.le complexity_score 4.0 then MODERATE
  else if Py.le complexity_score 6.0 then COMPLEX
  else VERY_COMPLEX.

Definition analyze_task_complexity (task_description : string)
  : ComplexityAnalysis :=
  let words := Py.split (Py.lower task_description) in
  let '(score0, ind0) := scan_words words (0, []) in
  let '(complexity_score, indicators) :=
    if (20 <? length words)%nat
    then (Py.fadd score0 1.0, ind0 ++ ["lengthy_description"%string])
    else (score0, ind0) in
  let complexity_level := level_of_score complexity_score in
  {| complexity_score := complexity_score;
     complexity_level := complexity_level;
     indicators := indicators;
     estimated_steps := Z.max (Py.int (Py.fmul complexity_score 2)) 3;
     estimated_time := Py.fmul complexity_score 10;
     recommended_strategy := _recommend_strategy complexity_level |}.

(** ** Strategy executors

    The executors simulate their steps: whether a step fails is decided by
    [hash(task.task_id + str(step))], Python's per-process string hash,
    here the parameter [hash]. [elapsed s] is the wall-clock time
    [time.time() - start_time] the executor of [s] measures. The analysis
    dictionary always comes from [analyze_task_complexity], so
    [complexity_analysis.get("estimated_steps", d)] is its field. *)

Section Executors.

Variable hash : string -> Z.
Variable elapsed : ExecutionStrategy -> Q.

(** What [asyncio.gather(..., return_exceptions=True)] collects for one
    step: the value the step returned, or the exception it raised. *)
Inductive StepResult := StepValue (ok : bool) | StepException (msg : string).

Definition is_exception (r : StepResult) : bool :=
  match r with StepException _ => true | StepValue _ => false end.

Definition _execute_parallel_step (task_id : string) (step : nat)
  : StepResult :=
  StepValue (negb (hash (task_id ++ Py.str_nat step) mod 5 =? 0)%Z).

(** [range(n)] for an integer [n]. *)
Definition range (n : Z) : list nat := seq 0 (Z.to_nat n).

(** The body of the [for] loop of [_execute_sequential]: the number of
    completed steps, and the message of the exception raised, if any. *)
Fixpoint sequential_steps (task_id : string) (steps : list nat)
  (completed_steps : Z) : Z * option string :=
  match steps with
  | [] => (completed_steps, None)
  | step :: rest =>
      let completed_steps := (completed_steps + 1)%Z in
      if (0 <? step)%nat
         && (hash (task_id ++ Py.str_nat step) mod 10 =? 0)%Z
      then (completed_steps,
            Some ("Simulated failure at step " ++ Py.str_nat (step + 1))%string)
      else sequential_steps task_id rest completed_steps
  end.

Definition _execute_sequential (task_id : string)
  (complexity_analysis : ComplexityAnalysis) : CoActResult :=
  let total_steps := estimated_steps complexity_analysis in
  match sequential_steps task_id (range total_steps) 0%Z with
  | (completed_steps, None) =>
      {| task_id := task_id; success := true;
         execution_time := elapsed SEQUENTIAL; strategy_used := SEQUENTIAL;
         steps_completed := completed_steps; total_steps := total_steps;
         confidence := 0.85; error_message := None |}
  | (completed_steps, Some e) =>
      {| task_id := task_id; success := false;
         execution_time := elapsed SEQUENTIAL; strategy_used := SEQUENTIAL;
         steps_completed := completed_steps; total_steps := total_steps;
         confidence := 0.3; error_message := Some e |}
  end.

(** [sum(1 for r in results if not isinstance(r, Exception))]. *)
Definition count_not_exception (results : list StepResult) : Z :=
  Z.of_nat (length (filter (fun r => negb (is_exception r)) results)).

Definition _execute_parallel (task_id : string)
  (complexity_analysis : ComplexityAnalysis) : CoActResult :=
  let total_steps := estimated_steps complexity_analysis in
  let results := map (_execute_parallel_step task_id) (range total_steps) in
  let completed_steps := count_not_exception results in
  let success := Py.ge (inject_Z completed_steps) (inject_Z total_steps * 0.7) in
  {| task_id := task_id; success := success;
     execution_time := elapsed PARALLEL; strategy_used := PARALLEL;
     steps_completed := completed_steps; total_steps := total_steps;
     confidence := if success then 0.75 else 0.4; error_message := None |}.

(** Phase 2 of [_execute_hybrid]: every remaining step counts, and a
    retried one counts half a step more. *)
Fixpoint hybrid_steps (task_id : string) (steps : list nat)
  (completed_steps : Q) : Q :=
  match steps with
  | [] => completed_steps
  | step :: rest =>
      let completed_steps := completed_steps + 1 in
      hybrid_steps task_id rest
        (if (hash (task_id ++ Py.str_nat step) mod 8 =? 0)%Z
         then completed_steps + 0.5 else completed_steps)
  end.

Definition _execute_hybrid (task_id : string)
  (complexity_analysis : ComplexityAnalysis) : CoActResult :=
  let total_steps := estimated_steps complexity_analysis in
  let init_results :=
    map (_execute_parallel_step task_id) (range (Z.min 3 total_steps)) in
  let completed_steps := 0 + inject_Z (count_not_exception init_results) in
  let remaining_steps := (total_steps - 3)%Z in
  let completed_steps :=
    if (0 <? remaining_steps)%Z
    then hybrid_steps task_id (range remaining_steps) completed_steps
    else completed_steps in
  let success := Py.ge completed_steps (inject_Z total_steps * 0.6) in
  {| task_id := task_id; success := success;
     execution_time := elapsed HYBRID; strategy_used := HYBRID;
     steps_completed := Py.int completed_steps; total_steps := total_steps;
     confidence := if success then 0.85 else 0.5; error_message := None |}.

End Executors.

(** ** The adaptive cascade

    [_execute_adaptive] runs the executors of [strategies_to_try] one after
    the other inside [try ... except Exception: continue]. [attempt s] is
    what running the executor of [s] gives: [Some result] when it returns,
    [None] when it raises. Besides the result, the model returns the list
    of the executors that were run, in order. *)

Section Adaptive.

Variable attempt : ExecutionStrategy -> option CoActResult.

Definition strategies_to_try : list ExecutionStrategy :=
  [HYBRID; PARALLEL; SEQUENTIAL].

(** The [for strategy in strategies_to_try] loop: [inl result] when the
    loop returns from inside, [inr last_result] when it runs to its end. *)
Fixpoint adaptive_loop (to_try : list ExecutionStrategy)
  (last_result : option CoActResult) (tried : list ExecutionStrategy)
  : list ExecutionStrategy * (CoActResult + option CoActResult) :=
  match to_try with
  | [] => (tried, inr last_result)
  | strategy :: rest =>
      match attempt strategy with
      | Some result =>
          if success result
          then (tried ++ [strategy], inl (set_strategy_used ADAPTIVE result))
          else adaptive_loop rest (Some result) (tried ++ [strategy])
      | None => adaptive_loop rest last_result (tried ++ [strategy])
      end
  end.

Definition execute_adaptive_with (task_id : string)
  (complexity_analysis : ComplexityAnalysis) (execution_time : Q)
  : list ExecutionStrategy * CoActResult :=
  match adaptive_loop strategies_to_try None [] with
  | (tried, inl result) => (tried, result)
  | (tried, inr (Some last_result)) =>
      (tried, set_strategy_used ADAPTIVE last_result)
  | (tried, inr None) =>
      (tried,
       {| task_id := task_id; success := false;
          execution_time := execution_time; strategy_used := ADAPTIVE;
          steps_completed := 0;
          total_steps := estimated_steps complexity_analysis;
          confidence := 0.1;
          error_message := Some "All strategies failed"%string |})
  end.

(** The executor of [s] runs and reports success. *)
Definition succeeds (s : ExecutionStrategy) : bool :=
  match attempt s with Some r => success r | None => false end.

End Adaptive.

(** The engine's own executors: [if strategy == HYBRID ... elif strategy ==
    PARALLEL ... else ...]. They catch their exceptions themselves and
    always return a result. *)
Definition run_executor (hash : string -> Z) (elapsed : ExecutionStrategy -> Q)
  (task_id : string) (complexity_analysis : ComplexityAnalysis)
  (strategy : ExecutionStrategy) : option CoActResult :=
  match strategy with
  | HYBRID => Some (_execute_hybrid hash elapsed task_id complexity_analysis)
  | PARALLEL => Some (_execute_parallel hash elapsed task_id complexity_analysis)
  | _ => Some (_execute_sequential hash elapsed task_id complexity_analysis)
  end.

Definition _execute_adaptive (hash : string -> Z)
  (elapsed : ExecutionStrategy -> Q) (task_id : string)
  (complexity_analysis : ComplexityAnalysis)
  : list ExecutionStrategy * CoActResult :=
  execute_adaptive_with (run_executor hash elapsed task_id complexity_analysis)
    task_id complexity_analysis (elapsed ADAPTIVE).

(** ** Properties of the complexity analyzer *)

Definition is_keyword (w : string) : bool :=
  Py.contains w complexity_keywords.

Definition weight (w : string) : Q :=
  default 0 (Py.get w complexity_keywords).

(** The weights of the words [ws] added to [0.0] one after the other, as
    the loop adds them. *)
Definition total_weight (ws : list string) : Q :=
  fold_left (fun score w => Py.fadd score (weight w)) ws 0.

(** The words of the description that are complexity keywords, in the
    order of the text and with repetitions. *)
Definition keyword_occurrences (d : string) : list string :=
  List.filter is_keyword (Py.split (Py.lower d)).

Definition lengthy (d : string) : bool :=
  (20 <? length (Py.split (Py.lower d)))%nat.

(** The total score of a description. *)
Definition keyword_score (d : string) : Q :=
  let total := total_weight (keyword_occurrences d) in
  if lengthy d then Py.fadd total 1.0 else total.

Lemma scan_words_no_keyword words acc :
  (forall w, In w words -> Py.get w complexity_keywords = None) ->
  scan_words words acc = acc.
Proof.
  revert acc. induction words as [|w ws IH]; intros acc Hfree;
    cbn [scan_words].
  - reflexivity.
  - rewrite (Hfree w (or_introl eq_refl)).
    apply IH. intros w' Hw'. apply Hfree. right. exact Hw'.
Qed.

Lemma scan_words_spec words q ind :
  scan_words words (q, ind)
  = (fold_left (fun score w => Py.fadd score (weight w))
       (List.filter is_keyword words) q,
     ind ++ List.filter is_keyword words).
Proof.
  revert q ind. induction words as [|w ws IH]; intros q ind.
  - cbn [scan_words List.filter fold_left]. rewrite app_nil_r. reflexivity.
  - cbn [scan_words List.filter].
    assert (Hk : is_keyword w
                 = match Py.get w complexity_keywords with
                   | Some _ => true
                   | None => false
                   end) by reflexivity.
    destruct (Py.get w complexity_keywords) as [x|] eqn:E; rewrite Hk.
    + rewrite IH. cbn [fst snd fold_left].
      replace (weight w) with x by (unfold weight; rewrite E; reflexivity).
      rewrite <- app_assoc. reflexivity.
    + apply IH.
Qed.

Lemma analyze_spec d :
  indicators (analyze_task_complexity d)
  = keyword_occurrences d
    ++ (if lengthy d then ["lengthy_description"%string] else [])
  /\ complexity_score (analyze_task_complexity d) = keyword_score d.
Proof.
  unfold analyze_task_complexity, keyword_score, total_weight,
    keyword_occurrences, lengthy.
  rewrite scan_words_spec. cbn [app].
  destruct (20 <? _)%nat; cbn [indicators complexity_score]; split;
    try reflexivity; rewrite app_nil_r; reflexivity.
Qed.

Lemma analyze_level_of_score d :
  complexity_level (analyze_task_complexity d)
  = level_of_score (complexity_score (analyze_task_complexity d)).
Proof.
  unfold analyze_task_complexity.
  destruct (scan_words _ _) as [score0 ind0].
  destruct (20 <? _)%nat; reflexivity.
Qed.

Lemma level_of_score_simple s : s <= 2.0 -> level_of_score s = SIMPLE.
Proof.
  intros H. unfold level_of_score.
  rewrite (proj2 (Py.le_iff s 2.0) H). reflexivity.
Qed.

Lemma level_of_score_moderate s :
  2.0 < s -> s <= 4.0 -> level_of_score s = MODERATE.
Proof.
  intros H1 H2. unfold level_of_score.
  rewrite (proj2 (Py.le_false_iff s 2.0) H1).
  rewrite (proj2 (Py.le_iff s 4.0) H2). reflexivity.
Qed.

Lemma level_of_score_complex s :
  4.0 < s -> s <= 6.0 -> level_of_score s = COMPLEX.
Proof.
  intros H1 H2. unfold level_of_score.
  assert (H0 : 2.0 < s) by (eapply Qlt_trans; [|exact H1]; reflexivity).
  rewrite (proj2 (Py.le_false_iff s 2.0) H0).
  rewrite (proj2 (Py.le_false_iff s 4.0) H1).
  rewrite (proj2 (Py.le_iff s 6.0) H2). reflexivity.
Qed.

Lemma level_of_score_very_complex s :
  6.0 < s -> level_of_score s = VERY_COMPLEX.
Proof.
  intros H1. unfold level_of_score.
  assert (H4 : 4.0 < s) by (eapply Qlt_trans; [|exact H1]; reflexivity).
  assert (H2 : 2.0 < s) by (eapply Qlt_trans; [|exact H4]; reflexivity).
  rewrite (proj2 (Py.le_false_iff s 2.0) H2).
  rewrite (proj2 (Py.le_false_iff s 4.0) H4).
  rewrite (proj2 (Py.le_false_iff s 6.0) H1). reflexivity.
Qed.

(** C5. For every task description the total score is the float sum of
    the weights of its keyword occurrences, added in text order from 0.0,
    plus 1.0 when it has more than 20 words, and the tier is read off that
    total with the fixed inclusive thresholds: a score [<= 2.0] gives
    SIMPLE, a score in [(2.0, 4.0]] gives MODERATE, a score in
    [(4.0, 6.0]] gives COMPLEX and a larger score gives VERY_COMPLEX. On
    the boundary, the score 2.0 (reached by the description "optimize")
    gives SIMPLE and the score 2.01 gives MODERATE. The total is the one
    the floating-point additions give: for "multiple multiple synthesize
    analyze" it is just above 6.0 and the tier is VERY_COMPLEX. *)
Theorem complexity_tier_thresholds :
  (forall d : string,
     let a := analyze_task_complexity d in
     complexity_score a = keyword_score d
     /\ complexity_level a = level_of_score (complexity_score a)
     /\ (complexity_score a <= 2.0 -> complexity_level a = SIMPLE)
     /\ (2.0 < complexity_score a /\ complexity_score a <= 4.0 ->
         complexity_level a = MODERATE)
     /\ (4.0 < complexity_score a /\ complexity_score a <= 6.0 ->
         complexity_level a = COMPLEX)
     /\ (6.0 < complexity_score a -> complexity_level a = VERY_COMPLEX))
  /\ level_of_score 2.0 = SIMPLE
  /\ level_of_score (Py.float 2.01) = MODERATE
  /\ complexity_score (analyze_task_complexity "optimize") == 2.0
  /\ complexity_level (analyze_task_complexity "optimize") = SIMPLE
  /\ (let a :=
        analyze_task_complexity "multiple multiple synthesize analyze" in
      complexity_score a == 6 + (1 # 2) ^ 50
      /\ complexity_level a = VERY_COMPLEX).
Proof.
  split; [|repeat split; vm_compute; reflexivity].
  intros d a. pose proof (analyze_level_of_score d) as Hlvl. fold a in Hlvl.
  split; [apply analyze_spec|].
  split; [exact Hlvl|]. rewrite Hlvl.
  split; [apply level_of_score_simple|].
  split; [intros [H1 H2]; apply level_of_score_moderate; assumption|].
  split; [intros [H1 H2]; apply level_of_score_complex; assumption|].
  apply level_of_score_very_complex.
Qed.

(** C6 as stated fails: a five-word description without any keyword gets
    the score 0.0, not 0.3 (the tier SIMPLE is right). *)
Lemma keyword_free_score_is_not_0_3 :
  let d := "please open the mail app"%string in
  length (Py.split (Py.lower d)) = 5%nat
  /\ forallb (fun w => negb (Py.contains w complexity_keywords))
       (Py.split (Py.lower d)) = true
  /\ complexity_level (analyze_task_complexity d) = SIMPLE
  /\ complexity_score (analyze_task_complexity d) = 0
  /\ Qeq_bool (complexity_score (analyze_task_complexity d)) 0.3 = false.
Proof. repeat split; reflexivity. Qed.

(** C6, amended. For every task description of 5 words none of which is a
    complexity keyword, the analyzer returns the tier SIMPLE with the
    complexity score 0.0, below the 2.0 threshold, and no indicator. *)
Theorem keyword_free_five_words_simple (d : string) :
  length (Py.split (Py.lower d)) = 5%nat ->
  (forall w, In w (Py.split (Py.lower d)) ->
             Py.get w complexity_keywords = None) ->
  complexity_level (analyze_task_complexity d) = SIMPLE
  /\ complexity_score (analyze_task_complexity d) = 0
  /\ complexity_score (analyze_task_complexity d) < 2.0
  /\ indicators (analyze_task_complexity d) = [].
Proof.
  intros Hlen Hfree. unfold analyze_task_complexity.
  rewrite (scan_words_no_keyword (0, []) Hfree), Hlen. simpl.
  repeat split; reflexivity.
Qed.

Lemma keyword_free_five_words_simple_witness :
  let d := "Turn on the kitchen lights"%string in
  complexity_level (analyze_task_complexity d) = SIMPLE
  /\ complexity_score (analyze_task_complexity d) = 0
  /\ complexity_score (analyze_task_complexity d) < 2.0
  /\ indicators (analyze_task_complexity d) = [].
Proof.
  apply (keyword_free_five_words_simple (d := "Turn on the kitchen lights")).
  - reflexivity.
  - intros w Hw. simpl in Hw.
    repeat (destruct Hw as [<- | Hw]; [reflexivity|]). destruct Hw.
Defined.

(** ** Properties of the adaptive cascade *)

(** The last result an executor returned, looking from SEQUENTIAL back to
    HYBRID. *)
Definition last_returned (attempt : ExecutionStrategy -> option CoActResult)
  : option CoActResult :=
  match attempt SEQUENTIAL, attempt PARALLEL, attempt HYBRID with
  | Some r, _, _ => Some r
  | None, Some r, _ => Some r
  | None, None, o => o
  end.

(** C8. The adaptive cascade runs HYBRID, then PARALLEL, then SEQUENTIAL
    and stops at the first executor that reports success; the result it
    returns is that executor's, has [success = true] and carries
    [strategy_used = ADAPTIVE]. When no executor succeeds, all three were
    run and the result is the last failure an executor returned, again
    with [strategy_used = ADAPTIVE] (a fresh failure when every executor
    raised). *)
Theorem adaptive_cascade (attempt : ExecutionStrategy -> option CoActResult)
  (task_id : string) (ca : ComplexityAnalysis) (t : Q) :
  let out := execute_adaptive_with attempt task_id ca t in
  strategy_used (snd out) = ADAPTIVE
  /\ (succeeds attempt HYBRID = true ->
      fst out = [HYBRID]
      /\ success (snd out) = true
      /\ Some (snd out) = option_map (set_strategy_used ADAPTIVE) (attempt HYBRID))
  /\ (succeeds attempt HYBRID = false -> succeeds attempt PARALLEL = true ->
      fst out = [HYBRID; PARALLEL]
      /\ success (snd out) = true
      /\ Some (snd out) = option_map (set_strategy_used ADAPTIVE) (attempt PARALLEL))
  /\ (succeeds attempt HYBRID = false -> succeeds attempt PARALLEL = false ->
      succeeds attempt SEQUENTIAL = true ->
      fst out = [HYBRID; PARALLEL; SEQUENTIAL]
      /\ success (snd out) = true
      /\ Some (snd out)
         = option_map (set_strategy_used ADAPTIVE) (attempt SEQUENTIAL))
  /\ (succeeds attempt HYBRID = false -> succeeds attempt PARALLEL = false ->
      succeeds attempt SEQUENTIAL = false ->
      fst out = [HYBRID; PARALLEL; SEQUENTIAL]
      /\ success (snd out) = false
      /\ (forall r, last_returned attempt = Some r ->
                    snd out = set_strategy_used ADAPTIVE r)).
Proof.
  unfold execute_adaptive_with, succeeds, last_returned, strategies_to_try.
  simpl.
  destruct (attempt HYBRID) as [rh|]; [destruct (success rh) eqn:Eh|];
    (destruct (attempt PARALLEL) as [rp|]; [destruct (success rp) eqn:Ep|]);
    (destruct (attempt SEQUENTIAL) as [rs|]; [destruct (success rs) eqn:Es|]);
    simpl; repeat split; intros; simpl;
    try discriminate; try assumption; try reflexivity;
    try (match goal with H : Some _ = Some _ |- _ =>
                           injection H as <-; reflexivity end).
Qed.

(** The scenario of the specification: HYBRID and PARALLEL fail, SEQUENTIAL
    succeeds. *)
Definition failing (s : ExecutionStrategy) : CoActResult :=
  {| task_id := "t"; success := false; execution_time := 0;
     strategy_used := s; steps_completed := 0; total_steps := 3;
     confidence := 0.3; error_message := Some "synthetic failure"%string |}.

Definition scenario_attempt (s : ExecutionStrategy) : option CoActResult :=
  match s with
  | SEQUENTIAL =>
      Some {| task_id := "t"; success := true; execution_time := 0;
              strategy_used := SEQUENTIAL; steps_completed := 3;
              total_steps := 3; confidence := 0.85; error_message := None |}
  | s => Some (failing s)
  end.

Lemma adaptive_cascade_scenario :
  let out :=
    execute_adaptive_with scenario_attempt "t"
      (analyze_task_complexity "orchestrate simultaneous complex work") 0 in
  fst out = [HYBRID; PARALLEL; SEQUENTIAL]
  /\ success (snd out) = true
  /\ strategy_used (snd out) = ADAPTIVE.
Proof.
  pose proof (adaptive_cascade scenario_attempt "t"
    (analyze_task_complexity "orchestrate simultaneous complex work") 0)
    as (Hs & _ & _ & H3 & _).
  destruct (H3 eq_refl eq_refl eq_refl) as (Ht & Hok & _).
  exact (conj Ht (conj Hok Hs)).
Defined.

(* ------------------------------------------------------------------ *)
(** ** What the analyzer scores *)
(* ------------------------------------------------------------------ *)

(** The twelve weights. *)
Definition weights : list Q := map snd complexity_keywords.

Lemma get_In {V} (k : string) (d : Py.dict V) (v : V) :
  Py.get k d = Some v -> In v (map snd d).
Proof.
  induction d as [|[k' v'] d IH]; cbn; [discriminate|].
  destruct (String.eqb k k'); [intros [= <-]; auto | auto].
Qed.

Lemma keyword_weight w : is_keyword w = true -> In (weight w) weights.
Proof.
  unfold is_keyword, Py.contains, weight, weights.
  destruct (Py.get w complexity_keywords) as [x|] eqn:E; [|discriminate].
  intros _. cbn [default]. apply (get_In E).
Qed.

Lemma weight_bounds w : 0 <= weight w /\ weight w <= 2.5.
Proof.
  assert (H : forallb (fun x => Py.le 0 x && Py.le x 2.5) (0 :: weights)
              = true) by (vm_compute; reflexivity).
  rewrite forallb_forall in H.
  assert (Hin : In (weight w) (0 :: weights)).
  { unfold weight. destruct (Py.get w complexity_keywords) as [x|] eqn:E.
    - right. apply (get_In E).
    - left. reflexivity. }
  apply H, andb_true_iff in Hin as [H0 H1].
  split; apply Py.le_iff; assumption.
Qed.

Lemma total_weight_nonneg ws q :
  0 <= q -> 0 <= fold_left (fun score w => Py.fadd score (weight w)) ws q.
Proof.
  revert q. induction ws as [|w ws IH]; intros q Hq; [exact Hq|].
  cbn [fold_left]. apply IH. unfold Py.fadd. apply Py.float_nonneg.
  destruct (weight_bounds w) as [Hw _]. lra.
Qed.

(** Halves of integers up to [2 ^ 53] are binary64 numbers. *)
Lemma half_is_float n :
  (Z.abs n <= 2 ^ 53)%Z -> Py.float (inject_Z n * (1 # 2)) == inject_Z n * (1 # 2).
Proof. intros H. apply (Py.float_exact n (-1)); [exact H | lia]. Qed.

Lemma total_weight_upper ws k q :
  (0 <= k)%Z -> (5 * (k + Z.of_nat (length ws)) <= 2 ^ 53)%Z ->
  q <= inject_Z (5 * k) * (1 # 2) ->
  fold_left (fun score w => Py.fadd score (weight w)) ws q
  <= inject_Z (5 * (k + Z.of_nat (length ws))) * (1 # 2).
Proof.
  revert k q. induction ws as [|w ws IH]; intros k q Hk Hn Hq.
  - cbn [fold_left length]. replace (k + Z.of_nat 0)%Z with k by lia.
    exact Hq.
  - cbn [fold_left length] in *.
    replace (k + Z.of_nat (S (length ws)))%Z
      with (k + 1 + Z.of_nat (length ws))%Z in * by lia.
    apply IH; [lia | exact Hn |].
    unfold Py.fadd. rewrite <- half_is_float by lia.
    apply Py.float_le_compat.
    destruct (weight_bounds w) as [_ Hw].
    replace (5 * (k + 1))%Z with (5 * k + 5)%Z by lia.
    rewrite inject_Z_plus. change (inject_Z 5) with 5. lra.
Qed.

Lemma keyword_score_nonneg d : 0 <= keyword_score d.
Proof.
  unfold keyword_score, total_weight.
  pose proof (@total_weight_nonneg (keyword_occurrences d) 0 (Qle_refl 0)) as H.
  destruct (lengthy d); [|exact H].
  unfold Py.fadd. apply Py.float_nonneg.
  set (total := fold_left _ _ _) in *. lra.
Qed.

Lemma keyword_score_is_float d : Py.is_float (keyword_score d).
Proof.
  unfold keyword_score, total_weight.
  destruct (lengthy d); [apply Py.is_float_float|].
  induction (keyword_occurrences d) as [|w ws IH] using rev_ind.
  - unfold Py.is_float. vm_compute. reflexivity.
  - rewrite fold_left_app. cbn [fold_left]. apply Py.is_float_float.
Qed.

(** [int] rounds a non-negative number down. *)
Lemma int_lower_bound (z : Z) (q : Q) :
  inject_Z z <= q -> (0 <= z)%Z -> (z <= Py.int q)%Z.
Proof.
  destruct q as [n d]. unfold Qle, Py.int. cbn. intros H Hz.
  apply Z.quot_le_lower_bound; lia.
Qed.

Lemma int_upper_bound (q : Q) : 0 <= q -> inject_Z (Py.int q) <= q.
Proof.
  destruct q as [n d]. unfold Qle, Py.int. cbn. intros H.
  rewrite Z.mul_1_r in *.
  rewrite Z.mul_comm. apply Z.mul_quot_le; lia.
Qed.

Lemma analyze_fields d :
  let a := analyze_task_complexity d in
  estimated_steps a = Z.max (Py.int (Py.fmul (complexity_score a) 2)) 3
  /\ estimated_time a = Py.fmul (complexity_score a) 10
  /\ recommended_strategy a = _recommend_strategy (complexity_level a).
Proof.
  cbv zeta. unfold analyze_task_complexity.
  destruct (scan_words _ _) as [score0 ind0].
  destruct (20 <? _)%nat; repeat split; reflexivity.
Qed.

(** X1. For every description with at most [2 ^ 50] keyword occurrences
    the score is not negative and is at most 2.5 per keyword occurrence
    plus 1. For every description the estimated number of steps is at
    least 3 and at most the larger of 3 and twice the score (doubling a
    float is exact), the estimated time is the float product of the score
    and 10, which is not negative, and the recommended strategy is the
    one the tier maps to. The product is rounded: for "analyze
    synthesize" the score is 3.4000000000000004 and the time 34.0. *)
Theorem analysis_bounds (d : string) :
  (Z.of_nat (length (keyword_occurrences d)) <= 2 ^ 50)%Z ->
  let a := analyze_task_complexity d in
  0 <= complexity_score a
  /\ complexity_score a
     <= 2.5 * inject_Z (Z.of_nat (length (keyword_occurrences d))) + 1
  /\ (3 <= estimated_steps a)%Z
  /\ (inject_Z (estimated_steps a) <= 3
      \/ inject_Z (estimated_steps a) <= complexity_score a * 2)
  /\ estimated_time a = Py.fmul (complexity_score a) 10
  /\ 0 <= estimated_time a
  /\ recommended_strategy a = _recommend_strategy (complexity_level a)
  /\ (let e := analyze_task_complexity "analyze synthesize" in
      estimated_time e == 34 /\ ~ complexity_score e * 10 == 34).
Proof.
  intros Hn a.
  destruct (analyze_spec d) as [_ Hscore]. fold a in Hscore.
  destruct (analyze_fields d) as (Hsteps & Htime & Hrec).
  fold a in Hsteps, Htime, Hrec.
  pose proof (@keyword_score_nonneg d) as Hpos. rewrite <- Hscore in Hpos.
  split; [exact Hpos|]. split.
  { rewrite Hscore. unfold keyword_score, total_weight.
    set (n := Z.of_nat (length (keyword_occurrences d))) in *.
    assert (Hup : fold_left (fun score w => Py.fadd score (weight w))
                    (keyword_occurrences d) 0
                  <= inject_Z (5 * (0 + n)) * (1 # 2)).
    { apply total_weight_upper; [lia | unfold n in *; lia |].
      vm_compute. discriminate. }
    replace (5 * (0 + n))%Z with (5 * n)%Z in Hup by lia.
    rewrite inject_Z_mult in Hup. change (inject_Z 5) with 5 in Hup.
    set (total := fold_left _ _ _) in *.
    destruct (lengthy d); [|lra].
    unfold Py.fadd.
    assert (E : 2.5 * inject_Z n + 1 == inject_Z (5 * n + 2) * (1 # 2)).
    { rewrite inject_Z_plus, inject_Z_mult.
      change (inject_Z 5) with 5. change (inject_Z 2) with 2. ring. }
    rewrite E, <- half_is_float by (unfold n in *; lia).
    apply Py.float_le_compat. rewrite <- E. lra. }
  split; [rewrite Hsteps; lia|]. split.
  { rewrite Hsteps.
    destruct (Z.max_spec (Py.int (Py.fmul (complexity_score a) 2)) 3)
      as [[_ ->]|[_ ->]].
    - left. apply Qle_refl.
    - right. unfold Py.fmul.
      pose proof (@keyword_score_is_float d) as Hf. rewrite <- Hscore in Hf.
      eapply Qle_trans; [apply int_upper_bound, Py.float_nonneg; lra|].
      pose proof (Py.is_float_double _ Hf) as Hd. lra. }
  split; [exact Htime|]. split.
  { rewrite Htime. unfold Py.fmul. apply Py.float_nonneg. lra. }
  split; [exact Hrec|]. cbv zeta.
  split; [vm_compute; reflexivity | vm_compute; discriminate].
Qed.

Lemma analysis_bounds_witness :
  let d := "analyze analyze simultaneous multiple"%string in
  let a := analyze_task_complexity d in
  0 <= complexity_score a
  /\ complexity_score a
     <= 2.5 * inject_Z (Z.of_nat (length (keyword_occurrences d))) + 1
  /\ (3 <= estimated_steps a)%Z
  /\ (inject_Z (estimated_steps a) <= 3
      \/ inject_Z (estimated_steps a) <= complexity_score a * 2)
  /\ estimated_time a = Py.fmul (complexity_score a) 10
  /\ 0 <= estimated_time a
  /\ recommended_strategy a = _recommend_strategy (complexity_level a)
  /\ (let e := analyze_task_complexity "analyze synthesize" in
      estimated_time e == 34 /\ ~ complexity_score e * 10 == 34).
Proof.
  apply (@analysis_bounds "analyze analyze simultaneous multiple").
  vm_compute. discriminate.
Defined.

(** X2. The indicators are exactly the keyword occurrences of the
    lower-cased description, in text order and with repetitions, followed
    by "lengthy_description" when it has more than 20 words; the score is
    the float sum of their weights, added in that order from 0.0, plus 1.0
    for a lengthy description. For "analyze analyze simultaneous multiple"
    that sum is just below 6.0, and 11 steps are estimated. *)
Theorem indicators_are_keyword_occurrences (d : string) :
  indicators (analyze_task_complexity d)
  = keyword_occurrences d
    ++ (if lengthy d then ["lengthy_description"%string] else [])
  /\ complexity_score (analyze_task_complexity d)
     = (let total :=
          fold_left (fun score w => Py.fadd score (weight w))
            (keyword_occurrences d) 0 in
        if lengthy d then Py.fadd total 1.0 else total)
  /\ Forall (fun w => exists x, Py.get w complexity_keywords = Some x)
       (keyword_occurrences d)
  /\ (let a :=
        analyze_task_complexity "analyze analyze simultaneous multiple" in
      complexity_score a == 6 - (1 # 2) ^ 50
      /\ estimated_steps a = 11%Z).
Proof.
  destruct (analyze_spec d) as [H1 H2].
  split; [exact H1|]. split; [exact H2|]. split.
  - unfold keyword_occurrences. apply List.Forall_forall. intros w Hw.
    apply filter_In in Hw as [_ Hw]. unfold is_keyword, Py.contains in Hw.
    destruct (Py.get w complexity_keywords) as [x|]; [eauto | discriminate].
  - split; vm_compute; reflexivity.
Qed.

Lemma no_occurrence_no_keyword d w :
  keyword_occurrences d = [] ->
  In w (Py.split (Py.lower d)) -> Py.get w complexity_keywords = None.
Proof.
  unfold keyword_occurrences. intros Hnone Hw.
  destruct (Py.get w complexity_keywords) as [x|] eqn:E; [|reflexivity].
  assert (Hin : In w (List.filter is_keyword (Py.split (Py.lower d)))).
  { apply filter_In. split; [exact Hw|].
    unfold is_keyword, Py.contains. rewrite E. reflexivity. }
  rewrite Hnone in Hin. destruct Hin.
Qed.

(** X3. A description without any complexity keyword, of whatever length,
    is SIMPLE: its score is 0, or 1.0 with the single indicator
    "lengthy_description" when it has more than 20 words; three steps are
    estimated and SEQUENTIAL is recommended. *)
Theorem keyword_free_is_simple (d : string) :
  keyword_occurrences d = [] ->
  let a := analyze_task_complexity d in
  complexity_level a = SIMPLE
  /\ complexity_score a = (if lengthy d then 1 else 0)
  /\ indicators a = (if lengthy d then ["lengthy_description"%string] else [])
  /\ estimated_steps a = 3%Z
  /\ recommended_strategy a = SEQUENTIAL.
Proof.
  intros Hnone. cbv zeta. unfold analyze_task_complexity, lengthy.
  rewrite (scan_words_no_keyword (0, [])
             (fun w => @no_occurrence_no_keyword d w Hnone)).
  destruct (20 <? _)%nat; repeat split; vm_compute; reflexivity.
Qed.

Lemma keyword_free_is_simple_witness :
  let d := ("Please go to the shop at the corner and buy me some bread and "
            ++ "milk and then come back home before it gets dark outside")%string in
  lengthy d = true
  /\ complexity_level (analyze_task_complexity d) = SIMPLE
  /\ complexity_score (analyze_task_complexity d) = 1
  /\ indicators (analyze_task_complexity d) = ["lengthy_description"%string]
  /\ estimated_steps (analyze_task_complexity d) = 3%Z
  /\ recommended_strategy (analyze_task_complexity d) = SEQUENTIAL.
Proof.
  split; [reflexivity|].
  apply (@keyword_free_is_simple
           ("Please go to the shop at the corner and buy me some bread and "
            ++ "milk and then come back home before it gets dark outside")).
  reflexivity.
Defined.

(** Up to two keywords: every float sum of one weight is at most 3.5 with
    the bonus, every float sum of two weights is at most 6.0 with it. *)
Lemma few_keywords_score d :
  (length (keyword_occurrences d) <= 2)%nat ->
  keyword_score d <= 6.0
  /\ ((length (keyword_occurrences d) <= 1)%nat -> keyword_score d <= 4.0).
Proof.
  assert (H0 : Py.le (Py.fadd 0 1.0) 4.0 = true) by (vm_compute; reflexivity).
  assert (H1 : forallb (fun x =>
                 Py.le (Py.fadd 0 x) 4.0
                 && Py.le (Py.fadd (Py.fadd 0 x) 1.0) 4.0) weights = true)
    by (vm_compute; reflexivity).
  assert (H2 : forallb (fun x => forallb (fun y =>
                 Py.le (Py.fadd (Py.fadd 0 x) y) 6.0
                 && Py.le (Py.fadd (Py.fadd (Py.fadd 0 x) y) 1.0) 6.0)
                 weights) weights = true)
    by (vm_compute; reflexivity).
  rewrite forallb_forall in H1, H2.
  assert (Hkw : Forall (fun w => In (weight w) weights)
                  (keyword_occurrences d)).
  { unfold keyword_occurrences. apply List.Forall_forall. intros w Hw.
    apply filter_In in Hw as [_ Hw]. apply keyword_weight, Hw. }
  unfold keyword_score, total_weight.
  destruct (keyword_occurrences d) as [|w1 [|w2 [|w3 ws]]];
    cbn [length fold_left]; intros Hlen; [| | |lia].
  - apply Py.le_iff in H0.
    split; [|intros _]; destruct (lengthy d); lra.
  - apply Forall_cons in Hkw as [Hw1 _].
    apply H1, andb_true_iff in Hw1 as [Ha Hb].
    apply Py.le_iff in Ha, Hb.
    split; [|intros _]; destruct (lengthy d); lra.
  - apply Forall_cons in Hkw as [Hw1 Hkw].
    apply Forall_cons in Hkw as [Hw2 _].
    apply H2 in Hw1. rewrite forallb_forall in Hw1.
    apply Hw1, andb_true_iff in Hw2 as [Ha Hb].
    apply Py.le_iff in Ha, Hb.
    split; [|intros Hone; lia]. destruct (lengthy d); assumption.
Qed.

(** X4. One keyword occurrence gives at most MODERATE, two give at most
    COMPLEX: VERY_COMPLEX needs at least three keyword occurrences. *)
Theorem very_complex_needs_three_keywords (d : string) :
  (length (keyword_occurrences d) <= 2)%nat ->
  let a := analyze_task_complexity d in
  complexity_level a <> VERY_COMPLEX
  /\ ((length (keyword_occurrences d) <= 1)%nat ->
      complexity_level a = SIMPLE \/ complexity_level a = MODERATE).
Proof.
  intros Hlen a. unfold a. rewrite analyze_level_of_score.
  destruct (analyze_spec d) as [_ ->].
  destruct (few_keywords_score Hlen) as [H6 H4].
  unfold level_of_score. split.
  - apply Py.le_iff in H6. rewrite H6.
    destruct (Py.le _ 2.0); [discriminate|].
    destruct (Py.le _ 4.0); discriminate.
  - intros H1. specialize (H4 H1). apply Py.le_iff in H4. rewrite H4.
    destruct (Py.le _ 2.0); [left | right]; reflexivity.
Qed.

Lemma very_complex_needs_three_keywords_witness :
  let d := "Orchestrate the rollout and optimize it"%string in
  complexity_level (analyze_task_complexity d) <> VERY_COMPLEX
  /\ ((length (keyword_occurrences d) <= 1)%nat ->
      complexity_level (analyze_task_complexity d) = SIMPLE
      \/ complexity_level (analyze_task_complexity d) = MODERATE).
Proof.
  apply (@very_complex_needs_three_keywords
           "Orchestrate the rollout and optimize it").
  vm_compute. lia.
Defined.

(* ------------------------------------------------------------------ *)
(** ** Strategy selection ([_select_execution_strategy]) *)
(* ------------------------------------------------------------------ *)

(** The optional strategy advisor [self._strategy_hint_source]: absent, or
    failing (the call or the reading of its answer raises, which the
    [except Exception: pass] swallows), or answering with a hint whose
    ["name"] entry is [name] ([None] when the key is missing or holds
    [None]). *)
Inductive Advisor :=
| NoAdvisor
| AdvisorRaises
| AdvisorHint (name : option string).

Definition strategy_names : Py.dict ExecutionStrategy :=
  [ ("SEQUENTIAL"%string, SEQUENTIAL); ("PARALLEL"%string, PARALLEL);
    ("HYBRID"%string, HYBRID); ("ADAPTIVE"%string, ADAPTIVE) ].

(** [mapping.get((hint.get("name") or "").upper(), ADAPTIVE)]. *)
Definition hinted_strategy (name : option string) : ExecutionStrategy :=
  default ADAPTIVE
    (Py.get (Py.upper (default EmptyString name)) strategy_names).

Definition _select_execution_strategy {V} (advisor : Advisor)
  (complexity_analysis : ComplexityAnalysis) (context : Py.dict V)
  : ExecutionStrategy :=
  match complexity_level complexity_analysis with
  | SIMPLE => SEQUENTIAL
  | MODERATE => if (3 <? length context)%nat then PARALLEL else SEQUENTIAL
  | COMPLEX => HYBRID
  | VERY_COMPLEX =>
      match advisor with
      | AdvisorHint name => hinted_strategy name
      | _ => ADAPTIVE
      end
  end.

(** X5. Without an advisor the strategy
    that is selected is the one the analysis recommends, except for a
    MODERATE task whose context has at most 3 entries, which runs
    SEQUENTIAL although PARALLEL is recommended. The advisor is consulted
    for VERY_COMPLEX tasks only; its hint is read without regard to letter
    case, and a failing advisor or a hint that names no strategy gives
    ADAPTIVE. *)
Theorem selection_against_recommendation :
  forall (V : Type) (d : string) (context : Py.dict V) (advisor : Advisor),
    let a := analyze_task_complexity d in
    _select_execution_strategy NoAdvisor a context
    = (if match complexity_level a with MODERATE => true | _ => false end
          && (length context <=? 3)%nat
       then SEQUENTIAL else recommended_strategy a)
    /\ (complexity_level a <> VERY_COMPLEX ->
        _select_execution_strategy advisor a context
        = _select_execution_strategy NoAdvisor a context)
    /\ (complexity_level a = VERY_COMPLEX ->
        _select_execution_strategy advisor a context
        = match advisor with
          | AdvisorHint name => hinted_strategy name
          | _ => ADAPTIVE
          end)
    /\ (forall name,
          hinted_strategy (Some (Py.lower name)) = hinted_strategy (Some name))
    /\ hinted_strategy None = ADAPTIVE.
Proof.
  intros V d context advisor a.
  assert (Hrec : recommended_strategy a = _recommend_strategy (complexity_level a)).
  { unfold a, analyze_task_complexity.
    destruct (scan_words _ _) as [score0 ind0].
    destruct (20 <? _)%nat; reflexivity. }
  rewrite Hrec. unfold _select_execution_strategy.
  split; [|split; [|split; [|split]]].
  - destruct (complexity_level a); cbn [_recommend_strategy andb];
      try reflexivity.
    destruct (Nat.ltb_spec 3 (length context)) as [H|H];
      destruct (Nat.leb_spec (length context) 3) as [H'|H'];
      try reflexivity; lia.
  - intros Hne. destruct (complexity_level a); try reflexivity.
    contradiction.
  - intros ->. reflexivity.
  - intros name. unfold hinted_strategy.
    change (default EmptyString (Some (Py.lower name))) with (Py.lower name).
    rewrite Py.upper_lower. reflexivity.
  - reflexivity.
Qed.

(* ------------------------------------------------------------------ *)
(** ** What the executors report *)
(* ------------------------------------------------------------------ *)

Section ExecutorFacts.

Variable hash : string -> Z.
Variable elapsed : ExecutionStrategy -> Q.

Lemma length_range n : Z.of_nat (length (range n)) = Z.max 0 n.
Proof. unfold range. rewrite length_seq. lia. Qed.

Lemma count_parallel_steps task_id steps :
  count_not_exception (map (_execute_parallel_step hash task_id) steps)
  = Z.of_nat (length steps).
Proof.
  unfold count_not_exception. f_equal.
  induction steps as [|step steps IH]; [reflexivity|].
  cbn [map]. rewrite filter_cons_True by exact I.
  cbn [length]. rewrite IH. reflexivity.
Qed.

Lemma parallel_report task_id ca :
  _execute_parallel hash elapsed task_id ca
  = {| task_id := task_id; success := true;
       execution_time := elapsed PARALLEL; strategy_used := PARALLEL;
       steps_completed := Z.max 0 (estimated_steps ca);
       total_steps := estimated_steps ca;
       confidence := 0.75; error_message := None |}.
Proof.
  unfold _execute_parallel.
  rewrite count_parallel_steps, length_range.
  assert (Hok : Py.ge (inject_Z (Z.max 0 (estimated_steps ca)))
                  (inject_Z (estimated_steps ca) * 0.7) = true).
  { unfold Py.ge. apply Qle_bool_iff. unfold Qle. cbn. lia. }
  cbv zeta. rewrite Hok. reflexivity.
Qed.

(** X6. [_execute_parallel] reports success whatever
    its steps return: a step that returns [False] is not an exception, so
    every step counts as completed and the 70% threshold is always met. *)
Theorem parallel_always_succeeds (task_id : string) (ca : ComplexityAnalysis) :
  let r := _execute_parallel hash elapsed task_id ca in
  success r = true
  /\ steps_completed r = Z.max 0 (estimated_steps ca)
  /\ total_steps r = estimated_steps ca
  /\ confidence r = 0.75
  /\ error_message r = None
  /\ strategy_used r = PARALLEL.
Proof. cbv zeta. rewrite parallel_report. repeat split; reflexivity. Qed.

Lemma hybrid_steps_lower task_id steps c :
  c + inject_Z (Z.of_nat (length steps)) <= hybrid_steps hash task_id steps c.
Proof.
  revert c. induction steps as [|step steps IH]; intros c.
  - cbn [hybrid_steps length]. rewrite Qplus_0_r. apply Qle_refl.
  - cbn [hybrid_steps length]. rewrite Nat2Z.inj_succ. unfold Z.succ.
    rewrite inject_Z_plus.
    eapply Qle_trans; [|apply IH].
    destruct (_ =? 0)%Z.
    + assert (E : c + (inject_Z (Z.of_nat (length steps)) + inject_Z 1)
                  + 0.5
                  == c + 1 + 0.5 + inject_Z (Z.of_nat (length steps)))
        by ring.
      rewrite <- E. rewrite <- (Qplus_0_r (c + _)) at 1.
      apply Qplus_le_compat; [apply Qle_refl | unfold Qle; cbn; lia].
    + assert (E : c + (inject_Z (Z.of_nat (length steps)) + inject_Z 1)
                  == c + 1 + inject_Z (Z.of_nat (length steps))) by ring.
      rewrite E. apply Qle_refl.
Qed.

(** The number of steps [_execute_hybrid] has counted before it decides. *)
Definition hybrid_completed (task_id : string) (ca : ComplexityAnalysis) : Q :=
  let total_steps := estimated_steps ca in
  let started :=
    0 + inject_Z
          (count_not_exception
             (map (_execute_parallel_step hash task_id)
                (range (Z.min 3 total_steps)))) in
  if (0 <? total_steps - 3)%Z
  then hybrid_steps hash task_id (range (total_steps - 3)) started
  else started.

Lemma hybrid_completed_lower task_id ca :
  inject_Z (Z.max 0 (estimated_steps ca)) <= hybrid_completed task_id ca.
Proof.
  unfold hybrid_completed. rewrite count_parallel_steps, length_range.
  destruct (Z.ltb_spec 0 (estimated_steps ca - 3)) as [H|H].
  - eapply Qle_trans; [|apply hybrid_steps_lower].
    rewrite length_range, Qplus_0_l, <- inject_Z_plus, <- Zle_Qle. lia.
  - rewrite Qplus_0_l, <- Zle_Qle. lia.
Qed.

Lemma hybrid_result task_id ca :
  _execute_hybrid hash elapsed task_id ca
  = let completed_steps := hybrid_completed task_id ca in
    let success :=
      Py.ge completed_steps (inject_Z (estimated_steps ca) * 0.6) in
    {| task_id := task_id; success := success;
       execution_time := elapsed HYBRID; strategy_used := HYBRID;
       steps_completed := Py.int completed_steps;
       total_steps := estimated_steps ca;
       confidence := if success then 0.85 else 0.5;
       error_message := None |}.
Proof. reflexivity. Qed.

Lemma hybrid_success task_id ca :
  success (_execute_hybrid hash elapsed task_id ca) = true.
Proof.
  rewrite hybrid_result. cbn [success]. unfold Py.ge. apply Qle_bool_iff.
  eapply Qle_trans; [|apply hybrid_completed_lower].
  unfold Qle. cbn. lia.
Qed.

(** X7. [_execute_hybrid] reports success whatever its
    steps return: the three initial steps and every remaining step are
    counted, so the 60% threshold is always met, and the number of steps it
    reports is at least the total. *)
Theorem hybrid_always_succeeds (task_id : string) (ca : ComplexityAnalysis) :
  let r := _execute_hybrid hash elapsed task_id ca in
  success r = true
  /\ (Z.max 0 (estimated_steps ca) <= steps_completed r)%Z
  /\ total_steps r = estimated_steps ca
  /\ confidence r = 0.85
  /\ error_message r = None
  /\ strategy_used r = HYBRID.
Proof.
  cbv zeta. pose proof (hybrid_success task_id ca) as Hok.
  rewrite hybrid_result in *. cbv zeta in *. cbn [success] in Hok.
  cbn [success steps_completed total_steps confidence error_message
       strategy_used].
  rewrite Hok. split; [reflexivity|]. split; [|repeat split; reflexivity].
  apply int_lower_bound; [apply hybrid_completed_lower | lia].
Qed.

Lemma adaptive_run task_id ca :
  _execute_adaptive hash elapsed task_id ca
  = ([HYBRID],
     set_strategy_used ADAPTIVE (_execute_hybrid hash elapsed task_id ca)).
Proof.
  unfold _execute_adaptive, execute_adaptive_with, strategies_to_try.
  cbn [adaptive_loop run_executor]. rewrite hybrid_success. reflexivity.
Qed.

(** X8. With the engine's own executors
    the adaptive cascade never gets past its first stage: only HYBRID is
    run, and its result, which reports success, is returned with
    [strategy_used = ADAPTIVE]. *)
Theorem adaptive_stops_at_hybrid (task_id : string) (ca : ComplexityAnalysis) :
  _execute_adaptive hash elapsed task_id ca
  = ([HYBRID],
     set_strategy_used ADAPTIVE (_execute_hybrid hash elapsed task_id ca))
  /\ success (snd (_execute_adaptive hash elapsed task_id ca)) = true.
Proof.
  rewrite adaptive_run. split; [reflexivity|].
  cbn [snd set_strategy_used success]. apply hybrid_success.
Qed.

(** The simulated failure test of [_execute_sequential] at [step]. *)
Definition fails_at (task_id : string) (step : nat) : bool :=
  (hash (task_id ++ Py.str_nat step) mod 10 =? 0)%Z.

Lemma sequential_steps_seq task_id a len c :
  match sequential_steps hash task_id (seq a len) c with
  | (c', None) =>
      c' = (c + Z.of_nat len)%Z
      /\ forall k, (a <= k < a + len)%nat -> (0 < k)%nat ->
                   fails_at task_id k = false
  | (c', Some e) =>
      exists k,
        (a <= k < a + len)%nat /\ (0 < k)%nat
        /\ fails_at task_id k = true
        /\ (forall j, (a <= j < k)%nat -> (0 < j)%nat ->
                      fails_at task_id j = false)
        /\ c' = (c + Z.of_nat (k - a) + 1)%Z
        /\ e = ("Simulated failure at step " ++ Py.str_nat (k + 1))%string
  end.
Proof.
  revert a c. induction len as [|len IH]; intros a c.
  - cbn [seq sequential_steps]. split; [lia|]. intros k Hk. lia.
  - cbn [seq sequential_steps].
    destruct (Nat.ltb_spec 0 a) as [Ha|Ha]; cbn [andb].
    + fold (fails_at task_id a).
      destruct (fails_at task_id a) eqn:Ef.
      * exists a. split; [lia|]. split; [lia|]. split; [exact Ef|].
        split; [intros j Hj; lia|]. split; [lia | reflexivity].
      * specialize (IH (S a) (c + 1)%Z).
        destruct (sequential_steps hash task_id (seq (S a) len) (c + 1))
          as [c' [e|]].
        -- destruct IH as (k & Hk & Hk0 & Hf & Hbefore & Hc & He).
           exists k. split; [lia|]. split; [lia|]. split; [exact Hf|].
           split; [|split; [lia | exact He]].
           intros j Hj Hj0. destruct (decide (j = a)) as [->|Hne];
             [exact Ef | apply Hbefore; lia].
        -- destruct IH as [Hc Hall]. split; [lia|].
           intros k Hk Hk0. destruct (decide (k = a)) as [->|Hne];
             [exact Ef | apply Hall; lia].
    + specialize (IH (S a) (c + 1)%Z).
      destruct (sequential_steps hash task_id (seq (S a) len) (c + 1))
        as [c' [e|]].
      * destruct IH as (k & Hk & Hk0 & Hf & Hbefore & Hc & He).
        exists k. split; [lia|]. split; [lia|]. split; [exact Hf|].
        split; [|split; [lia | exact He]].
        intros j Hj Hj0. apply Hbefore; lia.
      * destruct IH as [Hc Hall]. split; [lia|].
        intros k Hk Hk0. apply Hall; lia.
Qed.

(** X9. [_execute_sequential] stops at the first step
    after the first one whose simulated test fails. When no such step
    exists it reports success with every step completed; otherwise it
    reports failure, the failing step is counted as completed (so at least
    2 steps are), and the message names that step counting from 1. The
    first step never fails. *)
Theorem sequential_stops_at_first_failure (task_id : string)
  (ca : ComplexityAnalysis) :
  let r := _execute_sequential hash elapsed task_id ca in
  let n := Z.to_nat (estimated_steps ca) in
  total_steps r = estimated_steps ca
  /\ strategy_used r = SEQUENTIAL
  /\ if success r
     then (forall k, (0 < k < n)%nat -> fails_at task_id k = false)
          /\ steps_completed r = Z.of_nat n
          /\ error_message r = None
          /\ confidence r = 0.85
     else exists k,
          (0 < k < n)%nat
          /\ fails_at task_id k = true
          /\ (forall j, (0 < j < k)%nat -> fails_at task_id j = false)
          /\ steps_completed r = (Z.of_nat k + 1)%Z
          /\ (2 <= steps_completed r <= Z.of_nat n)%Z
          /\ error_message r
             = Some ("Simulated failure at step " ++ Py.str_nat (k + 1))%string
          /\ confidence r = 0.3.
Proof.
  cbv zeta. unfold _execute_sequential, range.
  pose proof (sequential_steps_seq task_id 0 (Z.to_nat (estimated_steps ca)) 0)
    as H.
  destruct (sequential_steps hash task_id
              (seq 0 (Z.to_nat (estimated_steps ca))) 0) as [c' [e|]];
    cbn [success total_steps strategy_used steps_completed error_message
         confidence].
  - do 2 (split; [reflexivity|]).
    destruct H as (k & Hk & Hk0 & Hf & Hbefore & Hc & He).
    exists k. split; [lia|]. split; [exact Hf|].
    split; [intros j Hj; apply Hbefore; lia|].
    split; [lia|]. split; [lia|]. split; [rewrite He; reflexivity|].
    reflexivity.
  - do 2 (split; [reflexivity|]). destruct H as [Hc Hall].
    split; [intros k Hk; apply Hall; lia|].
    split; [lia|]. split; reflexivity.
Qed.

Lemma hybrid_steps_retried task_id steps c :
  (forall step, In step steps ->
     (hash (task_id ++ Py.str_nat step) mod 8 =? 0)%Z = true) ->
  c + 1.5 * inject_Z (Z.of_nat (length steps))
  <= hybrid_steps hash task_id steps c.
Proof.
  revert c. induction steps as [|step steps IH]; intros c Hall.
  - cbn [hybrid_steps length]. unfold Qle. cbn. lia.
  - cbn [hybrid_steps length]. rewrite (Hall step (or_introl eq_refl)).
    rewrite Nat2Z.inj_succ. unfold Z.succ. rewrite inject_Z_plus.
    eapply Qle_trans; [|apply IH; intros st Hst; apply Hall; right; exact Hst].
    assert (E : c + 1.5 * (inject_Z (Z.of_nat (length steps)) + inject_Z 1)
                == c + 1 + 0.5 + 1.5 * inject_Z (Z.of_nat (length steps)))
      by ring.
    rewrite E. apply Qle_refl.
Qed.

(** X10. When the simulated retry test holds at every step of the
    sequential phase, a hybrid run of at least 5 steps reports success
    with more completed steps than there are steps: every retried step
    counts one and a half. *)
Theorem hybrid_reports_more_steps_than_total (task_id : string)
  (ca : ComplexityAnalysis) :
  (5 <= estimated_steps ca)%Z ->
  (forall step, (step < Z.to_nat (estimated_steps ca - 3))%nat ->
     (hash (task_id ++ Py.str_nat step) mod 8 =? 0)%Z = true) ->
  let r := _execute_hybrid hash elapsed task_id ca in
  success r = true
  /\ (total_steps r < steps_completed r)%Z.
Proof.
  intros Hn Hretry. cbv zeta. split; [apply hybrid_success|].
  rewrite hybrid_result. cbn [total_steps steps_completed].
  assert (Hlow : inject_Z (estimated_steps ca + 1)
                 <= hybrid_completed task_id ca).
  { unfold hybrid_completed. rewrite count_parallel_steps, length_range.
    destruct (Z.ltb_spec 0 (estimated_steps ca - 3)) as [H|H]; [|lia].
    eapply Qle_trans;
      [|apply hybrid_steps_retried; intros step Hin; apply Hretry;
        unfold range in Hin; apply in_seq in Hin; lia].
    rewrite length_range.
    replace (Z.max 0 (Z.min 3 (estimated_steps ca))) with 3%Z by lia.
    replace (Z.max 0 (estimated_steps ca - 3)) with (estimated_steps ca - 3)%Z
      by lia.
    unfold Qle. cbn. lia. }
  apply int_lower_bound in Hlow; lia.
Qed.

End ExecutorFacts.

Lemma hybrid_reports_more_steps_than_total_witness :
  let ca := analyze_task_complexity "orchestrate simultaneous complex work" in
  let r := _execute_hybrid (fun _ => 0%Z) (fun _ => 0) "t" ca in
  success r = true /\ (total_steps r < steps_completed r)%Z.
Proof.
  apply (@hybrid_reports_more_steps_than_total (fun _ => 0%Z) (fun _ => 0) "t"
           (analyze_task_complexity "orchestrate simultaneous complex work")).
  - vm_compute. discriminate.
  - intros step _. reflexivity.
Defined.

(* ------------------------------------------------------------------ *)
(** ** The engine object ([CoAct1AutomationEngine])

    The part of the engine state that [execute_task] and the metrics read
    and write. [strategy_stats] is a dictionary whose keys are the four
    strategies, from construction on; it is a function on them.
    [_strategy_hint_source] tells whether the advisor object is there. *)
(* ------------------------------------------------------------------ *)

Module AutomationTask.
Record t := { task_id : string; description : string }.
End AutomationTask.

Record StrategyStats := { stat_used : Z; stat_success : Z }.

(** The entries of [success_patterns] and [failure_patterns]. *)
Inductive Pattern :=
| SuccessPattern (level : TaskComplexity) (strategy : ExecutionStrategy)
    (execution_time confidence : Q)
| FailurePattern (level : TaskComplexity) (strategy : ExecutionStrategy)
    (error : option string).

Record CoAct1AutomationEngine := {
  is_initialized : bool;
  terminalbench_enabled : bool;
  _strategy_hint_source : bool;
  total_tasks : Z;
  successful_tasks : Z;
  current_success_rate : Q;
  strategy_stats : ExecutionStrategy -> StrategyStats;
  success_patterns : Py.dict Pattern;
  failure_patterns : Py.dict Pattern;
  active_tasks : Py.dict (Py.dict bool) }.

Definition __init__ : CoAct1AutomationEngine :=
  {| is_initialized := false; terminalbench_enabled := false;
     _strategy_hint_source := false; total_tasks := 0; successful_tasks := 0;
     current_success_rate := 0.0;
     strategy_stats := fun _ => {| stat_used := 0; stat_success := 0 |};
     success_patterns := []; failure_patterns := []; active_tasks := [] |}.

Definition with_total_tasks (v : Z) (e : CoAct1AutomationEngine)
  : CoAct1AutomationEngine :=
  {| is_initialized := is_initialized e;
     terminalbench_enabled := terminalbench_enabled e;
     _strategy_hint_source := _strategy_hint_source e;
     total_tasks := v; successful_tasks := successful_tasks e;
     current_success_rate := current_success_rate e;
     strategy_stats := strategy_stats e;
     success_patterns := success_patterns e;
     failure_patterns := failure_patterns e; active_tasks := active_tasks e |}.

Definition with_successful_tasks (v : Z) (e : CoAct1AutomationEngine)
  : CoAct1AutomationEngine :=
  {| is_initialized := is_initialized e;
     terminalbench_enabled := terminalbench_enabled e;
     _strategy_hint_source := _strategy_hint_source e;
     total_tasks := total_tasks e; successful_tasks := v;
     current_success_rate := current_success_rate e;
     strategy_stats := strategy_stats e;
     success_patterns := success_patterns e;
     failure_patterns := failure_patterns e; active_tasks := active_tasks e |}.

Definition with_current_success_rate (v : Q) (e : CoAct1AutomationEngine)
  : CoAct1AutomationEngine :=
  {| is_initialized := is_initialized e;
     terminalbench_enabled := terminalbench_enabled e;
     _strategy_hint_source := _strategy_hint_source e;
     total_tasks := total_tasks e; successful_tasks := successful_tasks e;
     current_success_rate := v;
     strategy_stats := strategy_stats e;
     success_patterns := success_patterns e;
     failure_patterns := failure_patterns e; active_tasks := active_tasks e |}.

Definition with_strategy_stats (v : ExecutionStrategy -> StrategyStats)
  (e : CoAct1AutomationEngine) : CoAct1AutomationEngine :=
  {| is_initialized := is_initialized e;
     terminalbench_enabled := terminalbench_enabled e;
     _strategy_hint_source := _strategy_hint_source e;
     total_tasks := total_tasks e; successful_tasks := successful_tasks e;
     current_success_rate := current_success_rate e;
     strategy_stats := v;
     success_patterns := success_patterns e;
     failure_patterns := failure_patterns e; active_tasks := active_tasks e |}.

Definition with_success_patterns (v : Py.dict Pattern)
  (e : CoAct1AutomationEngine) : CoAct1AutomationEngine :=
  {| is_initialized := is_initialized e;
     terminalbench_enabled := terminalbench_enabled e;
     _strategy_hint_source := _strategy_hint_source e;
     total_tasks := total_tasks e; successful_tasks := successful_tasks e;
     current_success_rate := current_success_rate e;
     strategy_stats := strategy_stats e;
     success_patterns := v;
     failure_patterns := failure_patterns e; active_tasks := active_tasks e |}.

Definition with_failure_patterns (v : Py.dict Pattern)
  (e : CoAct1AutomationEngine) : CoAct1AutomationEngine :=
  {| is_initialized := is_initialized e;
     terminalbench_enabled := terminalbench_enabled e;
     _strategy_hint_source := _strategy_hint_source e;
     total_tasks := total_tasks e; successful_tasks := successful_tasks e;
     current_success_rate := current_success_rate e;
     strategy_stats := strategy_stats e;
     success_patterns := success_patterns e;
     failure_patterns := v; active_tasks := active_tasks e |}.

Definition with_active_tasks (v : Py.dict (Py.dict bool))
  (e : CoAct1AutomationEngine) : CoAct1AutomationEngine :=
  {| is_initialized := is_initialized e;
     terminalbench_enabled := terminalbench_enabled e;
     _strategy_hint_source := _strategy_hint_source e;
     total_tasks := total_tasks e; successful_tasks := successful_tasks e;
     current_success_rate := current_success_rate e;
     strategy_stats := strategy_stats e;
     success_patterns := success_patterns e;
     failure_patterns := failure_patterns e; active_tasks := v |}.

Definition strategy_eqb (a b : ExecutionStrategy) : bool :=
  match a, b with
  | SEQUENTIAL, SEQUENTIAL | PARALLEL, PARALLEL
  | HYBRID, HYBRID | ADAPTIVE, ADAPTIVE => true
  | _, _ => false
  end.

(** [self.strategy_stats[strategy][...] += ...]. *)
Definition update_stats (strategy : ExecutionStrategy)
  (f : StrategyStats -> StrategyStats) (e : CoAct1AutomationEngine)
  : CoAct1AutomationEngine :=
  with_strategy_stats
    (fun s => if strategy_eqb strategy s
              then f (strategy_stats e s) else strategy_stats e s) e.

Definition add_used (d : Z) (st : StrategyStats) : StrategyStats :=
  {| stat_used := stat_used st + d; stat_success := stat_success st |}.

Definition add_success (d : Z) (st : StrategyStats) : StrategyStats :=
  {| stat_used := stat_used st; stat_success := stat_success st + d |}.

(** What [initialize] finds: whether the TerminalBench module could be
    imported, the configuration attribute [terminalbench_enabled] (absent:
    [None]), whether the integration object could be built, and whether
    the advisor could be built and initialized. *)
Record Startup := {
  terminalbench_available : bool;
  terminalbench_setting : option bool;
  terminalbench_builds : bool;
  advisor_starts : bool }.

Definition initialize (u : Startup) (e : CoAct1AutomationEngine)
  : CoAct1AutomationEngine :=
  {| is_initialized := true;
     terminalbench_enabled :=
       if terminalbench_available u
       then if default true (terminalbench_setting u)
            then terminalbench_builds u
            else terminalbench_enabled e
       else terminalbench_enabled e;
     _strategy_hint_source := advisor_starts u;
     total_tasks := total_tasks e; successful_tasks := successful_tasks e;
     current_success_rate := current_success_rate e;
     strategy_stats := strategy_stats e;
     success_patterns := success_patterns e;
     failure_patterns := failure_patterns e; active_tasks := active_tasks e |}.

(** The entries of the TerminalBench answer that are read, an absent one
    being [None]; the two lengths are those of the lists that the chained
    [.get] calls reach (0 when a key is missing). *)
Record TerminalBenchResult := {
  tb_success : option bool;
  tb_elapsed_time : option Q;
  tb_results : nat;
  tb_steps : nat;
  tb_confidence : option Q }.

(** What surrounds one call of [execute_task]: the string hash and the
    clocks of the executors, the configuration flag [learning_enabled],
    what the advisor answers when asked ([None]: it raises), what the
    TerminalBench run gives ([None]: it raises), what [initialize] finds
    if it has to run, and how many iterations the background processor
    makes while the call is suspended. *)
Record Surroundings := {
  hash : string -> Z;
  elapsed : ExecutionStrategy -> Q;
  learning_enabled : bool;
  advisor_answer : option (option string);
  terminalbench : option TerminalBenchResult;
  startup : Startup;
  background_turns : nat }.

Definition advisor_of (w : Surroundings) (e : CoAct1AutomationEngine)
  : Advisor :=
  if _strategy_hint_source e
  then match advisor_answer w with
       | Some name => AdvisorHint name
       | None => AdvisorRaises
       end
  else NoAdvisor.

Definition coding_keywords : list string :=
  [ "code"; "coding"; "program"; "script"; "terminal";
    "command"; "automation"; "test"; "debug"; "deploy" ]%string.

Definition _should_use_terminalbench (task : AutomationTask.t)
  (complexity_analysis : ComplexityAnalysis) : bool :=
  let description_lower := Py.lower (AutomationTask.description task) in
  let is_coding_task :=
    existsb (fun keyword => Py.str_contains keyword description_lower)
      coding_keywords in
  let is_complex :=
    match complexity_level complexity_analysis with
    | COMPLEX | VERY_COMPLEX => true
    | _ => false
    end in
  is_coding_task || is_complex.

(** [self.strategies], as [_initialize_strategies] fills it: what calling
    the executor of [strategy] gives, [inr msg] standing for an exception
    [e] with [str(e) = msg]. The four executors always return. *)
Definition strategies (w : Surroundings) (strategy : ExecutionStrategy)
  (task : AutomationTask.t) (complexity_analysis : ComplexityAnalysis)
  : CoActResult + string :=
  let task_id := AutomationTask.task_id task in
  match strategy with
  | SEQUENTIAL =>
      inl (_execute_sequential (hash w) (elapsed w) task_id complexity_analysis)
  | PARALLEL =>
      inl (_execute_parallel (hash w) (elapsed w) task_id complexity_analysis)
  | HYBRID =>
      inl (_execute_hybrid (hash w) (elapsed w) task_id complexity_analysis)
  | ADAPTIVE =>
      inl (snd (_execute_adaptive (hash w) (elapsed w) task_id
                  complexity_analysis))
  end.

Definition _execute_with_strategy (w : Surroundings)
  (task : AutomationTask.t) (strategy : ExecutionStrategy)
  (complexity_analysis : ComplexityAnalysis) (e : CoAct1AutomationEngine)
  : CoAct1AutomationEngine * CoActResult :=
  let e := update_stats strategy (add_used 1) e in
  match strategies w strategy task complexity_analysis with
  | inl result =>
      (if success result then update_stats strategy (add_success 1) e else e,
       result)
  | inr msg =>
      (e,
       {| task_id := AutomationTask.task_id task; success := false;
          execution_time := 0.0; strategy_used := strategy;
          steps_completed := 0;
          total_steps := estimated_steps complexity_analysis;
          confidence := 0.0; error_message := Some msg |})
  end.

(** The two statements [strategy = await self._select_execution_strategy]
    and [await self._execute_with_strategy], which [execute_task] and the
    fallback of [_execute_with_terminalbench] both run. *)
Definition select_and_execute {V} (w : Surroundings)
  (task : AutomationTask.t) (context : Py.dict V)
  (complexity_analysis : ComplexityAnalysis) (e : CoAct1AutomationEngine)
  : CoAct1AutomationEngine * CoActResult :=
  let strategy :=
    _select_execution_strategy (advisor_of w e) complexity_analysis context in
  _execute_with_strategy w task strategy complexity_analysis e.

Definition _execute_with_terminalbench {V} (w : Surroundings)
  (task : AutomationTask.t) (context : Py.dict V)
  (complexity_analysis : ComplexityAnalysis) (e : CoAct1AutomationEngine)
  : CoAct1AutomationEngine * CoActResult :=
  match terminalbench w with
  | Some tb_result =>
      (e,
       {| task_id := AutomationTask.task_id task;
          success := default false (tb_success tb_result);
          execution_time := default 0.0 (tb_elapsed_time tb_result);
          strategy_used := ADAPTIVE;
          steps_completed := Z.of_nat (tb_results tb_result);
          total_steps := Z.of_nat (tb_steps tb_result);
          confidence := default 0.5 (tb_confidence tb_result);
          error_message := None |})
  | None => select_and_execute w task context complexity_analysis e
  end.

Definition _update_learning_system (w : Surroundings)
  (task : AutomationTask.t) (result : CoActResult)
  (complexity_analysis : ComplexityAnalysis) (e : CoAct1AutomationEngine)
  : CoAct1AutomationEngine :=
  if learning_enabled w
  then
    if success result
    then with_success_patterns
           (Py.set (AutomationTask.task_id task)
              (SuccessPattern (complexity_level complexity_analysis)
                 (strategy_used result) (execution_time result)
                 (confidence result))
              (success_patterns e)) e
    else with_failure_patterns
           (Py.set (AutomationTask.task_id task)
              (FailurePattern (complexity_level complexity_analysis)
                 (strategy_used result) (error_message result))
              (failure_patterns e)) e
  else e.

(** [_update_metrics]; the execution time it is given is not used. *)
Definition _update_metrics (success : bool) (strategy : ExecutionStrategy)
  (e : CoAct1AutomationEngine) : CoAct1AutomationEngine :=
  let e :=
    if success then with_successful_tasks (successful_tasks e + 1) e else e in
  if success then update_stats strategy (add_success 1) e else e.

Definition _calculate_success_rate (e : CoAct1AutomationEngine)
  : CoAct1AutomationEngine :=
  if (0 <? total_tasks e)%Z
  then with_current_success_rate
         (inject_Z (successful_tasks e) / inject_Z (total_tasks e)) e
  else e.

Definition get_success_rate (e : CoAct1AutomationEngine) : Q :=
  current_success_rate e.

(** [_cleanup_completed_tasks]: the keys whose entry has a true
    ["completed"] are collected, then deleted one by one. *)
Definition is_completed (task_info : Py.dict bool) : bool :=
  default false (Py.get "completed" task_info).

Definition _cleanup_completed_tasks (e : CoAct1AutomationEngine)
  : CoAct1AutomationEngine :=
  let completed_tasks :=
    map fst (List.filter (fun kv => is_completed (snd kv)) (active_tasks e)) in
  with_active_tasks
    (fold_left (fun d task_id => Py.del task_id d) completed_tasks
       (active_tasks e)) e.

(** One iteration of the loop of [_background_processor], the coroutine
    that [initialize] starts: nothing in the engine puts anything on
    [task_queue], so the iteration cleans [active_tasks] and refreshes the
    success rate, then sleeps. *)
Definition _background_processor_iteration (e : CoAct1AutomationEngine)
  : CoAct1AutomationEngine :=
  _calculate_success_rate (_cleanup_completed_tasks e).

(** [execute_task], one call at a time. Its [try] body cannot raise: the
    executors report their failures in their results and
    [_execute_with_strategy] catches what they raise, so the result is
    always returned. The call is suspended only between [total_tasks += 1]
    and the synchronous [_update_metrics], in the TerminalBench run, the
    advisor and the executors. The background processor may run there; it
    reads [total_tasks] and [successful_tasks], which the call does not
    write in between, and writes [active_tasks] and
    [current_success_rate], which the call never reads, so its iterations
    are placed right after [total_tasks += 1]. *)
Definition execute_task {V} (w : Surroundings) (task : AutomationTask.t)
  (context : Py.dict V) (e : CoAct1AutomationEngine)
  : CoAct1AutomationEngine * CoActResult :=
  let e := if is_initialized e then e else initialize (startup w) e in
  let e := with_total_tasks (total_tasks e + 1) e in
  let e := Nat.iter (background_turns w) _background_processor_iteration e in
  let complexity_analysis :=
    analyze_task_complexity (AutomationTask.description task) in
  let use_terminalbench :=
    terminalbench_enabled e
    && _should_use_terminalbench task complexity_analysis in
  let '(e, result) :=
    if use_terminalbench
    then _execute_with_terminalbench w task context complexity_analysis e
    else select_and_execute w task context complexity_analysis e in
  let e := _update_learning_system w task result complexity_analysis e in
  let e := _update_metrics (success result) (strategy_used result) e in
  (e, result).

(** [get_performance_metrics]: per strategy, in the order of the
    dictionary, the counts and [success / max(used, 1)]. *)
Record PerformanceMetrics := {
  pm_total_tasks : Z;
  pm_successful_tasks : Z;
  pm_current_success_rate : Q;
  pm_target_success_rate : Q;
  pm_strategy_stats : list (ExecutionStrategy * (Z * Z * Q));
  pm_active_tasks : nat;
  pm_learning_patterns : nat;
  pm_is_initialized : bool }.

Definition success_rate (st : StrategyStats) : Q :=
  inject_Z (stat_success st) / inject_Z (Z.max (stat_used st) 1).

Definition get_performance_metrics (e : CoAct1AutomationEngine)
  : PerformanceMetrics :=
  {| pm_total_tasks := total_tasks e;
     pm_successful_tasks := successful_tasks e;
     pm_current_success_rate := current_success_rate e;
     pm_target_success_rate := 0.6076;
     pm_strategy_stats :=
       map (fun s => (s, (stat_used (strategy_stats e s),
                          stat_success (strategy_stats e s),
                          success_rate (strategy_stats e s))))
         [SEQUENTIAL; PARALLEL; HYBRID; ADAPTIVE];
     pm_active_tasks := length (active_tasks e);
     pm_learning_patterns := length (success_patterns e);
     pm_is_initialized := is_initialized e |}.

(* ------------------------------------------------------------------ *)
(** ** What the engine does with a task *)
(* ------------------------------------------------------------------ *)

(** X11. A task goes to TerminalBench as soon as one of
    the coding keywords occurs anywhere in its description, inside a
    longer word and in any letter case (the test is a substring test on
    the lower-cased text), and also whenever its tier is COMPLEX or
    VERY_COMPLEX, whatever the description says. *)
Theorem coding_keyword_anywhere (task_id pre word post : string)
  (ca : ComplexityAnalysis) :
  In (Py.lower word) coding_keywords
  \/ complexity_level ca = COMPLEX \/ complexity_level ca = VERY_COMPLEX ->
  _should_use_terminalbench
    {| AutomationTask.task_id := task_id;
       AutomationTask.description := (pre ++ word ++ post)%string |} ca
  = true.
Proof.
  intros H. unfold _should_use_terminalbench.
  cbn [AutomationTask.description].
  destruct H as [Hin|[->| ->]]; [|apply orb_true_r..].
  apply orb_true_iff. left. apply existsb_exists.
  exists (Py.lower word). split; [exact Hin|].
  rewrite !Py.lower_app. apply Py.str_contains_app.
Qed.

Lemma coding_keyword_anywhere_witness :
  _should_use_terminalbench
    {| AutomationTask.task_id := "t";
       AutomationTask.description := "Enter the CONTEST today" |}
    (analyze_task_complexity "Enter the CONTEST today")
  = true.
Proof.
  apply (@coding_keyword_anywhere "t" "Enter the CON" "TEST" " today"
           (analyze_task_complexity "Enter the CONTEST today")).
  left. vm_compute. tauto.
Defined.

Lemma strategy_eqb_eq a b : strategy_eqb a b = true <-> a = b.
Proof. destruct a, b; cbn; split; congruence. Qed.

Lemma strategy_eqb_refl a : strategy_eqb a a = true.
Proof. destruct a; reflexivity. Qed.

(** The background processor writes [active_tasks] and
    [current_success_rate] only. *)
Lemma background_turns_shape n e :
  exists rate tasks,
    Nat.iter n _background_processor_iteration e
    = with_current_success_rate rate (with_active_tasks tasks e).
Proof.
  induction n as [|n (rate & tasks & IH)].
  - exists (current_success_rate e), (active_tasks e). destruct e; reflexivity.
  - rewrite Nat.iter_succ, IH.
    unfold _background_processor_iteration, _cleanup_completed_tasks,
      _calculate_success_rate.
    cbn [total_tasks with_active_tasks with_current_success_rate].
    destruct (0 <? total_tasks e)%Z; eexists _, _; reflexivity.
Qed.

(** The executors of the engine return, under their own name, and all but
    the sequential one report success. *)
Lemma strategies_return w strategy task ca :
  exists result,
    strategies w strategy task ca = inl result
    /\ strategy_used result = strategy
    /\ (strategy <> SEQUENTIAL -> success result = true).
Proof.
  destruct strategy; cbn [strategies]; eexists; (split; [reflexivity|]).
  - split; [|intros H; contradiction].
    unfold _execute_sequential.
    destruct (sequential_steps _ _ _ _) as [c [e|]]; reflexivity.
  - rewrite parallel_report. split; reflexivity.
  - split; [reflexivity | intros _; apply hybrid_success].
  - rewrite adaptive_run. cbn [snd set_strategy_used strategy_used success].
    split; [reflexivity | intros _; apply hybrid_success].
Qed.

(** The engine after one task that does not go to TerminalBench. *)
Definition counted (strategy : ExecutionStrategy) (ok : bool)
  (st : StrategyStats) : StrategyStats :=
  {| stat_used := stat_used st + 1;
     stat_success := stat_success st + (if ok then 2 else 0) |}.

Lemma execute_task_standard {V} w task (context : Py.dict V) e :
  is_initialized e = true -> terminalbench_enabled e = false ->
  let ca := analyze_task_complexity (AutomationTask.description task) in
  let strategy := _select_execution_strategy (advisor_of w e) ca context in
  exists result,
    strategies w strategy task ca = inl result
    /\ snd (execute_task w task context e) = result
    /\ strategy_used result = strategy
    /\ (strategy <> SEQUENTIAL -> success result = true)
    /\ let e' := fst (execute_task w task context e) in
       total_tasks e' = (total_tasks e + 1)%Z
       /\ successful_tasks e'
          = (successful_tasks e + (if success result then 1 else 0))%Z
       /\ (forall s,
             strategy_stats e' s
             = if strategy_eqb strategy s
               then counted strategy (success result) (strategy_stats e s)
               else strategy_stats e s)
       /\ is_initialized e' = true
       /\ terminalbench_enabled e' = false.
Proof.
  intros Hinit Htb ca strategy.
  destruct (strategies_return w strategy task ca) as (result & Hr & Hs & Hok).
  exists result. split; [exact Hr|].
  unfold execute_task. rewrite Hinit. cbv zeta.
  destruct (background_turns_shape (background_turns w)
              (with_total_tasks (total_tasks e + 1) e))
    as (rate & tasks & ->).
  cbn [terminalbench_enabled with_total_tasks with_current_success_rate
       with_active_tasks].
  rewrite Htb. cbn [andb].
  unfold select_and_execute, _execute_with_strategy.
  change (advisor_of w
            (with_current_success_rate rate
               (with_active_tasks tasks
                  (with_total_tasks (total_tasks e + 1) e))))
    with (advisor_of w e).
  fold ca. fold strategy. rewrite Hr. cbn [fst snd].
  split; [reflexivity|]. split; [exact Hs|]. split; [exact Hok|].
  rewrite Hs. unfold _update_learning_system, _update_metrics.
  destruct (success result); destruct (learning_enabled w);
    cbn; (split; [reflexivity|]); (split; [lia|]);
    (split; [|split; [exact Hinit | exact Htb]]);
    intros s; rewrite ?strategy_eqb_refl; unfold counted;
    destruct (strategy_eqb strategy s); cbn; try reflexivity;
    unfold add_success, add_used; cbn; f_equal; lia.
Qed.

(** On an initialized engine without
    TerminalBench, a task runs the selected strategy and the statistics of
    that strategy are updated by both [_execute_with_strategy] and
    [_update_metrics]: its [used] count grows by 1 and, when the run
    succeeds, its [success] count grows by 2, while [successful_tasks]
    grows by 1. The statistics of the other strategies do not change. *)
Theorem success_is_counted_twice {V} (w : Surroundings)
  (task : AutomationTask.t) (context : Py.dict V)
  (e : CoAct1AutomationEngine) :
  is_initialized e = true -> terminalbench_enabled e = false ->
  let strategy :=
    _select_execution_strategy (advisor_of w e)
      (analyze_task_complexity (AutomationTask.description task)) context in
  let e' := fst (execute_task w task context e) in
  let result := snd (execute_task w task context e) in
  strategy_used result = strategy
  /\ total_tasks e' = (total_tasks e + 1)%Z
  /\ successful_tasks e'
     = (successful_tasks e + (if success result then 1 else 0))%Z
  /\ stat_used (strategy_stats e' strategy)
     = (stat_used (strategy_stats e strategy) + 1)%Z
  /\ stat_success (strategy_stats e' strategy)
     = (stat_success (strategy_stats e strategy)
        + (if success result then 2 else 0))%Z
  /\ (forall s, s <> strategy -> strategy_stats e' s = strategy_stats e s).
Proof.
  intros Hinit Htb strategy e' result.
  destruct (execute_task_standard w task context Hinit Htb)
    as (r & _ & Hr & Hs & _ & Htotal & Hsucc & Hstats & _).
  fold strategy in Hstats, Hs. fold result in Hr. subst r.
  split; [exact Hs|]. split; [exact Htotal|]. split; [exact Hsucc|].
  unfold e'. rewrite !Hstats, strategy_eqb_refl. cbn [counted stat_used stat_success].
  do 2 (split; [reflexivity|]).
  intros s Hne. rewrite Hstats.
  destruct (strategy_eqb strategy s) eqn:E; [|reflexivity].
  apply strategy_eqb_eq in E. congruence.
Qed.

(** An engine that was initialized where TerminalBench is not installed
    and no advisor starts. *)
Definition plain_startup : Startup :=
  {| terminalbench_available := false; terminalbench_setting := None;
     terminalbench_builds := false; advisor_starts := false |}.

Definition plain_engine : CoAct1AutomationEngine :=
  initialize plain_startup __init__.

Definition calm_surroundings : Surroundings :=
  {| hash := fun _ => 1%Z; elapsed := fun _ => 0.5; learning_enabled := true;
     advisor_answer := None; terminalbench := None;
     startup := plain_startup; background_turns := 1 |}.

Definition feeds_task : AutomationTask.t :=
  {| AutomationTask.task_id := "t1";
     AutomationTask.description := "integrate multiple feeds" |}.

Definition four_entries : Py.dict Z :=
  [("a"%string, 1%Z); ("b"%string, 2%Z); ("c"%string, 3%Z);
   ("d"%string, 4%Z)].

Lemma success_is_counted_twice_witness :
  let e' := fst (execute_task calm_surroundings feeds_task four_entries
                   plain_engine) in
  let result := snd (execute_task calm_surroundings feeds_task four_entries
                       plain_engine) in
  strategy_used result = PARALLEL
  /\ total_tasks e' = 1%Z
  /\ successful_tasks e' = (0 + (if success result then 1 else 0))%Z
  /\ stat_used (strategy_stats e' PARALLEL) = 1%Z
  /\ stat_success (strategy_stats e' PARALLEL)
     = (0 + (if success result then 2 else 0))%Z
  /\ (forall s, s <> PARALLEL ->
        strategy_stats e' s = strategy_stats plain_engine s).
Proof.
  apply (@success_is_counted_twice Z calm_surroundings feeds_task
           four_entries plain_engine); reflexivity.
Defined.

(** What happens to the engine, one thing after the other: a task is
    executed, or the background processor makes an iteration between two
    tasks. *)
Inductive Event (V : Type) :=
| Executes (w : Surroundings) (task : AutomationTask.t) (context : Py.dict V)
| BackgroundTurn.

Arguments Executes {V} w task context.
Arguments BackgroundTurn {V}.

Definition happen {V} (e : CoAct1AutomationEngine) (event : Event V)
  : CoAct1AutomationEngine :=
  match event with
  | Executes w task context => fst (execute_task w task context e)
  | BackgroundTurn => _background_processor_iteration e
  end.

Definition run_events {V} (events : list (Event V))
  (e : CoAct1AutomationEngine) : CoAct1AutomationEngine :=
  fold_left happen events e.

Definition is_execution {V} (event : Event V) : bool :=
  match event with
  | Executes _ _ _ => true
  | BackgroundTurn => false
  end.

Definition doubled (e : CoAct1AutomationEngine) : Prop :=
  is_initialized e = true /\ terminalbench_enabled e = false
  /\ forall s,
       (0 <= stat_used (strategy_stats e s))%Z
       /\ (0 <= stat_success (strategy_stats e s)
           <= 2 * stat_used (strategy_stats e s))%Z
       /\ (s <> SEQUENTIAL ->
           stat_success (strategy_stats e s)
           = (2 * stat_used (strategy_stats e s))%Z).

Lemma doubled_step {V} (event : Event V) e :
  doubled e -> doubled (happen e event).
Proof.
  intros (Hinit & Htb & Hstats). destruct event as [w task context|].
  - cbn [happen].
    destruct (execute_task_standard w task context Hinit Htb)
      as (r & _ & _ & _ & Hok & _ & _ & Hst & Hinit' & Htb').
    split; [exact Hinit'|]. split; [exact Htb'|].
    intros s. rewrite Hst. destruct (Hstats s) as (Hu & Hs & Heq).
    destruct (strategy_eqb _ s) eqn:E; [|auto].
    apply strategy_eqb_eq in E. cbn [counted stat_used stat_success].
    split; [lia|]. split.
    + destruct (success r); lia.
    + intros Hne. rewrite Hok by congruence. rewrite (Heq Hne). lia.
  - cbn [happen].
    destruct (background_turns_shape 1 e) as (rate & tasks & Hshape).
    cbn in Hshape. rewrite Hshape.
    split; [exact Hinit|]. split; [exact Htb|]. exact Hstats.
Qed.

Lemma doubled_run {V} (events : list (Event V)) e :
  doubled e -> doubled (run_events events e).
Proof.
  unfold run_events. revert e.
  induction events as [|event events IH]; intros e H; [exact H|].
  cbn [fold_left]. apply IH, doubled_step, H.
Qed.

(** X12. On an engine without TerminalBench whose statistics start at zero,
    after any sequence of tasks and background iterations the success
    count of a strategy is at most twice its use count, and exactly twice
    for PARALLEL, HYBRID and ADAPTIVE, whose executors always report
    success: a success is counted by [_execute_with_strategy] and again by
    [_update_metrics], and the success rate that [get_performance_metrics]
    reports for such a strategy is 2 as soon as it was used. *)
Theorem reported_success_rate_is_doubled {V} (events : list (Event V))
  (e : CoAct1AutomationEngine) (s : ExecutionStrategy) :
  is_initialized e = true -> terminalbench_enabled e = false ->
  (forall s, strategy_stats e s = {| stat_used := 0; stat_success := 0 |}) ->
  let st := strategy_stats (run_events events e) s in
  (0 <= stat_success st <= 2 * stat_used st)%Z
  /\ (s <> SEQUENTIAL ->
      stat_success st = (2 * stat_used st)%Z
      /\ ((0 < stat_used st)%Z -> success_rate st == 2)).
Proof.
  intros Hinit Htb Hzero st.
  assert (H : doubled (run_events events e)).
  { apply doubled_run. split; [exact Hinit|]. split; [exact Htb|].
    intros s'. rewrite Hzero. cbn. lia. }
  destruct H as (_ & _ & H). destruct (H s) as (Hu & Hs & Heq).
  fold st in Hu, Hs, Heq.
  split; [exact Hs|]. intros Hne. split; [exact (Heq Hne)|].
  intros Hpos. unfold success_rate. rewrite (Heq Hne).
  replace (Z.max (stat_used st) 1) with (stat_used st) by lia.
  rewrite inject_Z_mult. field.
  intros H0. unfold Qeq in H0. cbn in H0. lia.
Qed.

Lemma reported_success_rate_is_doubled_witness :
  let st :=
    strategy_stats
      (run_events [Executes calm_surroundings feeds_task four_entries;
                   BackgroundTurn;
                   Executes calm_surroundings feeds_task four_entries]
         plain_engine) PARALLEL in
  stat_used st = 2%Z
  /\ (0 <= stat_success st <= 2 * stat_used st)%Z
  /\ (PARALLEL <> SEQUENTIAL ->
      stat_success st = (2 * stat_used st)%Z
      /\ ((0 < stat_used st)%Z -> success_rate st == 2)).
Proof.
  split; [reflexivity|].
  apply (@reported_success_rate_is_doubled Z
           [Executes calm_surroundings feeds_task four_entries;
            BackgroundTurn;
            Executes calm_surroundings feeds_task four_entries]
           plain_engine PARALLEL); reflexivity.
Defined.

(** The counters are consistent, the rate is a proportion and no task is
    listed as active. *)
Definition tallied (e : CoAct1AutomationEngine) : Prop :=
  (0 <= successful_tasks e <= total_tasks e)%Z
  /\ 0 <= current_success_rate e /\ current_success_rate e <= 1
  /\ active_tasks e = [].

Lemma background_iteration_tallied e :
  tallied e ->
  tallied (_background_processor_iteration e)
  /\ total_tasks (_background_processor_iteration e) = total_tasks e
  /\ successful_tasks (_background_processor_iteration e) = successful_tasks e.
Proof.
  intros (Hs & Hr0 & Hr1 & Ha).
  unfold _background_processor_iteration, _cleanup_completed_tasks,
    _calculate_success_rate.
  rewrite Ha. cbn [List.filter map fold_left total_tasks with_active_tasks].
  destruct (Z.ltb_spec 0 (total_tasks e)) as [Hpos|Hz];
    cbn [tallied successful_tasks total_tasks current_success_rate
         active_tasks with_current_success_rate with_active_tasks];
    unfold tallied;
    cbn [successful_tasks total_tasks current_success_rate
         active_tasks with_current_success_rate with_active_tasks].
  - assert (Hq : 0 < inject_Z (total_tasks e)) by (unfold Qlt; cbn; lia).
    repeat split; try lia.
    + apply Qle_shift_div_l; [exact Hq|]. unfold Qle. cbn. lia.
    + apply Qle_shift_div_r; [exact Hq|]. unfold Qle. cbn. lia.
  - repeat split; try lia; assumption.
Qed.

Lemma background_turns_tallied n e :
  tallied e ->
  tallied (Nat.iter n _background_processor_iteration e)
  /\ total_tasks (Nat.iter n _background_processor_iteration e) = total_tasks e
  /\ successful_tasks (Nat.iter n _background_processor_iteration e)
     = successful_tasks e.
Proof.
  intros H. induction n as [|n (IH & Ht & Hs)]; [auto|].
  rewrite Nat.iter_succ.
  destruct (background_iteration_tallied IH) as (H' & Ht' & Hs').
  split; [exact H'|]. split; congruence.
Qed.

Lemma execute_task_tallied {V} w task (context : Py.dict V) e :
  tallied e ->
  let e' := fst (execute_task w task context e) in
  tallied e'
  /\ total_tasks e' = (total_tasks e + 1)%Z
  /\ (background_turns w = 0%nat ->
      current_success_rate e' = current_success_rate e).
Proof.
  intros (Hs & Hr0 & Hr1 & Ha). cbv zeta. unfold execute_task.
  set (e0 := if is_initialized e then e else initialize (startup w) e).
  assert (H0 : total_tasks e0 = total_tasks e
               /\ successful_tasks e0 = successful_tasks e
               /\ current_success_rate e0 = current_success_rate e
               /\ active_tasks e0 = active_tasks e)
    by (unfold e0; destruct (is_initialized e); repeat split; reflexivity).
  destruct H0 as (H0t & H0s & H0r & H0a). clearbody e0. cbv zeta.
  set (e1 := with_total_tasks (total_tasks e0 + 1) e0).
  assert (H1 : tallied e1).
  { unfold tallied, e1.
    cbn [successful_tasks total_tasks current_success_rate active_tasks
         with_total_tasks].
    rewrite H0t, H0s, H0r, H0a. repeat split; try lia; assumption. }
  destruct (background_turns_tallied (background_turns w) H1)
    as ((H2s & H2r0 & H2r1 & H2a) & H2t & H2s').
  assert (Hquiet : background_turns w = 0%nat ->
                   current_success_rate
                     (Nat.iter (background_turns w)
                        _background_processor_iteration e1)
                   = current_success_rate e).
  { intros ->. cbn [Nat.iter nat_rect]. exact H0r. }
  set (e2 := Nat.iter (background_turns w) _background_processor_iteration e1)
    in *.
  assert (H1t : total_tasks e1 = (total_tasks e + 1)%Z)
    by (unfold e1; cbn [total_tasks with_total_tasks]; lia).
  assert (H1s : successful_tasks e1 = successful_tasks e) by exact H0s.
  clearbody e2. clear H1. clearbody e1.
  unfold tallied.
  destruct (terminalbench_enabled _ && _);
    unfold _execute_with_terminalbench, select_and_execute,
      _execute_with_strategy;
    try destruct (terminalbench w) as [tb|];
    try match goal with
        | |- context [strategies ?w ?s ?t ?c] =>
            destruct (strategies w s t c) as [r|msg]
        end;
    cbn [fst snd success strategy_used];
    unfold _update_learning_system, _update_metrics;
    repeat match goal with
           | |- context [if ?b then _ else _] => destruct b
           end;
    cbn; repeat split; try lia; try assumption; auto.
Qed.

Lemma run_events_tallied {V} (events : list (Event V)) e :
  tallied e ->
  tallied (run_events events e)
  /\ total_tasks (run_events events e)
     = (total_tasks e
        + Z.of_nat (length (List.filter is_execution events)))%Z.
Proof.
  unfold run_events. revert e.
  induction events as [|event events IH]; intros e H.
  - cbn. split; [exact H | lia].
  - cbn [fold_left List.filter]. destruct event as [w task context|];
      cbn [happen is_execution].
    + destruct (execute_task_tallied w task context H) as (H' & Ht & _).
      destruct (IH _ H') as (H'' & Ht'').
      split; [exact H''|]. rewrite Ht'', Ht. cbn [length]. lia.
    + destruct (background_iteration_tallied H) as (H' & Ht & _).
      destruct (IH _ H') as (H'' & Ht'').
      split; [exact H''|]. rewrite Ht'', Ht. reflexivity.
Qed.

(** X13. From a new engine, whatever tasks are executed one at a time and
    whenever the background processor runs, [total_tasks] is the number of
    tasks executed, [successful_tasks] lies between 0 and it, the rate
    that [get_success_rate] returns lies between 0 and 1, and no task is
    ever listed as active. [execute_task] does not refresh the rate
    itself: a call during which the background processor makes no
    iteration leaves the rate as it was. With no task executed yet, an
    iteration of the background processor does not divide and changes
    nothing. *)
Theorem success_rate_stays_in_unit_interval {V} (events : list (Event V)) :
  let e := run_events events __init__ in
  total_tasks e = Z.of_nat (length (List.filter is_execution events))
  /\ (0 <= successful_tasks e <= total_tasks e)%Z
  /\ 0 <= get_success_rate e
  /\ get_success_rate e <= 1
  /\ pm_active_tasks (get_performance_metrics e) = 0%nat
  /\ (forall w task (context : Py.dict V),
        background_turns w = 0%nat ->
        get_success_rate (fst (execute_task w task context e))
        = get_success_rate e)
  /\ (total_tasks e = 0%Z -> _background_processor_iteration e = e).
Proof.
  cbv zeta.
  assert (Hnew : tallied __init__).
  { unfold tallied. cbn. repeat split; try lia;
      unfold Qle; cbn; lia. }
  destruct (run_events_tallied events Hnew) as (H & Ht).
  pose proof H as (Hs & Hr0 & Hr1 & Ha).
  cbn [total_tasks __init__] in Ht.
  split; [rewrite Ht; lia|]. split; [exact Hs|].
  split; [exact Hr0|]. split; [exact Hr1|].
  split; [cbn [get_performance_metrics pm_active_tasks]; rewrite Ha;
          reflexivity|].
  split.
  - intros w task context Hquiet.
    destruct (execute_task_tallied w task context H) as (_ & _ & Hrate).
    exact (Hrate Hquiet).
  - intros Hzero.
    unfold _background_processor_iteration, _cleanup_completed_tasks,
      _calculate_success_rate.
    rewrite Ha. cbn [List.filter map fold_left total_tasks with_active_tasks].
    rewrite Hzero. cbn [Z.ltb Z.compare].
    destruct (run_events events __init__). cbn in Ha. subst.
    reflexivity.
Qed.

Definition with_terminalbench_enabled (v : bool) (e : CoAct1AutomationEngine)
  : CoAct1AutomationEngine :=
  {| is_initialized := is_initialized e;
     terminalbench_enabled := v;
     _strategy_hint_source := _strategy_hint_source e;
     total_tasks := total_tasks e; successful_tasks := successful_tasks e;
     current_success_rate := current_success_rate e;
     strategy_stats := strategy_stats e;
     success_patterns := success_patterns e;
     failure_patterns := failure_patterns e; active_tasks := active_tasks e |}.

Lemma background_turns_terminalbench n b e :
  Nat.iter n _background_processor_iteration (with_terminalbench_enabled b e)
  = with_terminalbench_enabled b
      (Nat.iter n _background_processor_iteration e).
Proof.
  induction n as [|n IH]; [reflexivity|].
  rewrite !Nat.iter_succ, IH.
  unfold _background_processor_iteration, _cleanup_completed_tasks,
    _calculate_success_rate.
  cbn [total_tasks active_tasks with_active_tasks with_terminalbench_enabled].
  destruct (0 <? total_tasks _)%Z; reflexivity.
Qed.

(** X14. When the TerminalBench run raises, the
    task is executed, and the engine updated, exactly as on an engine
    whose TerminalBench is switched off. *)
Theorem terminalbench_failure_falls_back {V} (w : Surroundings)
  (task : AutomationTask.t) (context : Py.dict V)
  (e : CoAct1AutomationEngine) :
  is_initialized e = true -> terminalbench w = None ->
  let off := execute_task w task context (with_terminalbench_enabled false e) in
  snd (execute_task w task context e) = snd off
  /\ fst (execute_task w task context e)
     = with_terminalbench_enabled (terminalbench_enabled e) (fst off).
Proof.
  intros Hinit Hnone. cbv zeta. unfold execute_task.
  cbn [is_initialized with_terminalbench_enabled]. rewrite Hinit. cbv zeta.
  change (with_total_tasks
            (total_tasks (with_terminalbench_enabled false e) + 1)
            (with_terminalbench_enabled false e))
    with (with_terminalbench_enabled false
            (with_total_tasks (total_tasks e + 1) e)).
  rewrite background_turns_terminalbench.
  destruct (background_turns_shape (background_turns w)
              (with_total_tasks (total_tasks e + 1) e))
    as (rate & tasks & ->).
  cbn [terminalbench_enabled with_total_tasks with_terminalbench_enabled
       with_current_success_rate with_active_tasks andb].
  unfold _execute_with_terminalbench. rewrite Hnone.
  set (e1 := with_current_success_rate rate _).
  assert (Hif : forall b : bool,
            (if b
             then select_and_execute w task context
                    (analyze_task_complexity (AutomationTask.description task))
                    e1
             else select_and_execute w task context
                    (analyze_task_complexity (AutomationTask.description task))
                    e1)
            = select_and_execute w task context
                (analyze_task_complexity (AutomationTask.description task))
                e1)
    by (intros []; reflexivity).
  rewrite Hif. clear Hif. unfold e1. clear e1.
  unfold select_and_execute, _execute_with_strategy, advisor_of.
  cbn [_strategy_hint_source with_total_tasks with_terminalbench_enabled
       with_current_success_rate with_active_tasks].
  destruct (strategies w _ task _) as [r|msg]; cbn [fst snd success];
    unfold _update_learning_system, _update_metrics;
    cbn [success strategy_used];
    repeat match goal with
           | |- context [if ?b then _ else _] => destruct b
           end;
    split; reflexivity.
Qed.

Definition coding_task : AutomationTask.t :=
  {| AutomationTask.task_id := "t2";
     AutomationTask.description := "debug the login script" |}.

Lemma terminalbench_failure_falls_back_witness :
  let e := with_terminalbench_enabled true plain_engine in
  let off :=
    execute_task calm_surroundings coding_task four_entries
      (with_terminalbench_enabled false e) in
  snd (execute_task calm_surroundings coding_task four_entries e) = snd off
  /\ fst (execute_task calm_surroundings coding_task four_entries e)
     = with_terminalbench_enabled (terminalbench_enabled e) (fst off).
Proof.
  apply (@terminalbench_failure_falls_back Z calm_surroundings coding_task
           four_entries (with_terminalbench_enabled true plain_engine));
    reflexivity.
Defined.

(** X15. A task that TerminalBench
    handles is reported under ADAPTIVE with TerminalBench's own verdict
    (failure when the answer has no ["success"] entry); the [used] counts
    do not change, and a success still adds 1 to the [success] count of
    ADAPTIVE, so that count can exceed the number of ADAPTIVE runs. *)
Theorem terminalbench_run_is_an_unused_success {V} (w : Surroundings)
  (task : AutomationTask.t) (context : Py.dict V)
  (e : CoAct1AutomationEngine) (tb : TerminalBenchResult) :
  is_initialized e = true -> terminalbench_enabled e = true ->
  _should_use_terminalbench task
    (analyze_task_complexity (AutomationTask.description task)) = true ->
  terminalbench w = Some tb ->
  let e' := fst (execute_task w task context e) in
  let result := snd (execute_task w task context e) in
  strategy_used result = ADAPTIVE
  /\ success result = default false (tb_success tb)
  /\ confidence result = default 0.5 (tb_confidence tb)
  /\ (forall s, stat_used (strategy_stats e' s) = stat_used (strategy_stats e s))
  /\ stat_success (strategy_stats e' ADAPTIVE)
     = (stat_success (strategy_stats e ADAPTIVE)
        + (if success result then 1 else 0))%Z
  /\ (forall s, s <> ADAPTIVE ->
        stat_success (strategy_stats e' s) = stat_success (strategy_stats e s)).
Proof.
  intros Hinit Htb Huse Hsome. cbv zeta. unfold execute_task.
  rewrite Hinit. cbv zeta.
  destruct (background_turns_shape (background_turns w)
              (with_total_tasks (total_tasks e + 1) e))
    as (rate & tasks & ->).
  cbn [terminalbench_enabled with_total_tasks with_current_success_rate
       with_active_tasks].
  rewrite Htb, Huse. cbn [andb]. unfold _execute_with_terminalbench.
  rewrite Hsome. cbn [fst snd success strategy_used confidence].
  do 3 (split; [reflexivity|]).
  unfold _update_learning_system, _update_metrics.
  cbn [success strategy_used].
  destruct (default false (tb_success tb)); destruct (learning_enabled w);
    cbn; (split; [|split]); try reflexivity; try lia;
    intros s; try reflexivity; destruct s; cbn; try reflexivity;
    try lia; intros H; try reflexivity; congruence.
Qed.

Definition good_answer : TerminalBenchResult :=
  {| tb_success := Some true; tb_elapsed_time := Some 1.5; tb_results := 3;
     tb_steps := 3; tb_confidence := None |}.

Definition helped_surroundings : Surroundings :=
  {| hash := fun _ => 1%Z; elapsed := fun _ => 0.5; learning_enabled := true;
     advisor_answer := None; terminalbench := Some good_answer;
     startup := plain_startup; background_turns := 2 |}.

Lemma terminalbench_run_is_an_unused_success_witness :
  let e := with_terminalbench_enabled true plain_engine in
  let e' := fst (execute_task helped_surroundings coding_task four_entries e) in
  let result :=
    snd (execute_task helped_surroundings coding_task four_entries e) in
  strategy_used result = ADAPTIVE
  /\ success result = true
  /\ confidence result = 0.5
  /\ (forall s, stat_used (strategy_stats e' s) = stat_used (strategy_stats e s))
  /\ stat_success (strategy_stats e' ADAPTIVE)
     = (stat_success (strategy_stats e ADAPTIVE)
        + (if success result then 1 else 0))%Z
  /\ (forall s, s <> ADAPTIVE ->
        stat_success (strategy_stats e' s) = stat_success (strategy_stats e s)).
Proof.
  apply (@terminalbench_run_is_an_unused_success Z helped_surroundings
           coding_task four_entries
           (with_terminalbench_enabled true plain_engine) good_answer);
    reflexivity.
Defined.

(** X16. With learning enabled, a task is recorded under
    its id in [success_patterns] when its result reports success and in
    [failure_patterns] otherwise, with the tier of the analysis and the
    strategy of the result; the other dictionary is left as it is, so an
    older entry of the same task there is never removed. With learning
    disabled neither dictionary changes. *)
Theorem learning_records_outcome {V} (w : Surroundings)
  (task : AutomationTask.t) (context : Py.dict V)
  (e : CoAct1AutomationEngine) :
  let e' := fst (execute_task w task context e) in
  let result := snd (execute_task w task context e) in
  let level :=
    complexity_level
      (analyze_task_complexity (AutomationTask.description task)) in
  if learning_enabled w
  then
    if success result
    then Py.get (AutomationTask.task_id task) (success_patterns e')
         = Some (SuccessPattern level (strategy_used result)
                   (execution_time result) (confidence result))
         /\ failure_patterns e' = failure_patterns e
    else Py.get (AutomationTask.task_id task) (failure_patterns e')
         = Some (FailurePattern level (strategy_used result)
                   (error_message result))
         /\ success_patterns e' = success_patterns e
  else success_patterns e' = success_patterns e
       /\ failure_patterns e' = failure_patterns e.
Proof.
  cbv zeta. unfold execute_task. cbv zeta.
  set (e0 := Nat.iter _ _ _).
  assert (He0 : success_patterns e0 = success_patterns e
                /\ failure_patterns e0 = failure_patterns e).
  { unfold e0.
    destruct (background_turns_shape (background_turns w)
                (with_total_tasks
                   (total_tasks
                      (if is_initialized e then e
                       else initialize (startup w) e) + 1)
                   (if is_initialized e then e else initialize (startup w) e)))
      as (rate & tasks & ->).
    destruct (is_initialized e); split; reflexivity. }
  set (ca := analyze_task_complexity _).
  assert (Hrun : forall b : bool,
            let p := if b
                     then _execute_with_terminalbench w task context ca e0
                     else select_and_execute w task context ca e0 in
            success_patterns (fst p) = success_patterns e
            /\ failure_patterns (fst p) = failure_patterns e).
  { intros b. cbv zeta.
    unfold _execute_with_terminalbench, select_and_execute,
      _execute_with_strategy.
    destruct b; try destruct (terminalbench w);
      try match goal with
          | |- context [strategies ?w ?s ?t ?c] =>
              destruct (strategies w s t c) as [r|msg]
          end;
      cbn [fst]; try destruct (success r); exact He0. }
  specialize (Hrun (terminalbench_enabled e0
                    && _should_use_terminalbench task ca)).
  cbv zeta in Hrun.
  destruct (if terminalbench_enabled e0 && _should_use_terminalbench task ca
            then _ else _) as [e1 result].
  cbn [fst snd] in *. destruct Hrun as [Hs Hf].
  unfold _update_learning_system, _update_metrics.
  destruct (learning_enabled w); destruct (success result); cbn.
  - split; [apply Py.get_set_same | exact Hf].
  - split; [apply Py.get_set_same | exact Hs].
  - split; assumption.
  - split; assumption.
Qed.

Lemma fold_del_skip {V} (k : string) (v : V) (ks : list string)
  (d : Py.dict V) :
  ~ In k ks ->
  fold_left (fun d task_id => Py.del task_id d) ks ((k, v) :: d)
  = (k, v) :: fold_left (fun d task_id => Py.del task_id d) ks d.
Proof.
  revert d. induction ks as [|k' ks IH]; intros d Hk; [reflexivity|].
  cbn [fold_left Py.del].
  destruct (String.eqb_spec k' k) as [->|Hne].
  - exfalso. apply Hk. left. reflexivity.
  - apply IH. intros H. apply Hk. right. exact H.
Qed.

Lemma cleanup_is_filter (d : Py.dict (Py.dict bool)) :
  NoDup (map fst d) ->
  fold_left (fun d task_id => Py.del task_id d)
    (map fst (List.filter (fun kv => is_completed (snd kv)) d)) d
  = List.filter (fun kv => negb (is_completed (snd kv))) d.
Proof.
  induction d as [|[k info] d IH]; intros Hnd; [reflexivity|].
  cbn [map fst] in Hnd. apply NoDup_cons in Hnd as [Hk Hnd].
  rewrite list_elem_of_In in Hk.
  cbn [List.filter snd]. destruct (is_completed info); cbn [negb map fst].
  - cbn [fold_left Py.del]. rewrite String.eqb_refl. apply IH, Hnd.
  - rewrite fold_del_skip; [rewrite (IH Hnd); reflexivity|].
    intros Hin. apply Hk. apply in_map_iff in Hin as ([k' info'] & <- & Hin).
    apply filter_In in Hin as [Hin _].
    apply in_map_iff. exists (k', info'). split; [reflexivity | exact Hin].
Qed.

Lemma filter_filter_neg {B} (p : B -> bool) (l : list B) :
  List.filter p (List.filter (fun x => negb (p x)) l) = [].
Proof.
  induction l as [|x l IH]; [reflexivity|].
  cbn [List.filter]. destruct (p x) eqn:E; cbn [negb List.filter];
    rewrite ?E; exact IH.
Qed.

(** [_cleanup_completed_tasks] keeps exactly the entries of
    [active_tasks] that are not flagged completed (an entry without the
    flag counts as not completed), in their order; no entry that is left
    is completed, a second clean-up changes nothing, and nothing else on
    the engine is touched. The keys of a dictionary are distinct. *)
Theorem cleanup_removes_completed (e : CoAct1AutomationEngine) :
  NoDup (map fst (active_tasks e)) ->
  let e' := _cleanup_completed_tasks e in
  active_tasks e'
  = List.filter (fun kv => negb (is_completed (snd kv))) (active_tasks e)
  /\ (forall k info, In (k, info) (active_tasks e') -> is_completed info = false)
  /\ (forall k info, In (k, info) (active_tasks e) ->
        is_completed info = false -> In (k, info) (active_tasks e'))
  /\ _cleanup_completed_tasks e' = e'
  /\ e = with_active_tasks (active_tasks e) e'.
Proof.
  intros Hnd e'.
  assert (Hact : active_tasks e'
                 = List.filter (fun kv => negb (is_completed (snd kv)))
                     (active_tasks e)).
  { unfold e', _cleanup_completed_tasks. cbn [active_tasks with_active_tasks].
    apply cleanup_is_filter, Hnd. }
  split; [exact Hact|]. split; [|split; [|split]].
  - intros k info Hin. rewrite Hact in Hin.
    apply filter_In in Hin as [_ H]. cbn [snd] in H.
    apply negb_true_iff. exact H.
  - intros k info Hin Hc. rewrite Hact. apply filter_In.
    split; [exact Hin|]. cbn [snd]. rewrite Hc. reflexivity.
  - unfold _cleanup_completed_tasks at 1. rewrite Hact.
    rewrite filter_filter_neg. cbn [map fold_left]. rewrite <- Hact.
    unfold e', _cleanup_completed_tasks. reflexivity.
  - unfold e', _cleanup_completed_tasks. destruct e. reflexivity.
Qed.

Definition crowded_engine : CoAct1AutomationEngine :=
  with_active_tasks
    [ ("a"%string, [("completed"%string, true)]);
      ("b"%string, [("progress"%string, true)]);
      ("c"%string, [("completed"%string, false)]);
      ("d"%string, [("completed"%string, true)]) ] plain_engine.

Lemma cleanup_removes_completed_witness :
  let e' := _cleanup_completed_tasks crowded_engine in
  active_tasks e'
  = List.filter (fun kv => negb (is_completed (snd kv)))
      (active_tasks crowded_engine)
  /\ (forall k info, In (k, info) (active_tasks e') -> is_completed info = false)
  /\ (forall k info, In (k, info) (active_tasks crowded_engine) ->
        is_completed info = false -> In (k, info) (active_tasks e'))
  /\ _cleanup_completed_tasks e' = e'
  /\ crowded_engine = with_active_tasks (active_tasks crowded_engine) e'.
Proof.
  apply (@cleanup_removes_completed crowded_engine).
  cbn.
  repeat (apply NoDup_cons_2;
          [intros H;
           repeat (apply elem_of_cons in H as [H|H]; [discriminate H|]);
           inversion H|]).
  apply NoDup_nil_2.
Defined.

Close Scope Q_scope.

End CoAct.

(* ================================================================== *)
(** * The ThinkMesh orchestrator ([orchestrator.py]) *)
(* ================================================================== *)

Module Orchestrator.

Open Scope Q_scope.

Inductive OrchestrationStrategy :=
  SEQUENTIAL | PARALLEL | HIERARCHICAL | CONSENSUS | COMPETITIVE
| COLLABORATIVE | ADAPTIVE.

Inductive TaskPriority := CRITICAL | HIGH | NORMAL | LOW | BACKGROUND.

(** The Python values that tasks carry as context entries and results. *)
Inductive PyValue :=
| VNone
| VInt (n : Z)
| VStr (s : string)
| VResult (agent_id task_id timestamp : string)
    (* {"status": "success", "agent_id": .., "task_id": .., "timestamp": ..} *)
| VException (msg : string)     (* an Exception collected by gather *)
| VCancelledError               (* a CancelledError collected by gather *)
| VMerged (results : list PyValue).
    (* {"merged": True, "results": results, "count": len(results)} *)

(** [isinstance(r, Exception)]; CancelledError derives from BaseException
    only. *)
Definition isinstance_Exception (r : PyValue) : bool :=
  match r with VException _ => true | _ => false end.

(** Truth value of a result, as in [if task.result]. *)
Definition truthy (v : PyValue) : bool :=
  match v with
  | VNone => false
  | VInt n => negb (n =? 0)%Z
  | VStr s => negb (String.eqb s EmptyString)
  | _ => true
  end.

(** [task.requirements]: the two keys the orchestrator reads, an absent
    key being the empty default of [.get]. *)
Record Requirements := {
  req_specializations : list string;
  req_skills : Py.dict Q }.

Record Task := {
  task_id : string;
  task_type : string;
  priority : TaskPriority;
  requirements : Requirements;
  context : Py.dict PyValue;
  created_at : string;
  deadline : option Q;
  status : string;
  assigned_agents : list string;
  result : PyValue }.

Record AgentCapability := {
  agent_id : string;
  specializations : list string;
  performance_score : Q;
  availability : bool;
  current_load : Z;
  max_load : Z;
  skills : Py.dict Q }.

(** The [capabilities] dictionary of a registration request. *)
Record Capabilities := {
  cap_performance_score : option Q;
  cap_max_load : option Z;
  cap_skills : option (Py.dict Q) }.

(** An agent reference handed around by the routing code: the position of
    the object in [self.agents] and the object as it was read. *)
Abbreviation AgentRef := (nat * AgentCapability)%type (only parsing).

(** The orchestrator object. [agents] is a dictionary in insertion order;
    an agent object is referred to by its position in it, which does not
    change while a task is routed. [tasks] holds the [Task] objects
    created so far and a task is referred to by its position there, so
    that the queue, [active_tasks] and [completed_tasks] share one object.
    [cancelling] and [consumers] belong to the event loop: the executions
    whose cancellation was requested and has not been delivered yet, and
    the number of tasks running [_process_task_queue] that [initialize]
    has created. *)
Record ThinkMeshOrchestrator := {
  agents : Py.dict AgentCapability;
  tasks : list Task;
  active_tasks : Py.dict nat;
  completed_tasks : list nat;
  strategy : OrchestrationStrategy;
  task_queue : list nat;
  _running : bool;
  cancelling : list AgentRef;
  consumers : nat }.

Definition initial : ThinkMeshOrchestrator :=
  {| agents := []; tasks := []; active_tasks := []; completed_tasks := [];
     strategy := ADAPTIVE; task_queue := []; _running := false;
     cancelling := []; consumers := 0 |}.

(** ** Field updates *)

Definition with_status (v : string) (t : Task) : Task :=
  {| task_id := task_id t; task_type := task_type t; priority := priority t;
     requirements := requirements t; context := context t;
     created_at := created_at t; deadline := deadline t; status := v;
     assigned_agents := assigned_agents t; result := result t |}.

Definition with_assigned_agents (v : list string) (t : Task) : Task :=
  {| task_id := task_id t; task_type := task_type t; priority := priority t;
     requirements := requirements t; context := context t;
     created_at := created_at t; deadline := deadline t; status := status t;
     assigned_agents := v; result := result t |}.

Definition with_result (v : PyValue) (t : Task) : Task :=
  {| task_id := task_id t; task_type := task_type t; priority := priority t;
     requirements := requirements t; context := context t;
     created_at := created_at t; deadline := deadline t; status := status t;
     assigned_agents := assigned_agents t; result := v |}.

Definition with_current_load (v : Z) (a : AgentCapability) : AgentCapability :=
  {| agent_id := agent_id a; specializations := specializations a;
     performance_score := performance_score a;
     availability := availability a; current_load := v;
     max_load := max_load a; skills := skills a |}.

Definition with_performance_score (v : Q) (a : AgentCapability)
  : AgentCapability :=
  {| agent_id := agent_id a; specializations := specializations a;
     performance_score := v; availability := availability a;
     current_load := current_load a; max_load := max_load a;
     skills := skills a |}.

Definition with_agents (v : Py.dict AgentCapability)
  (o : ThinkMeshOrchestrator) : ThinkMeshOrchestrator :=
  {| agents := v; tasks := tasks o; active_tasks := active_tasks o;
     completed_tasks := completed_tasks o; strategy := strategy o;
     task_queue := task_queue o; _running := _running o;
     cancelling := cancelling o; consumers := consumers o |}.

Definition with_tasks (v : list Task) (o : ThinkMeshOrchestrator)
  : ThinkMeshOrchestrator :=
  {| agents := agents o; tasks := v; active_tasks := active_tasks o;
     completed_tasks := completed_tasks o; strategy := strategy o;
     task_queue := task_queue o; _running := _running o;
     cancelling := cancelling o; consumers := consumers o |}.

Definition with_active_tasks (v : Py.dict nat) (o : ThinkMeshOrchestrator)
  : ThinkMeshOrchestrator :=
  {| agents := agents o; tasks := tasks o; active_tasks := v;
     completed_tasks := completed_tasks o; strategy := strategy o;
     task_queue := task_queue o; _running := _running o;
     cancelling := cancelling o; consumers := consumers o |}.

Definition with_completed_tasks (v : list nat) (o : ThinkMeshOrchestrator)
  : ThinkMeshOrchestrator :=
  {| agents := agents o; tasks := tasks o; active_tasks := active_tasks o;
     completed_tasks := v; strategy := strategy o;
     task_queue := task_queue o; _running := _running o;
     cancelling := cancelling o; consumers := consumers o |}.

Definition with_strategy (v : OrchestrationStrategy)
  (o : ThinkMeshOrchestrator) : ThinkMeshOrchestrator :=
  {| agents := agents o; tasks := tasks o; active_tasks := active_tasks o;
     completed_tasks := completed_tasks o; strategy := v;
     task_queue := task_queue o; _running := _running o;
     cancelling := cancelling o; consumers := consumers o |}.

Definition with_task_queue (v : list nat) (o : ThinkMeshOrchestrator)
  : ThinkMeshOrchestrator :=
  {| agents := agents o; tasks := tasks o; active_tasks := active_tasks o;
     completed_tasks := completed_tasks o; strategy := strategy o;
     task_queue := v; _running := _running o; cancelling := cancelling o;
     consumers := consumers o |}.

Definition with_running (v : bool) (o : ThinkMeshOrchestrator)
  : ThinkMeshOrchestrator :=
  {| agents := agents o; tasks := tasks o; active_tasks := active_tasks o;
     completed_tasks := completed_tasks o; strategy := strategy o;
     task_queue := task_queue o; _running := v; cancelling := cancelling o;
     consumers := consumers o |}.

Definition with_cancelling (v : list AgentRef) (o : ThinkMeshOrchestrator)
  : ThinkMeshOrchestrator :=
  {| agents := agents o; tasks := tasks o; active_tasks := active_tasks o;
     completed_tasks := completed_tasks o; strategy := strategy o;
     task_queue := task_queue o; _running := _running o; cancelling := v;
     consumers := consumers o |}.

Definition with_consumers (v : nat) (o : ThinkMeshOrchestrator)
  : ThinkMeshOrchestrator :=
  {| agents := agents o; tasks := tasks o; active_tasks := active_tasks o;
     completed_tasks := completed_tasks o; strategy := strategy o;
     task_queue := task_queue o; _running := _running o;
     cancelling := cancelling o; consumers := v |}.

(** Mutation of the agent object at position [i], of the task object at
    position [t]. *)
Definition update_agent (i : nat) (f : AgentCapability -> AgentCapability)
  (o : ThinkMeshOrchestrator) : ThinkMeshOrchestrator :=
  with_agents (alter (fun kv => (fst kv, f (snd kv))) i (agents o)) o.

Definition update_task (t : nat) (f : Task -> Task)
  (o : ThinkMeshOrchestrator) : ThinkMeshOrchestrator :=
  with_tasks (alter f t (tasks o)) o.

(** ** Coroutines

    An [async] method is a function from the orchestrator state to a
    [Run]: the value it returns or the exception it raises, the final
    state, and the states seen at its suspension points, in order. *)

Inductive Exn := Exception (msg : string) | CancelledError.

Record Run (A : Type) := MkRun {
  value : A + Exn;
  final : ThinkMeshOrchestrator;
  seen : list ThinkMeshOrchestrator }.

Definition M (A : Type) : Type := ThinkMeshOrchestrator -> Run A.

Definition ret {A} (a : A) : M A := fun s => MkRun (inl a) s [].

Definition raise {A} (e : Exn) : M A := fun s => MkRun (inr e) s [].

Definition bind {A B} (m : M A) (k : A -> M B) : M B := fun s =>
  let r := m s in
  match value r with
  | inl a =>
      let r' := k a (final r) in
      MkRun (value r') (final r') (seen r ++ seen r')
  | inr e => MkRun (inr e) (final r) (seen r)
  end.

Definition get : M ThinkMeshOrchestrator := fun s => MkRun (inl s) s [].

Definition modify (f : ThinkMeshOrchestrator -> ThinkMeshOrchestrator)
  : M unit := fun s => MkRun (inl tt) (f s) [].

(** An [await] that gives control back to the event loop: the current
    state is observable. *)
Definition suspend : M unit := fun s => MkRun (inl tt) s [s].

(** [try: m except Exception as e: handler e]. *)
Definition try_except {A} (m : M A) (handler : string -> M A) : M A :=
  fun s =>
    let r := m s in
    match value r with
    | inr (Exception msg) =>
        let r' := handler msg (final r) in
        MkRun (value r') (final r') (seen r ++ seen r')
    | _ => r
    end.

(** [try: m finally: cleanup]. *)
Definition try_finally {A} (m : M A) (cleanup : M unit) : M A := fun s =>
  let r := m s in
  let r' := cleanup (final r) in
  MkRun (match value r' with inr e => inr e | inl _ => value r end)
        (final r') (seen r ++ seen r').

Notation "'let*' x ':=' m 'in' k" := (bind m (fun x => k))
  (at level 10, x name, m at level 100, k at level 200).
Notation "m '>>' k" := (bind m (fun _ => k))
  (at level 100, k at level 200, right associativity).

(** [for x in l: body x]. *)
Fixpoint for_each {A} (l : list A) (body : A -> M unit) : M unit :=
  match l with
  | [] => ret tt
  | x :: l' => body x >> for_each l' body
  end.

(** The results of [body x] for [x] in [l], in order. *)
Fixpoint collect {A B} (l : list A) (body : A -> M B) : M (list B) :=
  match l with
  | [] => ret []
  | x :: l' =>
      let* y := body x in
      let* ys := collect l' body in
      ret (y :: ys)
  end.

(** Attribute assignments on the task object [t]. *)
Definition set_status (t : nat) (v : string) : M unit :=
  modify (update_task t (with_status v)).

Definition set_assigned_agents (t : nat) (v : list string) : M unit :=
  modify (update_task t (with_assigned_agents v)).

Definition set_result (t : nat) (v : PyValue) : M unit :=
  modify (update_task t (with_result v)).

(** ** Agent registry

    [performance_score: float]: the score of a request is the float that
    the number given there stands for. *)

Definition register_agent (agent_id : string) (specializations : list string)
  (capabilities : Capabilities) : M bool :=
  modify (fun o =>
    with_agents
      (Py.set agent_id
         {| agent_id := agent_id;
            specializations := specializations;
            performance_score :=
              Py.float (default 0.5 (cap_performance_score capabilities));
            availability := true;
            current_load := 0;
            max_load := default 10%Z (cap_max_load capabilities);
            skills := default [] (cap_skills capabilities) |}
         (agents o)) o) >>
  ret true.

Definition unregister_agent (agent_id : string) : M bool :=
  let* o := get in
  if Py.contains agent_id (agents o)
  then modify (with_agents (Py.del agent_id (agents o))) >> ret true
  else ret false.

Definition set_strategy (strategy : OrchestrationStrategy) : M unit :=
  modify (with_strategy strategy).

(** [submit_task]: [uuid] is the string [uuid.uuid4()] produces and [now]
    the reading of [datetime.now()]. *)
Definition submit_task (uuid now : string) (task_type : string)
  (requirements : Requirements) (context : Py.dict PyValue)
  (priority : TaskPriority) (deadline : option Q) : M string :=
  let task :=
    {| task_id := uuid; task_type := task_type; priority := priority;
       requirements := requirements; context := context;
       created_at := now; deadline := deadline; status := "pending";
       assigned_agents := []; result := VNone |} in
  let* o := get in
  let t := length (tasks o) in
  modify (with_tasks (tasks o ++ [task])) >>
  modify (fun o => with_active_tasks (Py.set uuid t (active_tasks o)) o) >>
  modify (fun o => with_task_queue (task_queue o ++ [t]) o) >>
  ret uuid.

(** ** Routing: the suitable agents *)

Definition enumerate (d : Py.dict AgentCapability) : list AgentRef :=
  zip (seq 0 (length d)) (Py.values d).

Definition mem (s : string) (l : list string) : bool :=
  existsb (String.eqb s) l.

Definition is_nonempty {A} (l : list A) : bool :=
  match l with [] => false | _ => true end.

(** The body of the [for agent in self.agents.values()] loop of
    [_find_suitable_agents]: is the agent appended to [suitable]? *)
Definition is_suitable (required_specializations : list string)
  (agent : AgentCapability) : bool :=
  if negb (availability agent) || (max_load agent <=? current_load agent)%Z
  then false
  else if is_nonempty required_specializations
       then existsb (fun spec => mem spec (specializations agent))
              required_specializations
       else true.

(** The sort key [a.performance_score * (1 - a.current_load / a.max_load)]:
    the quotient of the two integers, the difference and the product are
    each rounded to a float. The division raises ZeroDivisionError when
    [max_load] is 0. *)
Definition load_key (a : AgentCapability) : Q :=
  Py.fmul (performance_score a)
    (Py.fsub 1 (Py.fdiv (inject_Z (current_load a))
                  (inject_Z (max_load a)))).

Definition _find_suitable_agents (task : Task) : M (list AgentRef) :=
  let* o := get in
  let required_specializations :=
    req_specializations (requirements task) in
  let suitable :=
    filter (fun r => is_suitable required_specializations (snd r) = true)
      (enumerate (agents o)) in
  if existsb (fun r => (max_load (snd r) =? 0)%Z) suitable
  then raise (Exception "division by zero")
  else ret (Py.sort_desc (fun r => load_key (snd r)) suitable).

(** ** Execution on an agent

    What happens to one execution is decided outside the orchestrator: the
    body reaches its [return] (and reads the clock), the agent call raises
    an exception, or the coroutine is cancelled while it awaits. *)

Inductive Outcome :=
| Completes (timestamp : string)
| Fails (msg : string)
| Cancelled.

Definition add_load (d : Z) (a : AgentCapability) : AgentCapability :=
  with_current_load (current_load a + d)%Z a.

(** [agent.performance_score = min(1.0, agent.performance_score + 0.01)]
    and [max(0.0, agent.performance_score - 0.05)]: float additions of
    the float literals. *)
Definition reward (a : AgentCapability) : AgentCapability :=
  with_performance_score
    (Py.min 1.0 (Py.fadd (performance_score a) (Py.float 0.01))) a.

Definition penalize (a : AgentCapability) : AgentCapability :=
  with_performance_score
    (Py.max 0.0 (Py.fsub (performance_score a) (Py.float 0.05))) a.

(** [_execute_on_agent] up to its [await]: [agent.current_load += 1]. *)
Definition execute_start (agent : AgentRef) : M unit :=
  modify (update_agent (fst agent) (add_load 1)).

(** [_execute_on_agent] from its [await] on: the rest of the [try] body,
    the [except Exception] handler and the [finally] block. *)
Definition execute_resume (outcome : Outcome) (agent : AgentRef)
  (task_id : string) : M PyValue :=
  try_finally
    (try_except
       match outcome with
       | Completes timestamp =>
           modify (update_agent (fst agent) reward) >>
           ret (VResult (agent_id (snd agent)) task_id timestamp)
       | Fails msg => raise (Exception msg)
       | Cancelled => raise CancelledError
       end
       (fun msg =>
          modify (update_agent (fst agent) penalize) >>
          raise (Exception msg)))
    (modify (update_agent (fst agent) (add_load (-1)))).

Definition _execute_on_agent (outcome : Outcome) (agent : AgentRef)
  (task_id : string) : M PyValue :=
  execute_start agent >>
  suspend >>
  execute_resume outcome agent task_id.

(** What [gather(..., return_exceptions=True)] stores for a coroutine. *)
Definition as_value (m : M PyValue) : M PyValue := fun s =>
  let r := m s in
  MkRun (inl match value r with
             | inl v => v
             | inr (Exception msg) => VException msg
             | inr CancelledError => VCancelledError
             end) (final r) (seen r).

(** [await asyncio.gather] over [self._execute_on_agent(agent, task)] for
    the selected agents, with [return_exceptions=True]: the coroutines
    start in order and run to
    their [await]; while all of them are suspended the state is
    observable; then they resume in order. [env] gives the outcome of the
    execution on each agent position; [jobs] pairs each agent with the id
    of the task it is given. *)
Definition gather_execute (env : nat -> Outcome)
  (jobs : list (AgentRef * string)) : M (list PyValue) :=
  for_each jobs (fun j => execute_start (fst j)) >>
  suspend >>
  collect jobs
    (fun j => as_value (execute_resume (env (fst (fst j))) (fst j) (snd j))).

Definition same_task (task : Task) (selected : list AgentRef)
  : list (AgentRef * string) :=
  map (fun a => (a, task_id task)) selected.

(** ** Consensus *)

Section Consensus.

Context {A : Type} (str : A -> string).

(** [Counter(iterable)]: [mapping[elem] = mapping.get(elem, 0) + 1] for
    every element, in order. *)
Definition count_element (c : Py.dict nat) (elem : string) : Py.dict nat :=
  Py.set elem (default 0%nat (Py.get elem c) + 1)%nat c.

Definition Counter (items : list string) : Py.dict nat :=
  fold_left count_element items [].

(** [most_common(1)]: [max] over the items in dictionary order with the
    count as key, that is the first item whose count is maximal; the empty
    list for an empty counter. *)
Fixpoint first_max (best : string * nat) (l : list (string * nat))
  : string * nat :=
  match l with
  | [] => best
  | x :: l' => first_max (if (snd best <? snd x)%nat then x else best) l'
  end.

Definition most_common_1 (c : Py.dict nat) : option (string * nat) :=
  match c with
  | [] => None
  | x :: c' => Some (first_max x c')
  end.

(** [next(r for r in results if str(r) == most_common)]. *)
Definition first_with_str (s : string) (results : list A) : option A :=
  List.find (fun r => String.eqb (str r) s) results.

(** [_achieve_consensus]; [None] is Python's [None]. *)
Definition _achieve_consensus (results : list A) : option A :=
  if negb (is_nonempty results) then None
  else
    match most_common_1 (Counter (map str results)) with
    | Some (most_common, _) => first_with_str most_common results
    | None => None
    end.

End Consensus.

(** ** Completion *)

Definition _complete_task (t : nat) (task : Task) : M unit :=
  (let* o := get in
   if Py.contains (task_id task) (active_tasks o)
   then modify (with_active_tasks (Py.del (task_id task) (active_tasks o)))
   else ret tt) >>
  modify (fun o => with_completed_tasks (completed_tasks o ++ [t]) o).

(** ** The seven routing strategies

    [t] is the reference of the task object and [task] the object as read
    when routing starts (its id, type, requirements and context are never
    assigned to afterwards). [str] is [str(r)] on results. The environment
    of a routing gives the outcome of the execution on each agent position
    and, for the competitive race, which of the finished executions
    [next(iter(done))] yields. It also tells the interpreter, Python
    3.[python_minor]: [asyncio.wait] takes coroutines before Python 3.11
    and refuses them from then on, and [sum] compensates the rounding of
    float additions from Python 3.12. *)

Record Env := {
  outcome_of : nat -> Outcome;
  first_done : nat;
  python_minor : nat }.

Definition wait_accepts_coroutines (env : Env) : bool :=
  (python_minor env <? 11)%nat.

Definition sum_compensates (env : Env) : bool :=
  (12 <=? python_minor env)%nat.

Section Routing.

Variable str : PyValue -> string.

Definition execute_for (env : Env) (agent : AgentRef) (task_id : string)
  : M PyValue :=
  _execute_on_agent (outcome_of env (fst agent)) agent task_id.

Definition agent_ids (selected : list AgentRef) : list string :=
  map (fun a => agent_id (snd a)) selected.

Definition _sequential_routing (env : Env) (t : nat) (task : Task) : M unit :=
  let* suitable_agents := _find_suitable_agents task in
  match suitable_agents with
  | [] => set_status t "failed"
  | best_agent :: _ =>
      set_assigned_agents t [agent_id (snd best_agent)] >>
      let* result := execute_for env best_agent (task_id task) in
      set_result t result >>
      set_status t "completed" >>
      _complete_task t task
  end.

Definition first_not_exception (results : list PyValue) : PyValue :=
  default VNone (List.find (fun r => negb (isinstance_Exception r)) results).

Definition valid_results (results : list PyValue) : list PyValue :=
  List.filter (fun r => negb (isinstance_Exception r)) results.

Definition _parallel_routing (env : Env) (t : nat) (task : Task) : M unit :=
  let* suitable_agents := _find_suitable_agents task in
  match suitable_agents with
  | [] => set_status t "failed"
  | _ =>
      let selected_agents :=
        take (Nat.min 3 (length suitable_agents)) suitable_agents in
      set_assigned_agents t (agent_ids selected_agents) >>
      let* results :=
        gather_execute (outcome_of env) (same_task task selected_agents) in
      let result := first_not_exception results in
      set_result t result >>
      set_status t (if truthy result then "completed" else "failed") >>
      _complete_task t task
  end.

Definition _consensus_routing (env : Env) (t : nat) (task : Task) : M unit :=
  let* suitable_agents := _find_suitable_agents task in
  if (length suitable_agents <? 3)%nat
  then _parallel_routing env t task
  else
    let selected_agents :=
      take (Nat.min 5 (length suitable_agents)) suitable_agents in
    set_assigned_agents t (agent_ids selected_agents) >>
    let* results :=
      gather_execute (outcome_of env) (same_task task selected_agents) in
    let valid := valid_results results in
    (if is_nonempty valid
     then set_result t (default VNone (_achieve_consensus str valid)) >>
          set_status t "completed"
     else set_status t "failed") >>
    _complete_task t task.

(** The skill-weighted score of [_adaptive_routing]; the skill levels and
    the weights are floats ([Dict[str, float]]). *)
Definition score_agent (env : Env) (task : Task) (agent : AgentCapability)
  : Q :=
  let score := performance_score agent in
  let load_factor :=
    Py.fsub 1 (Py.fdiv (inject_Z (current_load agent))
                 (inject_Z (max_load agent))) in
  let score := Py.fmul score load_factor in
  let required_skills := req_skills (requirements task) in
  if is_nonempty required_skills
  then
    let skill_match :=
      Py.fdiv
        (Py.sum (sum_compensates env)
           (map (fun sw =>
                   Py.fmul
                     (Py.float (default 0 (Py.get (fst sw) (skills agent))))
                     (Py.float (snd sw)))
              required_skills))
        (inject_Z (Z.of_nat (length required_skills))) in
    Py.fmul score (Py.fadd 1 skill_match)
  else score.

Definition _adaptive_routing (env : Env) (t : nat) (task : Task) : M unit :=
  let* suitable_agents := _find_suitable_agents task in
  match suitable_agents with
  | [] => set_status t "failed"
  | first :: others =>
      let best_agent :=
        Py.max_by (fun a => score_agent env task (snd a)) first others in
      set_assigned_agents t [agent_id (snd best_agent)] >>
      let* result := execute_for env best_agent (task_id task) in
      set_result t result >>
      set_status t "completed" >>
      _complete_task t task
  end.

Definition is_coordinator (a : AgentRef) : bool :=
  mem "coordinator" (specializations (snd a))
  || mem "general" (specializations (snd a)).

Definition _hierarchical_routing (env : Env) (t : nat) (task : Task)
  : M unit :=
  let* o := get in
  match List.find is_coordinator (enumerate (agents o)) with
  | Some coordinator =>
      set_assigned_agents t [agent_id (snd coordinator)] >>
      let* result := execute_for env coordinator (task_id task) in
      set_result t result >>
      set_status t "completed" >>
      _complete_task t task
  | None => _adaptive_routing env t task
  end.

(** What a finished asyncio task holds: its result or its exception. *)
Definition settled (m : M PyValue) : M (PyValue + Exn) := fun s =>
  let r := m s in MkRun (inl (value r)) (final r) (seen r).

Definition is_cancelled (o : Outcome) : bool :=
  match o with Cancelled => true | _ => false end.

(** [done, pending = await asyncio.wait(..., return_when=FIRST_COMPLETED)]
    followed by [for p in pending: p.cancel()], on an interpreter whose
    [asyncio.wait] takes coroutines. All executions start; the ones that
    the environment does not cancel make up [done] and have run to their
    end; the others are [pending]: [p.cancel()] only requests their
    cancellation, which the event loop delivers later. The value is what
    the tasks in [done] hold. *)
Definition wait_first_completed (env : Env) (task : Task)
  (selected_agents : list AgentRef) : M (list (PyValue + Exn)) :=
  for_each selected_agents execute_start >>
  suspend >>
  let done :=
    List.filter (fun a => negb (is_cancelled (outcome_of env (fst a))))
      selected_agents in
  let pending :=
    List.filter (fun a => is_cancelled (outcome_of env (fst a)))
      selected_agents in
  let* finished :=
    collect done
      (fun a => settled (execute_resume (outcome_of env (fst a)) a
                           (task_id task))) in
  modify (fun o => with_cancelling (cancelling o ++ pending) o) >>
  ret finished.

(** [next(iter(done)).result() if done else None]: the set [done] is
    iterated in an order the environment fixes. *)
Definition first_result (env : Env) (finished : list (PyValue + Exn))
  : M PyValue :=
  match finished with
  | [] => ret VNone
  | _ =>
      match nth_error finished (first_done env mod length finished) with
      | Some (inl v) => ret v
      | Some (inr e) => raise e
      | None => ret VNone
      end
  end.

(** [_competitive_routing]. From Python 3.11 [asyncio.wait] raises
    TypeError on the list of coroutines it is given, before any of them
    has started: no execution takes place and the routing ends with that
    exception. *)
Definition _competitive_routing (env : Env) (t : nat) (task : Task)
  : M unit :=
  let* suitable_agents := _find_suitable_agents task in
  match suitable_agents with
  | [] => set_status t "failed"
  | _ =>
      let selected_agents :=
        take (Nat.min 3 (length suitable_agents)) suitable_agents in
      set_assigned_agents t (agent_ids selected_agents) >>
      if wait_accepts_coroutines env
      then
        let* finished := wait_first_completed env task selected_agents in
        let* result := first_result env finished in
        set_result t result >>
        set_status t (if truthy result then "completed" else "failed") >>
        _complete_task t task
      else
        raise (Exception
                 "Passing coroutines is forbidden, use tasks explicitly.")
  end.

Record Subtask := {
  sub_id : string;
  sub_type : string;
  sub_requirements : Requirements;
  sub_context : Py.dict PyValue }.

Definition _create_subtasks (task : Task) (num_subtasks : nat)
  : list Subtask :=
  map (fun i =>
         {| sub_id := task_id task ++ "_sub_" ++ Py.str_nat i;
            sub_type := task_type task ++ "_part";
            sub_requirements := requirements task;
            sub_context :=
              Py.set "total_subtasks" (VInt (Z.of_nat num_subtasks))
                (Py.set "subtask_index" (VInt (Z.of_nat i)) (context task)) |})
      (seq 0 num_subtasks).

Definition _merge_results (results : list PyValue) : PyValue :=
  VMerged results.

(** The coroutines [self._execute_subtask(agent, subtask)] of
    [_collaborative_routing] run [_execute_on_agent] on a fresh task that
    carries the subtask's id. *)
Definition _collaborative_routing (env : Env) (t : nat) (task : Task)
  : M unit :=
  let* suitable_agents := _find_suitable_agents task in
  match suitable_agents with
  | [] => set_status t "failed"
  | _ =>
      let selected_agents :=
        take (Nat.min 4 (length suitable_agents)) suitable_agents in
      set_assigned_agents t (agent_ids selected_agents) >>
      let subtasks := _create_subtasks task (length selected_agents) in
      let* results :=
        gather_execute (outcome_of env)
          (zip selected_agents (map sub_id subtasks)) in
      let valid := valid_results results in
      (if is_nonempty valid
       then set_result t (_merge_results valid) >> set_status t "completed"
       else set_status t "failed") >>
      _complete_task t task
  end.

Definition route_by (strategy : OrchestrationStrategy)
  : Env -> nat -> Task -> M unit :=
  match strategy with
  | SEQUENTIAL => _sequential_routing
  | PARALLEL => _parallel_routing
  | CONSENSUS => _consensus_routing
  | HIERARCHICAL => _hierarchical_routing
  | COMPETITIVE => _competitive_routing
  | COLLABORATIVE => _collaborative_routing
  | ADAPTIVE => _adaptive_routing
  end.

Definition _route_task (env : Env) (t : nat) (task : Task) : M unit :=
  try_except
    (let* o := get in route_by (strategy o) env t task)
    (fun _ => set_status t "failed").

(** ** The queue consumer and the public interface *)

(** The event loop delivers the requested cancellations: each cancelled
    coroutine is resumed with CancelledError and unwinds. *)
Definition deliver_cancellations : M unit :=
  let* o := get in
  match cancelling o with
  | [] => ret tt
  | pending =>
      suspend >>
      for_each pending
        (fun a => settled (execute_resume Cancelled a EmptyString) >> ret tt) >>
      modify (with_cancelling [])
  end.

(** One iteration of the [while self._running] loop of
    [_process_task_queue], followed by the turn of the event loop that the
    next [await] of the consumer gives (the loop takes it whatever became
    of the consumer). An empty queue is the time-out. *)
Definition process_next (env : Env) : M unit :=
  try_finally
    (let* o := get in
     if _running o
     then
       match task_queue o with
       | [] => ret tt
       | t :: rest =>
           modify (with_task_queue rest) >>
           match tasks o !! t with
           | Some task => try_except (_route_task env t task) (fun _ => ret tt)
           | None => ret tt
           end
       end
     else ret tt)
    deliver_cancellations.

Record Status := {
  status_running : bool;
  status_total_agents : nat;
  status_active_agents : nat;
  status_active_tasks : nat;
  status_completed_tasks : nat;
  status_queue_size : nat;
  status_strategy : OrchestrationStrategy;
  status_agents : list (string * (list string * Q * (Z * Z) * bool)) }.

Definition get_status (o : ThinkMeshOrchestrator) : Status :=
  {| status_running := _running o;
     status_total_agents := length (agents o);
     status_active_agents :=
       length (List.filter availability (Py.values (agents o)));
     status_active_tasks := length (active_tasks o);
     status_completed_tasks := length (completed_tasks o);
     status_queue_size := length (task_queue o);
     status_strategy := strategy o;
     status_agents :=
       map (fun kv =>
              (fst kv,
               (specializations (snd kv), performance_score (snd kv),
                (current_load (snd kv), max_load (snd kv)),
                availability (snd kv))))
           (agents o) |}.

(** [initialize]: every call creates one more task that runs
    [_process_task_queue]. *)
Definition initialize : M unit :=
  modify (with_running true) >>
  modify (fun o => with_consumers (S (consumers o)) o).

(** The calls the collaborators make, and the iterations of the queue
    consumer, in the order in which the event loop runs them. An
    iteration is run up to the end of its routing before the next call
    or iteration starts, which is how a single consumer task proceeds;
    the consumer tasks of several [initialize] calls can also overlap
    their routings, and a history does not describe those runs. *)
Inductive Call :=
| Initialize
| Shutdown
| RegisterAgent (agent_id : string) (specializations : list string)
    (capabilities : Capabilities)
| UnregisterAgent (agent_id : string)
| SetStrategy (strategy : OrchestrationStrategy)
| SubmitTask (uuid now task_type : string) (requirements : Requirements)
    (context : Py.dict PyValue) (priority : TaskPriority)
    (deadline : option Q)
| ProcessNext (env : Env).

Definition perform (c : Call) : M unit :=
  match c with
  | Initialize => initialize
  | Shutdown => modify (with_running false)
  | RegisterAgent agent_id specializations capabilities =>
      register_agent agent_id specializations capabilities >> ret tt
  | UnregisterAgent agent_id => unregister_agent agent_id >> ret tt
  | SetStrategy strategy => set_strategy strategy
  | SubmitTask uuid now task_type requirements context priority deadline =>
      submit_task uuid now task_type requirements context priority deadline
      >> ret tt
  | ProcessNext env => process_next env
  end.

(** A history of the orchestrator: after every call the state is
    observable. *)
Definition run (calls : list Call) : M unit :=
  for_each calls (fun c => perform c >> suspend).

End Routing.

(* ------------------------------------------------------------------ *)
(** ** Facts about the building blocks *)
(* ------------------------------------------------------------------ *)

Lemma lookup_update_agent i f o j :
  agents (update_agent i f o) !! j
  = if decide (i = j)
    then (fun kv => (fst kv, f (snd kv))) <$> agents o !! i
    else agents o !! j.
Proof. unfold update_agent. cbn. apply list_lookup_alter. Qed.

Lemma lookup_update_agent_eq i f o k a :
  agents o !! i = Some (k, a) ->
  agents (update_agent i f o) !! i = Some (k, f a).
Proof.
  intros H. rewrite lookup_update_agent.
  destruct (decide (i = i)) as [_|Hne]; [|congruence].
  rewrite H. reflexivity.
Qed.

(** The state change of the part of [_execute_on_agent] that follows its
    [await], and the value or exception it ends with. *)
Definition settle (outcome : Outcome) (i : nat) (o : ThinkMeshOrchestrator)
  : ThinkMeshOrchestrator :=
  update_agent i (add_load (-1))
    match outcome with
    | Completes _ => update_agent i reward o
    | Fails _ => update_agent i penalize o
    | Cancelled => o
    end.

Definition outcome_value (outcome : Outcome) (agent : AgentRef)
  (task_id : string) : PyValue + Exn :=
  match outcome with
  | Completes timestamp =>
      inl (VResult (agent_id (snd agent)) task_id timestamp)
  | Fails msg => inr (Exception msg)
  | Cancelled => inr CancelledError
  end.

Lemma execute_resume_run outcome agent task_id s :
  execute_resume outcome agent task_id s
  = MkRun (outcome_value outcome agent task_id)
          (settle outcome (fst agent) s) [].
Proof. destruct outcome; reflexivity. Qed.

Lemma execute_on_agent_run outcome agent task_id s :
  _execute_on_agent outcome agent task_id s
  = MkRun (outcome_value outcome agent task_id)
          (settle outcome (fst agent)
             (update_agent (fst agent) (add_load 1) s))
          [update_agent (fst agent) (add_load 1) s].
Proof. destruct outcome; reflexivity. Qed.

Lemma reward_bounded a :
  0 <= performance_score a -> performance_score a <= 1 ->
  0 <= performance_score (reward a) /\ performance_score (reward a) <= 1.
Proof.
  intros H0 H1. cbn [reward performance_score with_performance_score]. split.
  - apply Py.min_glb; [discriminate|].
    unfold Py.fadd. apply Py.float_nonneg.
    assert (Hc : 0 <= Py.float 0.01) by (apply Py.float_nonneg; discriminate).
    lra.
  - apply Qle_trans with 1.0; [apply Py.min_le_l | discriminate].
Qed.

Lemma penalize_bounded a :
  0 <= performance_score a -> performance_score a <= 1 ->
  0 <= performance_score (penalize a)
  /\ performance_score (penalize a) <= 1.
Proof.
  intros H0 H1. cbn [penalize performance_score with_performance_score]. split.
  - apply Qle_trans with 0.0; [discriminate | apply Py.max_ge_l].
  - apply Py.max_lub; [discriminate|].
    unfold Py.fsub.
    assert (Hc : 0 <= Py.float 0.05) by (apply Py.float_nonneg; discriminate).
    assert (E : Py.float 1 == 1) by (vm_compute; reflexivity).
    rewrite <- E. apply Py.float_le_compat. lra.
Qed.

(** C2. Whenever an agent's [performance_score] lies in [0,1], it still
    does after [_execute_on_agent] has run on that agent: on success the
    score becomes [min(1.0, score + 0.01)], on failure
    [max(0.0, score - 0.05)], the sum and the difference being those of
    floating-point arithmetic (and a cancelled execution leaves the score
    as it is). *)
Theorem performance_score_stays_in_unit_interval
  (outcome : Outcome) (agent : AgentRef) (task_id : string)
  (s : ThinkMeshOrchestrator) (k : string) (a : AgentCapability) :
  agents s !! fst agent = Some (k, a) ->
  0 <= performance_score a -> performance_score a <= 1 ->
  exists a',
    agents (final (_execute_on_agent outcome agent task_id s)) !! fst agent
    = Some (k, a')
    /\ 0 <= performance_score a' /\ performance_score a' <= 1
    /\ performance_score a'
       = match outcome with
         | Completes _ =>
             Py.min 1.0 (Py.fadd (performance_score a) (Py.float 0.01))
         | Fails _ =>
             Py.max 0.0 (Py.fsub (performance_score a) (Py.float 0.05))
         | Cancelled => performance_score a
         end.
Proof.
  intros Hlook H0 H1. rewrite execute_on_agent_run. cbn [final].
  pose proof (lookup_update_agent_eq (add_load 1) Hlook) as Hstart.
  unfold settle. destruct outcome as [ts|msg|].
  - exists (add_load (-1) (reward (add_load 1 a))). split.
    + apply lookup_update_agent_eq, lookup_update_agent_eq, Hstart.
    + split; [|split]; [apply (reward_bounded (a:=a)) ..|]; auto.
  - exists (add_load (-1) (penalize (add_load 1 a))). split.
    + apply lookup_update_agent_eq, lookup_update_agent_eq, Hstart.
    + split; [|split]; [apply (penalize_bounded (a:=a)) ..|]; auto.
  - exists (add_load (-1) (add_load 1 a)). split.
    + apply lookup_update_agent_eq, Hstart.
    + auto.
Qed.

(** *** The router *)

Lemma mem_true_iff (s : string) (l : list string) :
  mem s l = true <-> s ∈ l.
Proof.
  unfold mem. rewrite existsb_exists. split.
  - intros (x & Hx & E). apply String.eqb_eq in E. subst x.
    apply list_elem_of_In, Hx.
  - intros H. exists s. split; [apply list_elem_of_In, H|].
    apply String.eqb_refl.
Qed.


Lemma elem_of_enumerate (d : Py.dict AgentCapability) i a :
  (i, a) ∈ enumerate d <-> exists k, d !! i = Some (k, a).
Proof.
  unfold enumerate, Py.values. rewrite list_elem_of_lookup. split.
  - intros (n & Hn). apply lookup_zip_Some in Hn as (Hseq & Hval).
    apply lookup_seq in Hseq as (-> & _). cbn in Hval.
    change (map snd d) with (snd <$> d) in Hval.
    rewrite list_lookup_fmap in Hval.
    destruct (d !! n) as [[k a']|] eqn:E; simplify_eq/=.
    exists k. exact E.
  - intros (k & Hk). exists i. apply lookup_zip_Some. split.
    + apply lookup_seq. split; [reflexivity|].
      apply lookup_lt_Some in Hk. exact Hk.
    + change (map snd d) with (snd <$> d).
      rewrite list_lookup_fmap, Hk. reflexivity.
Qed.

Lemma zip_seq_sorted {B} (l : list B) j :
  StronglySorted (fun x y : nat * B => (fst x < fst y)%nat)
    (zip (seq j (length l)) l)
  /\ Forall (fun x : nat * B => (j <= fst x)%nat) (zip (seq j (length l)) l).
Proof.
  revert j. induction l as [|b l IH]; intros j; cbn.
  - split; constructor.
  - destruct (IH (S j)) as [Hs Hf]. split.
    + constructor; [exact Hs|].
      eapply Forall_impl; [exact Hf|]. cbn. intros x Hx. lia.
    + constructor; [cbn; lia|].
      eapply Forall_impl; [exact Hf|]. cbn. intros x Hx. lia.
Qed.

Lemma enumerate_sorted (d : Py.dict AgentCapability) :
  StronglySorted (fun x y : AgentRef => (fst x < fst y)%nat) (enumerate d).
Proof.
  unfold enumerate, Py.values.
  rewrite <- (length_map snd d). apply zip_seq_sorted.
Qed.

Lemma filter_sorted {B} (R : B -> B -> Prop) (P : B -> Prop)
  `{forall x, Decision (P x)} (l : list B) :
  StronglySorted R l -> StronglySorted R (filter P l).
Proof.
  induction 1 as [|x l Hs IH Hx]; [constructor|].
  rewrite filter_cons. destruct (decide (P x)); [|exact IH].
  constructor; [exact IH|].
  rewrite Forall_forall in Hx |- *. intros y Hy.
  apply list_elem_of_filter in Hy as [_ Hy]. apply Hx, Hy.
Qed.

(** The ranking of the router: larger load-weighted score first, and for
    equal scores the agent registered first. *)
Definition ranked : list AgentRef -> Prop :=
  StronglySorted (Py.ranks_before (fun r => load_key (snd r)) fst).

(** The agents the loop of [_find_suitable_agents] appends, in the order
    of the registry. *)
Definition kept_agents (task : Task) (s : ThinkMeshOrchestrator)
  : list AgentRef :=
  filter (fun r => is_suitable (req_specializations (requirements task))
                     (snd r) = true)
    (enumerate (agents s)).

Lemma find_suitable_agents_run task s :
  _find_suitable_agents task s
  = if existsb (fun r : AgentRef => (max_load (snd r) =? 0)%Z)
         (kept_agents task s)
    then MkRun (inr (Exception "division by zero")) s []
    else MkRun (inl (Py.sort_desc (fun r => load_key (snd r))
                       (kept_agents task s))) s [].
Proof.
  unfold _find_suitable_agents, bind, get, kept_agents.
  cbn [value final seen].
  destruct (existsb _ _); reflexivity.
Qed.

Lemma find_suitable_agents_returns task s suitable :
  value (_find_suitable_agents task s) = inl suitable ->
  _find_suitable_agents task s = MkRun (inl suitable) s []
  /\ suitable
     = Py.sort_desc (fun r => load_key (snd r)) (kept_agents task s).
Proof.
  rewrite find_suitable_agents_run.
  destruct (existsb _ _); cbn; intros H; [discriminate|].
  injection H as <-. split; reflexivity.
Qed.

Lemma find_suitable_agents_value task s s' :
  agents s' = agents s ->
  value (_find_suitable_agents task s')
  = value (_find_suitable_agents task s).
Proof.
  intros H. rewrite !find_suitable_agents_run. unfold kept_agents.
  rewrite H. destruct (existsb _ _); reflexivity.
Qed.

Lemma elem_of_kept_agents task s i a :
  (i, a) ∈ kept_agents task s
  <-> (exists k, agents s !! i = Some (k, a))
      /\ is_suitable (req_specializations (requirements task)) a = true.
Proof.
  unfold kept_agents. rewrite list_elem_of_filter, elem_of_enumerate.
  cbn [snd]. tauto.
Qed.

Lemma elem_of_suitable task s suitable i a :
  value (_find_suitable_agents task s) = inl suitable ->
  (i, a) ∈ suitable
  <-> (exists k, agents s !! i = Some (k, a))
      /\ is_suitable (req_specializations (requirements task)) a = true.
Proof.
  intros H. apply find_suitable_agents_returns in H as [_ ->].
  rewrite Py.elem_of_sort_desc. apply elem_of_kept_agents.
Qed.

Lemma suitable_ranked task s suitable :
  value (_find_suitable_agents task s) = inl suitable -> ranked suitable.
Proof.
  intros H. apply find_suitable_agents_returns in H as [_ ->].
  unfold ranked. apply Py.sort_desc_ranked.
  unfold kept_agents. apply filter_sorted, enumerate_sorted.
Qed.


(** *** The registry *)

Lemma get_set {V} (k : string) (v : V) (d : Py.dict V) :
  Py.get k (Py.set k v d) = Some v.
Proof.
  induction d as [|[k' v'] d IH]; cbn.
  - rewrite String.eqb_refl. reflexivity.
  - destruct (String.eqb k k') eqn:E; cbn; rewrite ?String.eqb_refl, ?E;
      [reflexivity | exact IH].
Qed.

(** C9 as stated fails: a registration with [max_load = 0] (or a negative
    [max_load]) returns [True] and the agent is in the registry. *)
Lemma register_agent_accepts_zero_max_load :
  let zero :=
    {| cap_performance_score := None; cap_max_load := Some 0%Z;
       cap_skills := None |} in
  let negative :=
    {| cap_performance_score := None; cap_max_load := Some (-3)%Z;
       cap_skills := None |} in
  value (register_agent "w" ["executor"%string] zero initial) = inl true
  /\ option_map max_load
       (Py.get "w"
          (agents (final (register_agent "w" ["executor"%string] zero
                            initial)))) = Some 0%Z
  /\ value (register_agent "w" ["executor"%string] negative initial)
     = inl true
  /\ option_map max_load
       (Py.get "w"
          (agents (final (register_agent "w" ["executor"%string] negative
                            initial)))) = Some (-3)%Z.
Proof. repeat split; reflexivity. Qed.

(** C9, amended. A registration request whose [max_load] is [<= 0] does
    not fail: [register_agent] returns [True] and stores the agent under
    its id, available, with load 0 and the [max_load] given. The router
    [_find_suitable_agents] never returns the stored agent record: its
    load is not below its [max_load]. *)
Theorem register_agent_accepts_nonpositive_max_load
  (agent_id : string) (specializations : list string)
  (capabilities : Capabilities) (s : ThinkMeshOrchestrator) (m : Z) :
  cap_max_load capabilities = Some m -> (m <= 0)%Z ->
  let r := register_agent agent_id specializations capabilities s in
  value r = inl true
  /\ seen r = []
  /\ exists a,
       Py.get agent_id (agents (final r)) = Some a
       /\ Orchestrator.agent_id a = agent_id
       /\ max_load a = m /\ current_load a = 0%Z
       /\ availability a = true
       /\ (forall required, is_suitable required a = false)
       /\ (forall task suitable i,
             value (_find_suitable_agents task (final r)) = inl suitable ->
             (i, a) ∉ suitable).
Proof.
  intros Hm Hle. cbv zeta. unfold register_agent, bind, modify, ret.
  cbn [value final seen app]. rewrite Hm. cbn [default].
  do 2 (split; [reflexivity|]). eexists. split; [apply get_set|].
  cbn [Orchestrator.agent_id max_load current_load availability].
  do 4 (split; [reflexivity|]).
  assert (Hno : forall required,
             is_suitable required
               {| Orchestrator.agent_id := agent_id;
                  Orchestrator.specializations := specializations;
                  performance_score :=
                    Py.float
                      (default 0.5 (cap_performance_score capabilities));
                  availability := true; current_load := 0; max_load := m;
                  skills := default [] (cap_skills capabilities) |}
             = false).
  { intros required. unfold is_suitable. cbn.
    destruct (Z.leb_spec m 0); [reflexivity | lia]. }
  split; [exact Hno|].
  intros task suitable i Hv Hin.
  apply (elem_of_suitable i _ Hv) in Hin as [_ Hs].
  rewrite Hno in Hs. discriminate.
Qed.

Lemma register_agent_accepts_nonpositive_max_load_witness :
  let r :=
    register_agent "w" ["executor"%string]
      {| cap_performance_score := None; cap_max_load := Some 0%Z;
         cap_skills := None |} initial in
  value r = inl true
  /\ seen r = []
  /\ exists a,
       Py.get "w" (agents (final r)) = Some a
       /\ Orchestrator.agent_id a = "w"%string
       /\ max_load a = 0%Z /\ current_load a = 0%Z
       /\ availability a = true
       /\ (forall required, is_suitable required a = false)
       /\ (forall task suitable i,
             value (_find_suitable_agents task (final r)) = inl suitable ->
             (i, a) ∉ suitable).
Proof.
  apply (register_agent_accepts_nonpositive_max_load "w"
           ["executor"%string]
           (capabilities :=
              {| cap_performance_score := None; cap_max_load := Some 0%Z;
                 cap_skills := None |}) initial (m := 0%Z)).
  - reflexivity.
  - lia.
Defined.

(** *** The consensus aggregator *)

(** The keys of a counter are the distinct items in the order of their
    first occurrence. *)
Definition note_first (acc : list string) (x : string) : list string :=
  if mem x acc then acc else acc ++ [x].

Definition first_occurrences (items : list string) : list string :=
  fold_left note_first items [].

(** The counter in closed form: every distinct item with the number of its
    occurrences. *)
Definition tally (items : list string) : Py.dict nat :=
  map (fun k => (k, count_occ string_dec items k)) (first_occurrences items).

Lemma note_first_prefix b acc :
  exists rest, fold_left note_first b acc = acc ++ rest.
Proof.
  revert acc. induction b as [|x b IH]; intros acc; cbn.
  - exists []. rewrite app_nil_r. reflexivity.
  - unfold note_first at 2. destruct (mem x acc).
    + apply IH.
    + destruct (IH (acc ++ [x])) as [rest ->].
      exists (x :: rest). rewrite <- app_assoc. reflexivity.
Qed.

Lemma elem_of_note_first b acc x :
  x ∈ fold_left note_first b acc <-> x ∈ acc \/ x ∈ b.
Proof.
  revert acc. induction b as [|y b IH]; intros acc; cbn.
  - rewrite elem_of_nil. tauto.
  - rewrite IH, elem_of_cons. unfold note_first.
    destruct (mem y acc) eqn:E.
    + apply mem_true_iff in E. split; [tauto|].
      intros [H|[->|H]]; tauto.
    + rewrite elem_of_app, list_elem_of_singleton. tauto.
Qed.

Lemma NoDup_note_first b acc :
  NoDup acc -> NoDup (fold_left note_first b acc).
Proof.
  revert acc. induction b as [|y b IH]; intros acc Hacc; cbn; [exact Hacc|].
  apply IH. unfold note_first. destruct (mem y acc) eqn:E; [exact Hacc|].
  apply NoDup_app. split; [exact Hacc|]. split; [|apply NoDup_singleton].
  intros x Hx Hy. apply list_elem_of_singleton in Hy as ->.
  apply mem_true_iff in Hx. congruence.
Qed.

Lemma elem_of_first_occurrences items x :
  x ∈ first_occurrences items <-> x ∈ items.
Proof.
  unfold first_occurrences. rewrite elem_of_note_first, elem_of_nil. tauto.
Qed.

Lemma first_occurrences_split a k b :
  k ∉ a ->
  exists rest,
    first_occurrences (a ++ k :: b) = first_occurrences a ++ k :: rest.
Proof.
  intros Hk. unfold first_occurrences. rewrite fold_left_app. cbn.
  unfold note_first at 2.
  destruct (mem k (fold_left note_first a [])) eqn:E.
  - apply mem_true_iff in E.
    apply (proj1 (elem_of_first_occurrences a k)) in E. contradiction.
  - destruct (note_first_prefix b (fold_left note_first a [] ++ [k]))
      as [rest ->].
    exists rest. rewrite <- app_assoc. reflexivity.
Qed.

Section Keyed.
Context (h : string -> nat).

Lemma get_keyed x ks :
  Py.get x (map (fun k => (k, h k)) ks)
  = if mem x ks then Some (h x) else None.
Proof.
  induction ks as [|k ks IH]; cbn; [reflexivity|].
  destruct (String.eqb x k) eqn:E; cbn; [|exact IH].
  apply String.eqb_eq in E. subst k. reflexivity.
Qed.

Lemma set_keyed_absent x v ks :
  mem x ks = false ->
  Py.set x v (map (fun k => (k, h k)) ks)
  = map (fun k => (k, h k)) ks ++ [(x, v)].
Proof.
  induction ks as [|k ks IH]; cbn; [reflexivity|].
  destruct (String.eqb x k) eqn:E; cbn; [discriminate|].
  intros H. rewrite IH by exact H. reflexivity.
Qed.

Lemma set_keyed_present x v ks :
  NoDup ks -> x ∈ ks ->
  Py.set x v (map (fun k => (k, h k)) ks)
  = map (fun k => (k, if String.eqb x k then v else h k)) ks.
Proof.
  induction ks as [|k ks IH]; intros Hnd Hx; cbn.
  - apply elem_of_nil in Hx. destruct Hx.
  - apply NoDup_cons in Hnd as [Hk Hnd].
    destruct (String.eqb x k) eqn:E.
    + apply String.eqb_eq in E. subst k. f_equal.
      apply map_ext_in. intros k' Hk'.
      destruct (String.eqb x k') eqn:E'; [|reflexivity].
      apply String.eqb_eq in E'. subst k'.
      apply list_elem_of_In in Hk'. contradiction.
    + f_equal. apply IH; [exact Hnd|].
      apply elem_of_cons in Hx as [->|Hx]; [|exact Hx].
      rewrite String.eqb_refl in E. discriminate.
Qed.

End Keyed.

Lemma Counter_tally items : Counter items = tally items.
Proof.
  induction items as [|x items IH] using rev_ind; [reflexivity|].
  unfold Counter, tally, first_occurrences in *.
  rewrite !fold_left_app. cbn [fold_left]. rewrite IH.
  set (ks := fold_left note_first items []).
  assert (Hks : forall k, k ∈ ks <-> k ∈ items)
    by (intros k; apply elem_of_first_occurrences).
  unfold count_element, note_first. rewrite get_keyed.
  destruct (mem x ks) eqn:E; cbn [default].
  - rewrite set_keyed_present;
      [|apply NoDup_note_first, NoDup_nil_2 | apply mem_true_iff, E].
    apply map_ext. intros k. rewrite count_occ_app. cbn.
    destruct (string_dec x k) as [->|Hne].
    + rewrite String.eqb_refl. reflexivity.
    + destruct (String.eqb_spec x k); [contradiction|].
      rewrite Nat.add_0_r. reflexivity.
  - rewrite set_keyed_absent by exact E.
    assert (Hx : x ∉ items).
    { intros H. apply Hks, mem_true_iff in H. congruence. }
    rewrite map_app. cbn [map]. f_equal.
    + apply map_ext_in. intros k Hk. rewrite count_occ_app. cbn.
      destruct (string_dec x k) as [->|Hne]; [|rewrite Nat.add_0_r; reflexivity].
      apply list_elem_of_In, Hks in Hk. contradiction.
    + rewrite count_occ_app. cbn.
      destruct (string_dec x x) as [_|Hne]; [|contradiction].
      assert (H0 : count_occ string_dec items x = 0%nat).
      { apply count_occ_not_In. rewrite <- list_elem_of_In. exact Hx. }
      rewrite H0. reflexivity.
Qed.

(** [first_max] returns the first entry whose count is maximal. *)
Lemma first_max_first (best : string * nat) l :
  exists pre post,
    best :: l = pre ++ first_max best l :: post
    /\ Forall (fun x => (snd x < snd (first_max best l))%nat) pre
    /\ Forall (fun x => (snd x <= snd (first_max best l))%nat) post.
Proof.
  revert best. induction l as [|x l IH]; intros best; cbn [first_max].
  - exists [], []. repeat split; constructor.
  - destruct (Nat.ltb_spec (snd best) (snd x)) as [Hlt|Hge].
    + destruct (IH x) as (pre & post & Heq & Hpre & Hpost).
      exists (best :: pre), post. split; [cbn; f_equal; exact Heq|].
      split; [|exact Hpost]. constructor; [|exact Hpre].
      assert (Hx : (snd x <= snd (first_max x l))%nat).
      { assert (Hin : x ∈ pre ++ first_max x l :: post)
          by (rewrite <- Heq; apply elem_of_cons; left; reflexivity).
        apply elem_of_app in Hin as [Hin|Hin].
        - rewrite Forall_forall in Hpre. apply Nat.lt_le_incl, Hpre, Hin.
        - apply elem_of_cons in Hin as [Hin|Hin];
            [rewrite <- Hin; apply Nat.le_refl|].
          rewrite Forall_forall in Hpost. apply Hpost, Hin. }
      lia.
    + destruct (IH best) as (pre & post & Heq & Hpre & Hpost).
      destruct pre as [|p pre]; cbn in Heq.
      * injection Heq as Hb Hl. exists [], (x :: l).
        split; [cbn; rewrite <- Hb; reflexivity|].
        split; [constructor|]. rewrite <- Hl in Hpost.
        rewrite <- Hb in Hpost |- *.
        constructor; [exact Hge | exact Hpost].
      * injection Heq as Hp Hl. subst p. exists (best :: x :: pre), post.
        split; [cbn; do 2 f_equal; exact Hl|]. split; [|exact Hpost].
        apply Forall_cons in Hpre as [Hb Hpre].
        constructor; [exact Hb|]. constructor; [lia | exact Hpre].
Qed.

Lemma find_first {B} (p : B -> bool) (l : list B) x :
  List.find p l = Some x ->
  exists a b, l = a ++ x :: b /\ p x = true
              /\ Forall (fun y => p y = false) a.
Proof.
  induction l as [|y l IH]; cbn; [discriminate|].
  destruct (p y) eqn:E.
  - intros H. injection H as <-. exists [], l. repeat split; auto.
  - intros H. destruct (IH H) as (a & b & -> & Hx & Ha).
    exists (y :: a), b. repeat split; auto.
Qed.

Lemma find_exists {B} (p : B -> bool) (l : list B) y :
  y ∈ l -> p y = true -> exists x, List.find p l = Some x.
Proof.
  induction l as [|z l IH]; intros Hin Hy.
  - apply elem_of_nil in Hin. destruct Hin.
  - cbn. destruct (p z) eqn:E; [eauto|].
    apply elem_of_cons in Hin as [->|Hin]; [congruence|]. apply IH; auto.
Qed.

Lemma NoDup_split_unique {B} (k : B) p1 q1 p2 q2 :
  NoDup (p1 ++ k :: q1) -> p1 ++ k :: q1 = p2 ++ k :: q2 -> p1 = p2.
Proof.
  revert p2. induction p1 as [|x p1 IH]; intros [|y p2] Hnd H2; cbn in *.
  - reflexivity.
  - injection H2 as <- ->. apply NoDup_cons in Hnd as [Hk _].
    exfalso. apply Hk. apply elem_of_app. right. apply elem_of_cons. auto.
  - injection H2 as -> <-. apply NoDup_cons in Hnd as [Hk _].
    exfalso. apply Hk. apply elem_of_app. right. apply elem_of_cons. auto.
  - injection H2 as <- H2. apply NoDup_cons in Hnd as [_ Hnd].
    f_equal. apply IH; assumption.
Qed.

Section ConsensusFacts.
Context {A : Type} (str : A -> string).

(** The number of results whose stringification is that of [r]. *)
Definition votes (results : list A) (r : A) : nat :=
  count_occ string_dec (map str results) (str r).

(** The aggregator returns the first result, in input order, among those
    with the largest number of votes. *)
Lemma achieve_consensus_first_most_frequent (r0 : A) (rest : list A) :
  exists r before after,
    _achieve_consensus str (r0 :: rest) = Some r
    /\ r0 :: rest = before ++ r :: after
    /\ Forall (fun x => (votes (r0 :: rest) x < votes (r0 :: rest) r)%nat)
         before
    /\ Forall (fun x => (votes (r0 :: rest) x <= votes (r0 :: rest) r)%nat)
         after.
Proof.
  set (results := r0 :: rest). set (items := map str results).
  unfold _achieve_consensus. cbn [is_nonempty negb results].
  fold results. fold items. rewrite Counter_tally.
  assert (Hne : exists e c, tally items = e :: c).
  { unfold tally.
    destruct (first_occurrences items) as [|k ks] eqn:E; cbn; [|eauto].
    assert (H : str r0 ∈ first_occurrences items)
      by (apply elem_of_first_occurrences, elem_of_cons; left; reflexivity).
    rewrite E in H. apply elem_of_nil in H. destruct H. }
  destruct Hne as (e & c & Hc). rewrite Hc. cbn [most_common_1].
  destruct (first_max_first e c) as (pre & post & Heq & Hpre & Hpost).
  destruct (first_max e c) as [k n] eqn:Hmax. cbn [snd] in Hpre, Hpost.
  rewrite <- Hc in Heq.
  (* the winning key is the stringification of some result *)
  assert (Hentry : forall y m, (y, m) ∈ tally items ->
            y ∈ items /\ m = count_occ string_dec items y).
  { intros y m H. unfold tally in H.
    change (map ?f ?l) with (f <$> l) in H.
    apply list_elem_of_fmap in H as (y' & Hy & Hin). injection Hy as -> ->.
    split; [apply elem_of_first_occurrences, Hin | reflexivity]. }
  assert (Hk : (k, n) ∈ tally items).
  { rewrite Heq. apply elem_of_app. right. apply elem_of_cons. auto. }
  destruct (Hentry _ _ Hk) as [Hkin ->].
  unfold items in Hkin. change (map str results) with (str <$> results) in Hkin.
  apply list_elem_of_fmap in Hkin as (rk & Hrk & Hrkin).
  destruct (@find_exists _ (fun r => String.eqb (str r) k) _ _ Hrkin)
    as [r Hr].
  { rewrite Hrk. apply String.eqb_refl. }
  unfold first_with_str. rewrite Hr.
  destruct (find_first Hr) as (before & after & Hsplit & Hstr & Hbefore).
  apply String.eqb_eq in Hstr.
  exists r, before, after. split; [reflexivity|]. split; [exact Hsplit|].
  unfold votes. fold results. fold items. rewrite Hstr.
  (* every entry of the counter is bounded by the winner *)
  assert (Hall : forall y, y ∈ items ->
            (count_occ string_dec items y <= count_occ string_dec items k)%nat).
  { intros y Hy.
    assert (Hin : (y, count_occ string_dec items y) ∈ tally items).
    { unfold tally. change (map ?f ?l) with (f <$> l).
      apply list_elem_of_fmap. exists y. split; [reflexivity|].
      apply elem_of_first_occurrences, Hy. }
    rewrite Heq in Hin. apply elem_of_app in Hin as [Hin|Hin].
    - rewrite Forall_forall in Hpre. apply Nat.lt_le_incl, (Hpre _ Hin).
    - apply elem_of_cons in Hin as [Hin|Hin].
      + injection Hin as -> _. lia.
      + rewrite Forall_forall in Hpost. apply (Hpost _ Hin). }
  split.
  - (* before the winner: strictly fewer votes *)
    assert (Hka : k ∉ map str before).
    { intros H. change (map str before) with (str <$> before) in H.
      apply list_elem_of_fmap in H as (y & Hy & Hin).
      rewrite Forall_forall in Hbefore. specialize (Hbefore _ Hin).
      cbn in Hbefore. rewrite <- Hy, String.eqb_refl in Hbefore.
      discriminate. }
    assert (Hitems : items = map str before ++ k :: map str after).
    { unfold items. rewrite Hsplit, map_app. cbn. rewrite Hstr.
      reflexivity. }
    destruct (first_occurrences_split (map str after) Hka) as [more Hfo].
    rewrite <- Hitems in Hfo.
    assert (Hkeys : map fst pre = first_occurrences (map str before)).
    { assert (Hfst : first_occurrences items
                     = map fst pre ++ k :: map fst post).
      { transitivity (map fst (tally items)).
        - unfold tally. rewrite map_map. cbn. symmetry. apply map_id.
        - rewrite Heq, map_app. reflexivity. }
      apply (NoDup_split_unique (k := k) (q1 := map fst post) (q2 := more)).
      - rewrite <- Hfst. apply NoDup_note_first, NoDup_nil_2.
      - rewrite <- Hfst. exact Hfo. }
    rewrite Forall_forall. intros x Hx.
    assert (Hsx : str x ∈ map fst pre).
    { rewrite Hkeys. apply elem_of_first_occurrences.
      change (map str before) with (str <$> before).
      apply list_elem_of_fmap. eauto. }
    change (map fst pre) with (fst <$> pre) in Hsx.
    apply list_elem_of_fmap in Hsx as ([y m] & Hy & Hin). cbn in Hy. subst y.
    assert (Hm : (str x, m) ∈ tally items).
    { rewrite Heq. apply elem_of_app. left. exact Hin. }
    destruct (Hentry _ _ Hm) as [_ ->].
    rewrite Forall_forall in Hpre. apply (Hpre _ Hin).
  - rewrite Forall_forall. intros x Hx. apply Hall.
    unfold items. change (map str results) with (str <$> results).
    apply list_elem_of_fmap. exists x. split; [reflexivity|].
    rewrite Hsplit. apply elem_of_app. right. apply elem_of_cons. auto.
Qed.

End ConsensusFacts.

(** C4. For every non-empty list of results the consensus aggregator
    stringifies the results, counts the occurrences and returns the most
    frequent one; on a tie it returns the one that appears first in the
    input: the result returned is in the list, every result before it has
    strictly fewer votes and every result after it has at most as many.
    For the five results "A", "A", "B", "A", "C" it returns "A". *)
Theorem consensus_majority_first_wins :
  (forall (A : Type) (str : A -> string) (r0 : A) (rest : list A),
     exists r before after,
       _achieve_consensus str (r0 :: rest) = Some r
       /\ r0 :: rest = before ++ r :: after
       /\ Forall (fun x => (votes str (r0 :: rest) x
                            < votes str (r0 :: rest) r)%nat) before
       /\ Forall (fun x => (votes str (r0 :: rest) x
                            <= votes str (r0 :: rest) r)%nat) after)
  /\ _achieve_consensus (fun r : string => r)
       ["A"; "A"; "B"; "A"; "C"]%string = Some "A"%string
  /\ _achieve_consensus (fun r : string => r)
       ["B"; "A"; "B"; "A"; "C"]%string = Some "B"%string.
Proof.
  split; [|split; reflexivity].
  intros A str r0 rest. apply achieve_consensus_first_most_frequent.
Qed.

(** *** Loads *)

(** The load of every registered agent, in the order of the registry. *)
Definition loads (s : ThinkMeshOrchestrator) : list Z :=
  (fun kv => current_load (snd kv)) <$> agents s.

(** [d] added at every position of [positions], once per occurrence. *)
Definition shift (d : Z) (positions : list nat) (v : list Z) : list Z :=
  fold_left (fun v i => alter (fun z => (z + d)%Z) i v) positions v.

(** The loads once the cancellations the event loop still has to deliver
    have unwound. *)
Definition balance (s : ThinkMeshOrchestrator) : list Z :=
  shift (-1) (fst <$> cancelling s) (loads s).

Definition begin_all (positions : list nat) (s : ThinkMeshOrchestrator)
  : ThinkMeshOrchestrator :=
  fold_left (fun s i => update_agent i (add_load 1) s) positions s.

Definition settle_all (env : nat -> Outcome) (positions : list nat)
  (s : ThinkMeshOrchestrator) : ThinkMeshOrchestrator :=
  fold_left (fun s i => settle (env i) i s) positions s.

Lemma shift_lookup d positions v j :
  shift d positions v !! j
  = (fun z => (z + d * Z.of_nat (count_occ Nat.eq_dec positions j))%Z)
      <$> v !! j.
Proof.
  unfold shift. revert v.
  induction positions as [|i positions IH]; intros v; cbn [fold_left].
  - cbn. destruct (v !! j); cbn; [f_equal; lia | reflexivity].
  - rewrite IH, list_lookup_alter. cbn [count_occ].
    destruct (decide (i = j)) as [->|Hne].
    + destruct (Nat.eq_dec j j) as [_|Hjj]; [|contradiction].
      destruct (v !! j); cbn; [f_equal; lia | reflexivity].
    + destruct (Nat.eq_dec i j) as [Heq|_]; [contradiction|]. reflexivity.
Qed.

Lemma shift_app d l1 l2 v : shift d (l1 ++ l2) v = shift d l2 (shift d l1 v).
Proof. unfold shift. apply fold_left_app. Qed.

Lemma shift_undo positions v : shift (-1) positions (shift 1 positions v) = v.
Proof.
  apply list_eq. intros j. rewrite !shift_lookup.
  destruct (v !! j); cbn; [f_equal; lia | reflexivity].
Qed.

Lemma shift_comm d1 d2 l1 l2 v :
  shift d1 l1 (shift d2 l2 v) = shift d2 l2 (shift d1 l1 v).
Proof.
  apply list_eq. intros j. rewrite !shift_lookup.
  destruct (v !! j); cbn; [f_equal; lia | reflexivity].
Qed.

Lemma loads_update_agent_load i d s :
  loads (update_agent i (add_load d) s)
  = alter (fun z => (z + d)%Z) i (loads s).
Proof.
  unfold loads, update_agent. cbn [agents with_agents].
  apply list_fmap_alter. apply Forall_forall. intros kv _. reflexivity.
Qed.

Lemma loads_update_agent_score i f s :
  (forall a, current_load (f a) = current_load a) ->
  loads (update_agent i f s) = loads s.
Proof.
  intros Hf. unfold loads, update_agent. cbn [agents with_agents].
  rewrite (list_fmap_alter _ _ (fun z => z)).
  - apply list_alter_id. reflexivity.
  - apply Forall_forall. intros kv _. cbn. apply Hf.
Qed.

Lemma loads_settle outcome i s :
  loads (settle outcome i s) = alter (fun z => (z + -1)%Z) i (loads s).
Proof.
  unfold settle. rewrite loads_update_agent_load. f_equal.
  destruct outcome; [| |reflexivity];
    apply loads_update_agent_score; reflexivity.
Qed.

Lemma loads_begin_all positions s :
  loads (begin_all positions s) = shift 1 positions (loads s).
Proof.
  unfold begin_all, shift. revert s.
  induction positions as [|i positions IH]; intros s; cbn; [reflexivity|].
  rewrite IH, loads_update_agent_load. reflexivity.
Qed.

Lemma loads_settle_all env positions s :
  loads (settle_all env positions s) = shift (-1) positions (loads s).
Proof.
  unfold settle_all, shift. revert s.
  induction positions as [|i positions IH]; intros s; cbn; [reflexivity|].
  rewrite IH, loads_settle. reflexivity.
Qed.

Lemma cancelling_update_agent i f s :
  cancelling (update_agent i f s) = cancelling s.
Proof. reflexivity. Qed.

Lemma cancelling_settle outcome i s :
  cancelling (settle outcome i s) = cancelling s.
Proof. destruct outcome; reflexivity. Qed.

Lemma cancelling_begin_all positions s :
  cancelling (begin_all positions s) = cancelling s.
Proof.
  unfold begin_all. revert s.
  induction positions as [|i positions IH]; intros s; cbn; [reflexivity|].
  rewrite IH. reflexivity.
Qed.

Lemma cancelling_settle_all env positions s :
  cancelling (settle_all env positions s) = cancelling s.
Proof.
  unfold settle_all. revert s.
  induction positions as [|i positions IH]; intros s; cbn; [reflexivity|].
  rewrite IH. apply cancelling_settle.
Qed.

(** *** Closed forms of the loops over executions *)

Lemma for_each_modify {B} (f : B -> ThinkMeshOrchestrator -> ThinkMeshOrchestrator)
  (l : list B) s :
  for_each l (fun x => modify (f x)) s
  = MkRun (inl tt) (fold_left (fun s x => f x s) l s) [].
Proof.
  revert s. induction l as [|x l IH]; intros s; cbn; [reflexivity|].
  unfold bind, modify. cbn. rewrite IH. reflexivity.
Qed.

Lemma collect_pure {B C} (body : B -> M C) (g : B -> C)
  (h : B -> ThinkMeshOrchestrator -> ThinkMeshOrchestrator) (l : list B) s :
  (forall x s, body x s = MkRun (inl (g x)) (h x s) []) ->
  collect l body s
  = MkRun (inl (map g l)) (fold_left (fun s x => h x s) l s) [].
Proof.
  intros Hbody. revert s.
  induction l as [|x l IH]; intros s; cbn; [reflexivity|].
  unfold bind. rewrite Hbody. cbn. rewrite IH. reflexivity.
Qed.

Lemma fold_left_map {B C D} (f : D -> C -> D) (g : B -> C) (l : list B) d :
  fold_left (fun d x => f d (g x)) l d = fold_left f (map g l) d.
Proof.
  revert d. induction l as [|x l IH]; intros d; cbn; [reflexivity|].
  apply IH.
Qed.

Lemma start_all_run (selected : list AgentRef) s :
  for_each selected execute_start s
  = MkRun (inl tt) (begin_all (map fst selected) s) [].
Proof.
  unfold execute_start. rewrite for_each_modify.
  unfold begin_all. rewrite <- fold_left_map. reflexivity.
Qed.

(** The values [gather] returns for the jobs. *)
Definition gathered (env : nat -> Outcome) (j : AgentRef * string) : PyValue :=
  match outcome_value (env (fst (fst j))) (fst j) (snd j) with
  | inl v => v
  | inr (Exception msg) => VException msg
  | inr CancelledError => VCancelledError
  end.

Lemma gather_execute_run env (jobs : list (AgentRef * string)) s :
  let positions := map (fun j => fst (fst j)) jobs in
  gather_execute env jobs s
  = MkRun (inl (map (gathered env) jobs))
          (settle_all env positions (begin_all positions s))
          [begin_all positions s].
Proof.
  cbv zeta. unfold gather_execute, bind, suspend.
  unfold execute_start. rewrite for_each_modify. cbn [value final seen].
  rewrite (collect_pure (g := gathered env)
             (h := fun j s => settle (env (fst (fst j))) (fst (fst j)) s)).
  - cbn [value final seen app]. unfold begin_all, settle_all.
    rewrite <- !fold_left_map. reflexivity.
  - intros j s'. unfold as_value. rewrite execute_resume_run.
    reflexivity.
Qed.

Lemma for_each_pure {B} (body : B -> M unit)
  (h : B -> ThinkMeshOrchestrator -> ThinkMeshOrchestrator) (l : list B) s :
  (forall x s, body x s = MkRun (inl tt) (h x s) []) ->
  for_each l body s = MkRun (inl tt) (fold_left (fun s x => h x s) l s) [].
Proof.
  intros Hbody. revert s.
  induction l as [|x l IH]; intros s; cbn; [reflexivity|].
  unfold bind. rewrite Hbody. cbn. rewrite IH. reflexivity.
Qed.

(** *** Computations that leave the balance of the loads alone *)

Definition neutral {A} (m : M A) : Prop :=
  forall s, balance (final (m s)) = balance s.

Lemma neutral_ret {A} (a : A) : neutral (ret a).
Proof. intros s. reflexivity. Qed.

Lemma neutral_raise {A} (e : Exn) : neutral (raise (A := A) e).
Proof. intros s. reflexivity. Qed.

Lemma neutral_get : neutral get.
Proof. intros s. reflexivity. Qed.

Lemma neutral_suspend : neutral suspend.
Proof. intros s. reflexivity. Qed.

Lemma neutral_modify f :
  (forall s, agents (f s) = agents s) ->
  (forall s, cancelling (f s) = cancelling s) ->
  neutral (modify f).
Proof.
  intros Ha Hc s. unfold balance, loads. cbn [modify final].
  rewrite Ha, Hc. reflexivity.
Qed.

Lemma neutral_bind {A B} (m : M A) (k : A -> M B) :
  neutral m -> (forall a, neutral (k a)) -> neutral (bind m k).
Proof.
  intros Hm Hk s. unfold bind.
  destruct (value (m s)) as [a|e]; cbn [final].
  - rewrite Hk. apply Hm.
  - apply Hm.
Qed.

Lemma neutral_try_except {A} (m : M A) (handler : string -> M A) :
  neutral m -> (forall msg, neutral (handler msg)) ->
  neutral (try_except m handler).
Proof.
  intros Hm Hh s. unfold try_except.
  destruct (value (m s)) as [a|[msg|]]; cbn [final]; try apply Hm.
  rewrite Hh. apply Hm.
Qed.

Lemma neutral_try_finally {A} (m : M A) (cleanup : M unit) :
  neutral m -> neutral cleanup -> neutral (try_finally m cleanup).
Proof.
  intros Hm Hc s. unfold try_finally. cbn [final]. rewrite Hc. apply Hm.
Qed.

Lemma neutral_set_status t v : neutral (set_status t v).
Proof. apply neutral_modify; reflexivity. Qed.

Lemma neutral_set_assigned_agents t v : neutral (set_assigned_agents t v).
Proof. apply neutral_modify; reflexivity. Qed.

Lemma neutral_set_result t v : neutral (set_result t v).
Proof. apply neutral_modify; reflexivity. Qed.

Lemma neutral_complete_task t task : neutral (_complete_task t task).
Proof.
  unfold _complete_task. apply neutral_bind.
  - apply neutral_bind; [apply neutral_get|]. intros o.
    destruct (Py.contains _ _);
      [apply neutral_modify; reflexivity | apply neutral_ret].
  - intros _. apply neutral_modify; reflexivity.
Qed.

Lemma neutral_find_suitable_agents task :
  neutral (_find_suitable_agents task).
Proof.
  intros s. rewrite find_suitable_agents_run.
  destruct (existsb _ _); reflexivity.
Qed.

Lemma balance_frame s s' :
  loads s' = loads s -> cancelling s' = cancelling s ->
  balance s' = balance s.
Proof. intros Hl Hc. unfold balance. rewrite Hl, Hc. reflexivity. Qed.

Lemma neutral_execute_on_agent outcome agent task_id :
  neutral (_execute_on_agent outcome agent task_id).
Proof.
  intros s. rewrite execute_on_agent_run. cbn [final].
  apply balance_frame.
  - rewrite loads_settle, loads_update_agent_load.
    apply (shift_undo [fst agent]).
  - rewrite cancelling_settle. reflexivity.
Qed.

Lemma neutral_gather_execute env jobs : neutral (gather_execute env jobs).
Proof.
  intros s. rewrite gather_execute_run. cbn [final].
  apply balance_frame.
  - rewrite loads_settle_all, loads_begin_all. apply shift_undo.
  - rewrite cancelling_settle_all, cancelling_begin_all. reflexivity.
Qed.

Lemma count_occ_partition {B} (f : B -> nat) (p : B -> bool) (l : list B) j :
  (count_occ Nat.eq_dec (map f (List.filter (fun x => negb (p x)) l)) j
   + count_occ Nat.eq_dec (map f (List.filter p l)) j)%nat
  = count_occ Nat.eq_dec (map f l) j.
Proof.
  induction l as [|x l IH]; cbn; [reflexivity|].
  destruct (p x); cbn; destruct (Nat.eq_dec (f x) j); lia.
Qed.

Lemma neutral_wait_first_completed env task selected :
  neutral (wait_first_completed env task selected).
Proof.
  intros s. unfold wait_first_completed, bind, suspend.
  rewrite start_all_run. cbn [value final seen].
  set (done := List.filter _ selected).
  rewrite (collect_pure
             (g := fun a => outcome_value (outcome_of env (fst a)) a
                              (task_id task))
             (h := fun a s => settle (outcome_of env (fst a)) (fst a) s)).
  2:{ intros a s'. unfold settled. rewrite execute_resume_run.
      reflexivity. }
  cbn [value final seen modify ret].
  rewrite (fold_left_map (fun s i => settle (outcome_of env i) i s) fst).
  fold (settle_all (outcome_of env) (map fst done)
          (begin_all (map fst selected) s)).
  unfold balance. cbn [cancelling with_cancelling].
  rewrite cancelling_settle_all, cancelling_begin_all.
  unfold loads at 1. cbn [agents with_cancelling].
  fold (loads (settle_all (outcome_of env) (map fst done)
                 (begin_all (map fst selected) s))).
  rewrite loads_settle_all, loads_begin_all.
  apply list_eq. intros j. rewrite !shift_lookup.
  rewrite fmap_app, count_occ_app.
  pose proof (count_occ_partition fst
                (fun a => is_cancelled (outcome_of env (fst a))) selected j)
    as Hpart.
  cbn beta in Hpart. unfold done.
  change (fst <$> ?l) with (map fst l).
  destruct (loads s !! j); cbn; [f_equal; lia | reflexivity].
Qed.

Lemma neutral_first_result env finished : neutral (first_result env finished).
Proof.
  unfold first_result. destruct finished; [apply neutral_ret|].
  destruct (nth_error _ _) as [[v|e]|];
    [apply neutral_ret | apply neutral_raise | apply neutral_ret].
Qed.

Create HintDb neutral.

#[local] Hint Resolve neutral_ret neutral_raise neutral_get neutral_suspend
  neutral_set_status neutral_set_assigned_agents neutral_set_result
  neutral_complete_task neutral_find_suitable_agents
  neutral_execute_on_agent neutral_gather_execute
  neutral_wait_first_completed neutral_first_result : neutral.

Ltac neutral_step :=
  match goal with
  | |- neutral (bind _ _) => apply neutral_bind; [|intros ?]
  | |- neutral (match ?x with _ => _ end) => destruct x
  | |- _ => solve [auto with neutral]
  end.

Ltac neutral_auto := cbv zeta; repeat neutral_step.

Lemma neutral_execute_for env agent task_id :
  neutral (execute_for env agent task_id).
Proof. apply neutral_execute_on_agent. Qed.

#[local] Hint Resolve neutral_execute_for : neutral.

Section NeutralRouting.
Variable str : PyValue -> string.

Lemma neutral_sequential_routing env t task :
  neutral (_sequential_routing env t task).
Proof. unfold _sequential_routing. neutral_auto. Qed.

Lemma neutral_parallel_routing env t task :
  neutral (_parallel_routing env t task).
Proof. unfold _parallel_routing. neutral_auto. Qed.

Lemma neutral_consensus_routing env t task :
  neutral (_consensus_routing str env t task).
Proof.
  unfold _consensus_routing. neutral_auto.
  apply neutral_parallel_routing.
Qed.

Lemma neutral_adaptive_routing env t task :
  neutral (_adaptive_routing env t task).
Proof. unfold _adaptive_routing. neutral_auto. Qed.

Lemma neutral_hierarchical_routing env t task :
  neutral (_hierarchical_routing env t task).
Proof.
  unfold _hierarchical_routing. neutral_auto.
  apply neutral_adaptive_routing.
Qed.

Lemma neutral_competitive_routing env t task :
  neutral (_competitive_routing env t task).
Proof. unfold _competitive_routing. neutral_auto. Qed.

Lemma neutral_collaborative_routing env t task :
  neutral (_collaborative_routing env t task).
Proof. unfold _collaborative_routing. neutral_auto. Qed.

Lemma neutral_route_by strategy env t task :
  neutral (route_by str strategy env t task).
Proof.
  destruct strategy; cbn [route_by];
    auto using neutral_sequential_routing, neutral_parallel_routing,
      neutral_consensus_routing, neutral_adaptive_routing,
      neutral_hierarchical_routing, neutral_competitive_routing,
      neutral_collaborative_routing.
Qed.

Lemma neutral_route_task env t task : neutral (_route_task str env t task).
Proof.
  unfold _route_task. apply neutral_try_except.
  - apply neutral_bind; [apply neutral_get|]. intros o.
    apply neutral_route_by.
  - intros msg. apply neutral_set_status.
Qed.

Lemma deliver_cancellations_run s :
  deliver_cancellations s
  = match cancelling s with
    | [] => MkRun (inl tt) s []
    | pending =>
        MkRun (inl tt)
          (with_cancelling []
             (settle_all (fun _ => Cancelled) (map fst pending) s)) [s]
    end.
Proof.
  unfold deliver_cancellations, bind, get. cbn [value final seen].
  destruct (cancelling s) as [|a pending] eqn:E; [reflexivity|].
  unfold suspend. cbn [value final seen app].
  rewrite (for_each_pure
             (h := fun (a : AgentRef) s => settle Cancelled (fst a) s)).
  - cbn [value final seen modify app].
    rewrite (fold_left_map (fun s i => settle Cancelled i s) fst).
    reflexivity.
  - intros x s'. unfold bind, settled. rewrite execute_resume_run.
    reflexivity.
Qed.

Lemma neutral_deliver_cancellations : neutral deliver_cancellations.
Proof.
  intros s. rewrite deliver_cancellations_run.
  destruct (cancelling s) as [|a pending] eqn:E; [reflexivity|].
  cbn [final]. unfold balance at 1. cbn [cancelling with_cancelling].
  unfold loads at 1. cbn [agents with_cancelling].
  fold (loads (settle_all (fun _ => Cancelled) (map fst (a :: pending)) s)).
  rewrite loads_settle_all. unfold balance. rewrite E. reflexivity.
Qed.

Lemma cancelling_deliver_cancellations s :
  cancelling (final (deliver_cancellations s)) = [].
Proof.
  rewrite deliver_cancellations_run.
  destruct (cancelling s) eqn:E; [exact E | reflexivity].
Qed.

Lemma neutral_process_next env : neutral (process_next str env).
Proof.
  unfold process_next. apply neutral_try_finally;
    [|apply neutral_deliver_cancellations].
  apply neutral_bind; [apply neutral_get|]. intros o.
  destruct (_running o); [|apply neutral_ret].
  destruct (task_queue o) as [|t rest]; [apply neutral_ret|].
  apply neutral_bind; [apply neutral_modify; reflexivity|]. intros _.
  destruct (tasks o !! t); [|apply neutral_ret].
  apply neutral_try_except; [apply neutral_route_task|].
  intros msg. apply neutral_ret.
Qed.

Lemma process_next_restores env s :
  cancelling s = [] ->
  loads (final (process_next str env s)) = loads s
  /\ cancelling (final (process_next str env s)) = [].
Proof.
  intros Hc.
  assert (Hend : cancelling (final (process_next str env s)) = []).
  { unfold process_next, try_finally. cbn [final].
    apply cancelling_deliver_cancellations. }
  split; [|exact Hend].
  pose proof (neutral_process_next env s) as Hb.
  unfold balance in Hb. rewrite Hend, Hc in Hb. exact Hb.
Qed.

End NeutralRouting.

Lemma loads_execute_on_agent outcome agent task_id s :
  loads (final (_execute_on_agent outcome agent task_id s)) = loads s.
Proof.
  rewrite execute_on_agent_run. cbn [final].
  rewrite loads_settle, loads_update_agent_load.
  apply (shift_undo [fst agent]).
Qed.

(** C1. The load of every agent is the same after [_execute_on_agent] as
    before it, whether the execution completes, fails or is cancelled;
    this stays so over any number of executions one after the other, and
    over the iterations of the queue consumer under each of the seven
    strategies (one iteration routes a task, runs its executions and lets
    the event loop deliver the cancellations of a competitive race). *)
Theorem current_load_restored :
  (forall outcome agent task_id s,
     loads (final (_execute_on_agent outcome agent task_id s)) = loads s)
  /\ (forall (executions : list (Outcome * AgentRef * string)) s,
        loads
          (final
             (for_each executions
                (fun e =>
                   as_value (_execute_on_agent (fst (fst e)) (snd (fst e))
                               (snd e)) >> ret tt) s))
        = loads s)
  /\ (forall str strategy env s,
        cancelling s = [] ->
        loads (final (process_next str env (with_strategy strategy s)))
        = loads s)
  /\ (forall str (envs : list Env) s,
        cancelling s = [] ->
        loads (final (for_each envs (process_next str) s)) = loads s).
Proof.
  split; [exact loads_execute_on_agent|]. split; [|split].
  - intros executions. induction executions as [|e executions IH];
      intros s; [reflexivity|].
    cbn [for_each]. unfold bind at 1. unfold bind at 1.
    unfold as_value at 1. cbn [value final ret].
    rewrite IH. apply loads_execute_on_agent.
  - intros str strategy env s Hc.
    apply (process_next_restores str env (s := with_strategy strategy s) Hc).
  - intros str envs. induction envs as [|env envs IH]; intros s Hc;
      [reflexivity|].
    cbn [for_each]. unfold bind.
    destruct (process_next_restores str env Hc) as [Hl Hc'].
    destruct (value (process_next str env s)); cbn [final]; [|exact Hl].
    rewrite IH by exact Hc'. exact Hl.
Qed.

(** *** Routing without suitable agents *)

Section Unroutable.
Variable str : PyValue -> string.

Lemma route_by_no_agents strategy env t task s :
  value (_find_suitable_agents task s) = inl [] ->
  (strategy = HIERARCHICAL ->
   List.find is_coordinator (enumerate (agents s)) = None) ->
  route_by str strategy env t task s
  = MkRun (inl tt) (update_task t (with_status "failed") s) [].
Proof.
  intros Hv Hc. apply find_suitable_agents_returns in Hv as [Hrun _].
  destruct strategy; cbn [route_by].
  - unfold _sequential_routing, bind. rewrite Hrun. reflexivity.
  - unfold _parallel_routing, bind. rewrite Hrun. reflexivity.
  - unfold _hierarchical_routing, bind, get. cbn [value final seen].
    rewrite (Hc eq_refl). unfold _adaptive_routing, bind.
    rewrite Hrun. reflexivity.
  - unfold _consensus_routing, bind. rewrite Hrun. cbn.
    unfold _parallel_routing, bind. rewrite Hrun. reflexivity.
  - unfold _competitive_routing, bind. rewrite Hrun. reflexivity.
  - unfold _collaborative_routing, bind. rewrite Hrun. reflexivity.
  - unfold _adaptive_routing, bind. rewrite Hrun. reflexivity.
Qed.

Lemma route_task_no_agents env t task s :
  value (_find_suitable_agents task s) = inl [] ->
  (strategy s = HIERARCHICAL ->
   List.find is_coordinator (enumerate (agents s)) = None) ->
  _route_task str env t task s
  = MkRun (inl tt) (update_task t (with_status "failed") s) [].
Proof.
  intros Hv Hc. unfold _route_task, try_except, bind, get.
  cbn [value final seen]. rewrite (route_by_no_agents env t Hv Hc).
  reflexivity.
Qed.

End Unroutable.

(** Routing reaches its no-agent branch: the router finds no suitable
    agent and, under the hierarchical strategy, no coordinator is
    registered either. *)
Definition finds_no_agent (task : Task) (s : ThinkMeshOrchestrator) : Prop :=
  value (_find_suitable_agents task s) = inl []
  /\ (strategy s = HIERARCHICAL ->
      List.find is_coordinator (enumerate (agents s)) = None).

(** *** The load invariant *)

Definition within_capacity (a : AgentCapability) : Prop :=
  (current_load a <= max_load a)%Z.

(** Every registered agent has [current_load <= max_load]. *)
Definition load_ok (s : ThinkMeshOrchestrator) : Prop :=
  Forall (fun kv => within_capacity (snd kv)) (agents s).

Definition load_okb (s : ThinkMeshOrchestrator) : bool :=
  forallb (fun kv => (current_load (snd kv) <=? max_load (snd kv))%Z)
    (agents s).

Lemma load_okb_iff s : load_okb s = true <-> load_ok s.
Proof.
  unfold load_okb, load_ok, within_capacity.
  rewrite forallb_forall, Forall_forall. split; intros H kv Hkv.
  - apply Z.leb_le, H, list_elem_of_In, Hkv.
  - apply Z.leb_le, H, list_elem_of_In, Hkv.
Qed.

(** The references [l] were read from the registry of [s], are distinct
    and denote agents with room for one more execution. *)
Definition fresh (l : list AgentRef) (s : ThinkMeshOrchestrator) : Prop :=
  NoDup (map fst l)
  /\ forall i a, (i, a) ∈ l ->
       exists k, agents s !! i = Some (k, a)
                 /\ (current_load a < max_load a)%Z.

Lemma fresh_agents l s s' : agents s' = agents s -> fresh l s -> fresh l s'.
Proof. intros H [Hnd Hin]. split; [exact Hnd|]. rewrite H. exact Hin. Qed.











(** *** Computations that keep an invariant

    [safe Inv P m Q]: from a state that satisfies the invariant [Inv] and
    [P], the computation [m] ends in a state that satisfies [Inv], every
    state seen on the way does, and a returned value satisfies [Q]. *)

Definition anything {A} (_ : A) (_ : ThinkMeshOrchestrator) : Prop := True.
Definition always (_ : ThinkMeshOrchestrator) : Prop := True.

Section Invariant.
Variable Inv : ThinkMeshOrchestrator -> Prop.

Definition safe {A} (P : ThinkMeshOrchestrator -> Prop) (m : M A)
  (Q : A -> ThinkMeshOrchestrator -> Prop) : Prop :=
  forall s, Inv s -> P s ->
    Inv (final (m s)) /\ Forall Inv (seen (m s))
    /\ forall a, value (m s) = inl a -> Q a (final (m s)).

(** Safe from every state that satisfies the invariant. *)
Definition harmless {A} (m : M A) : Prop := safe always m anything.

Lemma safe_weaken {A} (P P' : ThinkMeshOrchestrator -> Prop) (m : M A) Q :
  (forall s, P' s -> P s) -> safe P m Q -> safe P' m anything.
Proof.
  intros HP Hm s Hg Hs. destruct (Hm s Hg (HP s Hs)) as (H1 & H2 & _).
  split; [exact H1|]. split; [exact H2|]. intros; exact I.
Qed.

Lemma safe_of_harmless {A} P (m : M A) : harmless m -> safe P m anything.
Proof. apply safe_weaken. intros s _. exact I. Qed.

Lemma safe_bind {A B} P (m : M A) Q (k : A -> M B) R :
  safe P m Q -> (forall a, safe (Q a) (k a) R) -> safe P (bind m k) R.
Proof.
  intros Hm Hk s Hg Hs. destruct (Hm s Hg Hs) as (Hg1 & Hseen1 & Hq).
  unfold bind. destruct (value (m s)) as [a|e] eqn:E; cbn [value final seen].
  - destruct (Hk a (final (m s)) Hg1 (Hq a eq_refl)) as (Hg2 & Hseen2 & Hr).
    split; [exact Hg2|]. split; [|exact Hr].
    apply Forall_app. split; assumption.
  - split; [exact Hg1|]. split; [exact Hseen1|]. intros a Ha. discriminate.
Qed.

Lemma harmless_bind {A B} (m : M A) (k : A -> M B) :
  harmless m -> (forall a, harmless (k a)) -> harmless (bind m k).
Proof. intros Hm Hk. eapply safe_bind; [exact Hm|]. intros a. apply Hk. Qed.

(** A computation that neither suspends nor changes the state. *)
Lemma safe_silent {A} (m : M A) P :
  (forall s, final (m s) = s /\ seen (m s) = []) -> safe P m anything.
Proof.
  intros Hm s Hg _. destruct (Hm s) as [-> ->].
  split; [exact Hg|]. split; [constructor | intros; exact I].
Qed.

Lemma harmless_ret {A} (a : A) : harmless (ret a).
Proof. apply safe_silent. intros s. split; reflexivity. Qed.

Lemma harmless_raise {A} (e : Exn) : harmless (raise (A := A) e).
Proof. apply safe_silent. intros s. split; reflexivity. Qed.

(** [get] hands over the current state, which satisfies the invariant. *)
Lemma safe_get : safe always get (fun o s => o = s /\ Inv o).
Proof.
  intros s Hg _. cbn. split; [exact Hg|]. split; [constructor|].
  intros a Ha. injection Ha as <-. split; [reflexivity | exact Hg].
Qed.

Lemma harmless_modify f :
  (forall s, Inv s -> Inv (f s)) -> harmless (modify f).
Proof.
  intros Hf s Hg _. cbn. split; [apply Hf, Hg|].
  split; [constructor | intros; exact I].
Qed.

Lemma harmless_try_except {A} (m : M A) (handler : string -> M A) :
  harmless m -> (forall msg, harmless (handler msg)) ->
  harmless (try_except m handler).
Proof.
  intros Hm Hh s Hg _. destruct (Hm s Hg I) as (Hg1 & Hseen1 & _).
  unfold try_except. destruct (value (m s)) as [a|[msg|]] eqn:E;
    [split; [exact Hg1|]; split; [exact Hseen1 | intros; exact I]|
    |split; [exact Hg1|]; split; [exact Hseen1 | intros; exact I]].
  destruct (Hh msg (final (m s)) Hg1 I) as (Hg2 & Hseen2 & _).
  cbn [value final seen]. split; [exact Hg2|]. split; [|intros; exact I].
  apply Forall_app. split; assumption.
Qed.

Lemma harmless_try_finally {A} (m : M A) (cleanup : M unit) :
  harmless m -> harmless cleanup -> harmless (try_finally m cleanup).
Proof.
  intros Hm Hc s Hg _. destruct (Hm s Hg I) as (Hg1 & Hseen1 & _).
  destruct (Hc (final (m s)) Hg1 I) as (Hg2 & Hseen2 & _).
  unfold try_finally. cbn [value final seen].
  split; [exact Hg2|]. split; [|intros; exact I].
  apply Forall_app. split; assumption.
Qed.




Lemma harmless_first_result env finished : harmless (first_result env finished).
Proof.
  unfold first_result. destruct finished; [apply harmless_ret|].
  destruct (nth_error _ _) as [[v|e]|];
    [apply harmless_ret | apply harmless_raise | apply harmless_ret].
Qed.

Lemma harmless_find_suitable_agents task :
  harmless (_find_suitable_agents task).
Proof.
  apply safe_silent. intros s. rewrite find_suitable_agents_run.
  destruct (existsb _ _); split; reflexivity.
Qed.

(** The history of calls keeps the invariant when every call does. *)
Lemma harmless_history {B} (body : B -> M unit) (l : list B) :
  (forall x, x ∈ l -> harmless (body x)) -> harmless (for_each l body).
Proof.
  induction l as [|x l IH]; intros Hbody; cbn [for_each].
  - apply harmless_ret.
  - apply harmless_bind.
    + apply Hbody, elem_of_cons. left. reflexivity.
    + intros _. apply IH. intros y Hy. apply Hbody, elem_of_cons.
      right. exact Hy.
Qed.

Lemma harmless_then_suspend (m : M unit) :
  harmless m -> harmless (m >> suspend).
Proof.
  intros Hm. apply harmless_bind; [exact Hm|]. intros _ s Hg _. cbn.
  split; [exact Hg|]. split; [constructor; [exact Hg | constructor]|].
  intros; exact I.
Qed.

End Invariant.

(** One step of a proof that a routing function is harmless: split a
    sequence, take a case distinction apart, or close the goal with
    [tac]. *)
Ltac harmless_step tac :=
  match goal with
  | |- safe _ _ (bind _ _) _ => apply harmless_bind; [|intros ?]
  | |- harmless _ (bind _ _) => apply harmless_bind; [|intros ?]
  | |- safe _ _ (match ?x with _ => _ end) _ => destruct x
  | |- harmless _ (match ?x with _ => _ end) => destruct x
  | |- _ => solve [tac]
  end.

Ltac harmless_tail tac := cbv zeta; repeat harmless_step tac.




(** *** The load invariant under the seven strategies

    Six strategies dispatch to agents that [_find_suitable_agents]
    returns, which have room. [_hierarchical_routing] dispatches to the
    first coordinator of the registry as it is. *)





Section LoadInvariant.
Variable str : PyValue -> string.
Variable sigma : OrchestrationStrategy.











Lemma wait_first_completed_run env task (selected : list AgentRef) s :
  let started := begin_all (map fst selected) s in
  let done :=
    List.filter (fun a => negb (is_cancelled (outcome_of env (fst a))))
      selected in
  let pending :=
    List.filter (fun a => is_cancelled (outcome_of env (fst a)))
      selected in
  let settled_done := settle_all (outcome_of env) (map fst done) started in
  wait_first_completed env task selected s
  = MkRun
      (inl (map (fun a => outcome_value (outcome_of env (fst a)) a
                            (task_id task)) done))
      (with_cancelling (cancelling settled_done ++ pending) settled_done)
      [started].
Proof.
  cbv zeta. unfold wait_first_completed, bind, suspend.
  rewrite start_all_run. cbn [value final seen].
  rewrite (collect_pure
             (g := fun a => outcome_value (outcome_of env (fst a)) a
                              (task_id task))
             (h := fun a s => settle (outcome_of env (fst a)) (fst a) s)).
  2:{ intros a s'. unfold settled. rewrite execute_resume_run.
      reflexivity. }
  cbn [value final seen modify ret app].
  rewrite (fold_left_map (fun s i => settle (outcome_of env i) i s) fst).
  reflexivity.
Qed.














End LoadInvariant.

(** *** A task that no later call touches

    [stuck ft t]: the task object [t] is [ft], it is registered in
    [active_tasks] under its id, it is neither queued nor completed, and
    no queued task has its id. *)

Definition books (s : ThinkMeshOrchestrator)
  : list Task * list (string * nat) * list nat * list nat :=
  (tasks s, active_tasks s, completed_tasks s, task_queue s).

Definition stuck (ft : Task) (t : nat) (s : ThinkMeshOrchestrator) : Prop :=
  tasks s !! t = Some ft
  /\ Py.get (task_id ft) (active_tasks s) = Some t
  /\ (t ∉ task_queue s)
  /\ (t ∉ completed_tasks s)
  /\ forall x tx, x ∈ task_queue s -> tasks s !! x = Some tx ->
                  task_id tx <> task_id ft.

(** The later submissions draw identifiers other than [id]. *)
Definition avoids (id : string) (c : Call) : bool :=
  match c with
  | SubmitTask uuid _ _ _ _ _ _ => negb (String.eqb uuid id)
  | _ => true
  end.

Lemma get_del_ne {V} (k k' : string) (d : Py.dict V) :
  k <> k' -> Py.get k (Py.del k' d) = Py.get k d.
Proof.
  intros Hne. induction d as [|[k0 v0] d IH]; cbn; [reflexivity|].
  destruct (String.eqb_spec k' k0) as [->|Hk'].
  - destruct (String.eqb_spec k k0); [contradiction | reflexivity].
  - cbn. rewrite IH. reflexivity.
Qed.

Lemma get_set_ne {V} (k k' : string) (v : V) (d : Py.dict V) :
  k <> k' -> Py.get k (Py.set k' v d) = Py.get k d.
Proof.
  intros Hne. induction d as [|[k0 v0] d IH]; cbn.
  - destruct (String.eqb_spec k k'); [contradiction | reflexivity].
  - destruct (String.eqb_spec k' k0) as [->|Hk']; cbn.
    + destruct (String.eqb_spec k k0); [contradiction | reflexivity].
    + rewrite IH. reflexivity.
Qed.

Lemma books_settle outcome i s : books (settle outcome i s) = books s.
Proof. destruct outcome; reflexivity. Qed.

Lemma books_begin_all positions s : books (begin_all positions s) = books s.
Proof.
  unfold begin_all. revert s.
  induction positions as [|i positions IH]; intros s; cbn; [reflexivity|].
  rewrite IH. reflexivity.
Qed.

Lemma books_settle_all env positions s :
  books (settle_all env positions s) = books s.
Proof.
  unfold settle_all. revert s.
  induction positions as [|i positions IH]; intros s; cbn; [reflexivity|].
  rewrite IH. apply books_settle.
Qed.

Section Stuck.
Variable str : PyValue -> string.
Variable ft : Task.
Variable t : nat.

Lemma stuck_books s s' : books s' = books s -> stuck ft t s -> stuck ft t s'.
Proof.
  unfold books, stuck. intros H. injection H as -> -> -> ->. auto.
Qed.

Lemma stuck_update_task x f s :
  x <> t -> (forall a, task_id (f a) = task_id a) ->
  stuck ft t s -> stuck ft t (update_task x f s).
Proof.
  intros Hx Hf (Ht & Ha & Hq & Hc & Hids). unfold stuck, update_task.
  cbn [tasks active_tasks task_queue completed_tasks with_tasks].
  split; [rewrite list_lookup_alter_ne by exact Hx; exact Ht|].
  do 3 (split; [assumption|]).
  intros y ty Hy Hty. rewrite list_lookup_alter in Hty.
  destruct (decide (x = y)) as [->|Hne]; [|eauto].
  destruct (tasks s !! y) as [ty0|] eqn:E; [|discriminate].
  cbn in Hty. injection Hty as <-. rewrite Hf. eauto.
Qed.

Lemma stuck_set_status x v :
  x <> t -> harmless (stuck ft t) (set_status x v).
Proof.
  intros Hx. apply harmless_modify. intros s.
  apply stuck_update_task; [exact Hx | reflexivity].
Qed.

Lemma stuck_set_result x v :
  x <> t -> harmless (stuck ft t) (set_result x v).
Proof.
  intros Hx. apply harmless_modify. intros s.
  apply stuck_update_task; [exact Hx | reflexivity].
Qed.

Lemma stuck_set_assigned_agents x v :
  x <> t -> harmless (stuck ft t) (set_assigned_agents x v).
Proof.
  intros Hx. apply harmless_modify. intros s.
  apply stuck_update_task; [exact Hx | reflexivity].
Qed.

Lemma stuck_complete_task x tx :
  x <> t -> task_id tx <> task_id ft ->
  harmless (stuck ft t) (_complete_task x tx).
Proof.
  intros Hx Hid. unfold _complete_task. apply harmless_bind.
  - eapply safe_bind; [apply safe_get|]. intros o.
    destruct (Py.contains _ _); [|apply safe_of_harmless, harmless_ret].
    intros s (Ht & Ha & Hq & Hc & Hids) [-> _]. cbn.
    split; [|split; [constructor | intros; exact I]].
    unfold stuck. cbn. repeat split; try assumption.
    rewrite get_del_ne by congruence. exact Ha.
  - intros _. apply harmless_modify.
    intros s (Ht & Ha & Hq & Hc & Hids). unfold stuck. cbn.
    repeat split; try assumption.
    rewrite elem_of_app, list_elem_of_singleton. intros [H|H]; auto.
Qed.

Lemma stuck_execute_for env agent task_id :
  harmless (stuck ft t) (execute_for env agent task_id).
Proof.
  intros s Hs _. unfold execute_for. rewrite execute_on_agent_run.
  cbn [value final seen].
  assert (Hstart : stuck ft t (update_agent (fst agent) (add_load 1) s))
    by (revert Hs; apply stuck_books; reflexivity).
  split; [|split; [constructor; [exact Hstart | constructor]
                  | intros; exact I]].
  revert Hstart. apply stuck_books, books_settle.
Qed.

Lemma stuck_gather_execute env jobs :
  harmless (stuck ft t) (gather_execute env jobs).
Proof.
  intros s Hs _. rewrite gather_execute_run. cbn [value final seen].
  match goal with
  | |- context [settle_all _ _ (begin_all ?p s)] =>
      assert (Hstart : stuck ft t (begin_all p s))
        by (revert Hs; apply stuck_books, books_begin_all)
  end.
  split; [|split; [constructor; [exact Hstart | constructor]
                  | intros; exact I]].
  revert Hstart. apply stuck_books, books_settle_all.
Qed.

Lemma stuck_wait_first_completed env task selected :
  harmless (stuck ft t) (wait_first_completed env task selected).
Proof.
  intros s Hs _. rewrite wait_first_completed_run. cbn [value final seen].
  assert (Hstart : stuck ft t (begin_all (map fst selected) s))
    by (revert Hs; apply stuck_books, books_begin_all).
  split; [|split; [constructor; [exact Hstart | constructor]
                  | intros; exact I]].
  revert Hstart. apply stuck_books.
  unfold books. cbn [tasks active_tasks completed_tasks task_queue
                       with_cancelling].
  apply books_settle_all.
Qed.

Lemma stuck_deliver_cancellations :
  harmless (stuck ft t) deliver_cancellations.
Proof.
  intros s Hs _. rewrite deliver_cancellations_run.
  destruct (cancelling s) as [|a pending]; cbn [value final seen].
  - split; [exact Hs|]. split; [constructor | intros; exact I].
  - split; [|split; [constructor; [exact Hs | constructor]
                    | intros; exact I]].
    revert Hs. apply stuck_books.
    unfold books. cbn [tasks active_tasks completed_tasks task_queue
                         with_cancelling].
    apply books_settle_all.
Qed.

Section RoutingAnother.
Variable x : nat.
Variable tx : Task.
Hypothesis another : x <> t.
Hypothesis another_id : task_id tx <> task_id ft.

Ltac stuck_auto :=
  auto using harmless_ret, harmless_raise, harmless_first_result,
    harmless_find_suitable_agents, stuck_set_status, stuck_set_result,
    stuck_set_assigned_agents, stuck_complete_task, stuck_execute_for,
    stuck_gather_execute, stuck_wait_first_completed.

Lemma stuck_parallel_routing env :
  harmless (stuck ft t) (_parallel_routing env x tx).
Proof. unfold _parallel_routing. harmless_tail stuck_auto. Qed.

Lemma stuck_adaptive_routing env :
  harmless (stuck ft t) (_adaptive_routing env x tx).
Proof. unfold _adaptive_routing. harmless_tail stuck_auto. Qed.

Lemma stuck_route_by strategy env :
  harmless (stuck ft t) (route_by str strategy env x tx).
Proof.
  destruct strategy; cbn [route_by].
  - unfold _sequential_routing. harmless_tail stuck_auto.
  - apply stuck_parallel_routing.
  - unfold _hierarchical_routing.
    eapply safe_bind; [apply safe_get|]. intros o.
    destruct (List.find _ _);
      [|apply safe_of_harmless, stuck_adaptive_routing].
    apply safe_of_harmless. harmless_tail stuck_auto.
  - unfold _consensus_routing.
    apply harmless_bind; [apply harmless_find_suitable_agents|].
    intros l. destruct (length l <? 3)%nat;
      [apply stuck_parallel_routing|].
    harmless_tail stuck_auto.
  - unfold _competitive_routing. harmless_tail stuck_auto.
  - unfold _collaborative_routing. harmless_tail stuck_auto.
  - apply stuck_adaptive_routing.
Qed.

Lemma stuck_route_task env :
  harmless (stuck ft t) (_route_task str env x tx).
Proof.
  unfold _route_task. apply harmless_try_except.
  - eapply safe_bind; [apply safe_get|]. intros o.
    apply safe_of_harmless, stuck_route_by.
  - intros msg. apply stuck_set_status, another.
Qed.

End RoutingAnother.

Lemma stuck_process_next env :
  harmless (stuck ft t) (process_next str env).
Proof.
  unfold process_next.
  apply harmless_try_finally; [|apply stuck_deliver_cancellations].
  eapply safe_bind; [apply safe_get|]. intros o s Hs [-> _].
  destruct (_running s); [|apply (@harmless_ret (stuck ft t) _ tt s Hs I)].
  destruct (task_queue s) as [|x rest] eqn:Hq;
    [apply (@harmless_ret (stuck ft t) _ tt s Hs I)|].
  destruct Hs as (Ht & Ha & Hnq & Hc & Hids).
  assert (Hx : x <> t).
  { intros ->. apply Hnq. rewrite Hq. apply elem_of_cons. auto. }
  assert (Hpop : stuck ft t (with_task_queue rest s)).
  { unfold stuck. cbn. repeat split; try assumption.
    - intros H. apply Hnq. rewrite Hq. apply elem_of_cons. auto.
    - intros y ty Hy. apply Hids. rewrite Hq. apply elem_of_cons. auto. }
  unfold bind, modify. cbn [value final seen app].
  destruct (tasks s !! x) as [tx|] eqn:Hx_task;
    [|apply (@harmless_ret (stuck ft t) _ tt _ Hpop I)].
  assert (Hid : task_id tx <> task_id ft).
  { apply (Hids x tx); [|exact Hx_task].
    rewrite Hq. apply elem_of_cons. auto. }
  apply (@harmless_try_except (stuck ft t) _ _ _
           (stuck_route_task Hx Hid env)
           (fun _ => @harmless_ret (stuck ft t) _ tt) _ Hpop I).
Qed.

Lemma stuck_perform c :
  avoids (task_id ft) c = true -> harmless (stuck ft t) (perform str c).
Proof.
  intros Hc. destruct c; cbn [perform avoids] in *.
  - apply harmless_modify. intros s. apply stuck_books. reflexivity.
  - apply harmless_modify. intros s. apply stuck_books. reflexivity.
  - unfold register_agent. apply harmless_bind; [|intros; apply harmless_ret].
    apply harmless_bind; [|intros; apply harmless_ret].
    apply harmless_modify. intros s. apply stuck_books. reflexivity.
  - unfold unregister_agent. apply harmless_bind; [|intros; apply harmless_ret].
    eapply safe_bind; [apply safe_get|]. intros o.
    apply safe_of_harmless. destruct (Py.contains _ _); [|apply harmless_ret].
    apply harmless_bind; [|intros; apply harmless_ret].
    apply harmless_modify. intros s. apply stuck_books. reflexivity.
  - apply harmless_modify. intros s. apply stuck_books. reflexivity.
  - apply negb_true_iff in Hc.
    destruct (String.eqb_spec uuid (task_id ft)) as [|Hne]; [discriminate|].
    unfold submit_task. apply harmless_bind; [|intros; apply harmless_ret].
    eapply safe_bind; [apply safe_get|].
    intros o s (Ht & Ha & Hq & Hcomp & Hids) [-> _].
    unfold bind, modify, ret. cbn [value final seen app].
    assert (Hlt : (t < length (tasks s))%nat)
      by (apply lookup_lt_Some in Ht; exact Ht).
    split; [|split; [constructor | intros; exact I]].
    unfold stuck. cbn. split; [|split; [|split; [|split]]].
    + rewrite lookup_app_l by exact Hlt. exact Ht.
    + rewrite get_set_ne by congruence. exact Ha.
    + rewrite elem_of_app, list_elem_of_singleton. intros [H|H]; [auto|lia].
    + exact Hcomp.
    + intros y ty Hy Hty.
      destruct (lt_dec y (length (tasks s))) as [Hy_lt|Hy_ge].
      * rewrite lookup_app_l in Hty by exact Hy_lt.
        apply elem_of_app in Hy as [Hy|Hy]; [eauto|].
        apply list_elem_of_singleton in Hy. lia.
      * rewrite lookup_app_r in Hty by lia.
        destruct (y - length (tasks s))%nat; cbn in Hty; [|discriminate].
        injection Hty as <-. cbn. exact Hne.
  - apply stuck_process_next.
Qed.

Lemma stuck_run calls :
  forallb (avoids (task_id ft)) calls = true ->
  harmless (stuck ft t) (run str calls).
Proof.
  intros Hall. unfold run. apply harmless_history. intros c Hc.
  apply harmless_then_suspend, stuck_perform.
  rewrite forallb_forall in Hall. apply Hall, list_elem_of_In, Hc.
Qed.

End Stuck.

(** After a routing that found no agent, the task is stuck. *)
Lemma stuck_after_failed_route str env t task s :
  tasks s !! t = Some task ->
  finds_no_agent task s ->
  Py.get (task_id task) (active_tasks s) = Some t ->
  t ∉ task_queue s ->
  t ∉ completed_tasks s ->
  (forall x tx, x ∈ task_queue s -> tasks s !! x = Some tx ->
                task_id tx <> task_id task) ->
  stuck (with_status "failed" task) t (final (_route_task str env t task s)).
Proof.
  intros Ht [Hv Hc] Ha Hq Hcomp Hids.
  rewrite (route_task_no_agents str env t Hv Hc). cbn [final].
  unfold stuck, update_task.
  cbn [tasks active_tasks task_queue completed_tasks with_tasks].
  split; [|do 3 (split; [assumption|])].
  - rewrite list_lookup_alter.
    destruct (decide (t = t)) as [_|Hne]; [|contradiction].
    rewrite Ht. reflexivity.
  - intros x tx Hx Htx. apply (Hids x tx Hx).
    rewrite list_lookup_alter_ne in Htx; [exact Htx|].
    intros <-. exact (Hq Hx).
Qed.

Lemma stuck_failed task t s :
  stuck (with_status "failed" task) t s ->
  option_map status (tasks s !! t) = Some "failed"%string
  /\ Py.get (task_id task) (active_tasks s) = Some t
  /\ (t ∉ completed_tasks s).
Proof.
  intros (Ht & Ha & _ & Hc & _). rewrite Ht. repeat split; assumption.
Qed.

(** C10. When routing finds no agent for a task, [_route_task] sets the
    status of the task to "failed" and does nothing else: no execution is
    dispatched, [active_tasks] and [completed_tasks] are what they were,
    so the task is still in [active_tasks], is not appended to
    [completed_tasks], and [get_status] still counts it as active. The
    same holds for a task that is submitted and then taken from the queue
    by the consumer. Moreover the situation is permanent: whatever calls
    follow (submissions drawing other identifiers, registrations,
    strategy changes, iterations of the consumer), in every observable
    state the task keeps the status "failed", is still in [active_tasks]
    and is not in [completed_tasks]. *)
Theorem unroutable_task_stays_active :
  (forall str env t task s,
     tasks s !! t = Some task ->
     finds_no_agent task s ->
     let r := _route_task str env t task s in
     value r = inl tt /\ seen r = []
     /\ tasks (final r) !! t = Some (with_status "failed" task)
     /\ agents (final r) = agents s
     /\ active_tasks (final r) = active_tasks s
     /\ completed_tasks (final r) = completed_tasks s
     /\ status_active_tasks (get_status (final r))
        = status_active_tasks (get_status s)
     /\ status_completed_tasks (get_status (final r))
        = status_completed_tasks (get_status s))
  /\ (forall str env uuid now task_type requirements context priority
             deadline s,
        _running s = true -> task_queue s = [] -> cancelling s = [] ->
        let submitted :=
          final (submit_task uuid now task_type requirements context
                   priority deadline s) in
        let t := length (tasks s) in
        (forall task, tasks submitted !! t = Some task ->
                      finds_no_agent task submitted) ->
        let r := process_next str env submitted in
        Py.get uuid (active_tasks (final r)) = Some t
        /\ option_map status (tasks (final r) !! t) = Some "failed"%string
        /\ completed_tasks (final r) = completed_tasks s
        /\ status_active_tasks (get_status (final r))
           = status_active_tasks (get_status submitted))
  /\ (forall str env t task s calls,
        tasks s !! t = Some task ->
        finds_no_agent task s ->
        Py.get (task_id task) (active_tasks s) = Some t ->
        t ∉ task_queue s ->
        t ∉ completed_tasks s ->
        (forall x tx, x ∈ task_queue s -> tasks s !! x = Some tx ->
                      task_id tx <> task_id task) ->
        forallb (avoids (task_id task)) calls = true ->
        let r := run str calls (final (_route_task str env t task s)) in
        Forall (fun s' =>
                  option_map status (tasks s' !! t) = Some "failed"%string
                  /\ Py.get (task_id task) (active_tasks s') = Some t
                  /\ (t ∉ completed_tasks s'))
          (seen r ++ [final r])).
Proof.
  split; [|split].
  - intros str env t task s Ht [Hv Hc]. cbv zeta.
    rewrite (route_task_no_agents str env t Hv Hc). cbn [value final seen].
    do 2 (split; [reflexivity|]). split; [|repeat split].
    unfold update_task. cbn [tasks with_tasks].
    rewrite list_lookup_alter.
    destruct (decide (t = t)) as [_|Hne]; [|contradiction].
    rewrite Ht. reflexivity.
  - intros str env uuid now task_type requirements context priority
      deadline s Hrun Hq Hcanc submitted t Hnone r.
    set (task :=
           {| task_id := uuid; task_type := task_type; priority := priority;
              requirements := requirements; context := context;
              created_at := now; deadline := deadline; status := "pending";
              assigned_agents := []; result := VNone |}).
    assert (Hsub : submitted
              = with_task_queue (task_queue s ++ [t])
                  (with_active_tasks (Py.set uuid t (active_tasks s))
                     (with_tasks (tasks s ++ [task]) s))) by reflexivity.
    assert (Ht : tasks submitted !! t = Some task).
    { rewrite Hsub. cbn [tasks with_task_queue with_active_tasks with_tasks].
      unfold t. rewrite lookup_app_r by reflexivity.
      rewrite Nat.sub_diag. reflexivity. }
    destruct (Hnone task Ht) as [Hv Hc].
    assert (Hr : r = MkRun (inl tt)
                  (update_task t (with_status "failed")
                     (with_task_queue [] submitted)) []).
    { unfold r, process_next, try_finally, bind, get.
      cbn [value final seen].
      replace (_running submitted) with true by (rewrite Hsub; auto).
      replace (task_queue submitted) with [t]
        by (rewrite Hsub; cbn; rewrite Hq; reflexivity).
      cbn [modify value final seen]. rewrite Ht.
      unfold try_except.
      rewrite (@route_task_no_agents str env t task
                 (with_task_queue [] submitted));
        [|rewrite <- Hv; apply find_suitable_agents_value; reflexivity
         |exact Hc].
      cbn [value final seen]. rewrite deliver_cancellations_run.
      replace (cancelling _) with (@nil AgentRef)
        by (rewrite Hsub; cbn; auto).
      reflexivity. }
    rewrite Hr. cbn [final]. split; [|split; [|split]].
    + rewrite Hsub. cbn. apply get_set.
    + unfold update_task. cbn [tasks with_tasks with_task_queue].
      rewrite list_lookup_alter.
      destruct (decide (t = t)) as [_|Hne]; [|contradiction].
      rewrite Ht. reflexivity.
    + rewrite Hsub. reflexivity.
    + reflexivity.
  - intros str env t task s calls Ht Hnone Ha Hq Hc Hids Hcalls r.
    pose proof (stuck_after_failed_route str env Ht Hnone Ha Hq Hc Hids)
      as Hstuck.
    destruct (@stuck_run str (with_status "failed" task) t calls Hcalls
                _ Hstuck I) as (Hfinal & Hseen & _).
    apply Forall_app. split; [|constructor; [|constructor]].
    + eapply Forall_impl; [exact Hseen|]. intros s'. apply stuck_failed.
    + apply stuck_failed. exact Hfinal.
Qed.

(** *** Histories *)

Lemma Forall_dict_set {V} (P : string * V -> Prop) k v (d : Py.dict V) :
  Forall P d -> P (k, v) -> Forall P (Py.set k v d).
Proof.
  intros Hd Hv. induction d as [|[k' v'] d IH]; cbn.
  - repeat constructor. exact Hv.
  - apply Forall_cons in Hd as [Hk Hd].
    destruct (String.eqb k k'); constructor; auto.
Qed.

Lemma Forall_dict_del {V} (P : string * V -> Prop) k (d : Py.dict V) :
  Forall P d -> Forall P (Py.del k d).
Proof.
  intros Hd. induction d as [|[k' v'] d IH]; cbn; [constructor|].
  apply Forall_cons in Hd as [Hk Hd].
  destruct (String.eqb k k'); [exact Hd|]. constructor; auto.
Qed.


(** A stringification of results for the concrete histories below. *)
Definition example_str (v : PyValue) : string :=
  match v with
  | VResult agent_id task_id timestamp =>
      (agent_id ++ "/" ++ task_id ++ "/" ++ timestamp)%string
  | VStr s => s
  | VException msg => msg
  | _ => EmptyString
  end.

Definition busy_history : list Call :=
  let caps p m :=
    {| cap_performance_score := Some p; cap_max_load := Some m;
       cap_skills := None |} in
  let env :=
    {| outcome_of :=
         fun i => match i with
                  | 0%nat => Fails "boom"
                  | 1%nat => Cancelled
                  | _ => Completes "now"
                  end;
       first_done := 1; python_minor := 10 |} in
  let requirements := {| req_specializations := []; req_skills := [] |} in
  [Initialize;
   RegisterAgent "a" ["coordinator"%string] (caps 0.9 1%Z);
   RegisterAgent "b" [] (caps 0.5 2%Z);
   RegisterAgent "c" [] (caps 0.5 0%Z);
   SetStrategy COMPETITIVE;
   SubmitTask "u1" "now" "job" requirements [] NORMAL None;
   SubmitTask "u2" "now" "job" requirements [] HIGH None;
   ProcessNext env;
   SetStrategy PARALLEL;
   ProcessNext env].

(** A task asking for a specialization that no registered agent has,
    taken from the queue, and the calls that follow it. *)
Definition audio_task : Task :=
  {| task_id := "u1"; task_type := "job"; priority := NORMAL;
     requirements := {| req_specializations := ["audio"%string];
                        req_skills := [] |};
     context := []; created_at := "now"; deadline := None;
     status := "pending"; assigned_agents := []; result := VNone |}.

Definition vision_only : ThinkMeshOrchestrator :=
  with_task_queue []
    (final (run example_str
              [Initialize;
               RegisterAgent "a" ["vision"%string]
                 {| cap_performance_score := None; cap_max_load := None;
                    cap_skills := None |};
               SubmitTask "u1" "now" "job" (requirements audio_task) []
                 NORMAL None]
              initial)).

Definition calm : Env :=
  {| outcome_of := fun _ => Completes "now"; first_done := 0;
     python_minor := 10 |}.

Definition later_calls : list Call :=
  [SubmitTask "u2" "now" "job"
     {| req_specializations := []; req_skills := [] |} [] HIGH None;
   ProcessNext calm;
   SubmitTask "u3" "now" "job" (requirements audio_task) [] LOW None;
   ProcessNext calm;
   UnregisterAgent "a";
   Shutdown].

Lemma unroutable_task_stays_active_witness :
  let r := run example_str later_calls
             (final (_route_task example_str calm 0 audio_task vision_only)) in
  Forall (fun s' =>
            option_map status (tasks s' !! 0%nat) = Some "failed"%string
            /\ Py.get "u1" (active_tasks s') = Some 0%nat
            /\ (0%nat ∉ completed_tasks s'))
    (seen r ++ [final r]).
Proof.
  apply (proj2 (proj2 unroutable_task_stays_active)
           example_str calm 0%nat audio_task vision_only later_calls).
  - vm_compute. reflexivity.
  - split; [vm_compute; reflexivity|].
    intros H. vm_compute in H. discriminate H.
  - vm_compute. reflexivity.
  - intros H. vm_compute in H. inversion H.
  - intros H. vm_compute in H. inversion H.
  - intros x tx H. vm_compute in H. inversion H.
  - vm_compute. reflexivity.
Defined.

(** An agent whose score is the float 0.56: a success stores
    0.5700000000000001, the float next above the float 0.57, and a failure
    of an agent at 0.5 stores the float 0.45. *)
Definition scored_agent (score : Q) : AgentCapability :=
  {| agent_id := "a"; specializations := [];
     performance_score := Py.float score;
     availability := true; current_load := 0; max_load := 10;
     skills := [] |}.

Lemma performance_score_stays_in_unit_interval_witness :
  (exists a',
     agents (final (_execute_on_agent (Completes "now")
                      (0%nat, scored_agent 0.56) "t"
                      (with_agents [("a"%string, scored_agent 0.56)] initial)))
       !! 0%nat = Some ("a"%string, a')
     /\ 0 <= performance_score a' /\ performance_score a' <= 1
     /\ performance_score a'
        = Py.min 1.0 (Py.fadd (Py.float 0.56) (Py.float 0.01))
     /\ performance_score a' == Py.float 0.57 + (1 # 2) ^ 53)
  /\ (exists a',
        agents (final (_execute_on_agent (Fails "boom")
                         (0%nat, scored_agent 0.5) "t"
                         (with_agents [("a"%string, scored_agent 0.5)] initial)))
          !! 0%nat = Some ("a"%string, a')
        /\ 0 <= performance_score a' /\ performance_score a' <= 1
        /\ performance_score a' == Py.float 0.45).
Proof.
  split.
  - destruct (performance_score_stays_in_unit_interval (Completes "now")
                (agent := (0%nat, scored_agent 0.56)) "t"
                (s := with_agents [("a"%string, scored_agent 0.56)] initial)
                (k := "a"%string) (a := scored_agent 0.56))
      as (a' & Hlook & H0 & H1 & He);
      [reflexivity | vm_compute; discriminate | vm_compute; discriminate |].
    exists a'. split; [exact Hlook|]. split; [exact H0|]. split; [exact H1|].
    split; [exact He|]. rewrite He. vm_compute. reflexivity.
  - destruct (performance_score_stays_in_unit_interval (Fails "boom")
                (agent := (0%nat, scored_agent 0.5)) "t"
                (s := with_agents [("a"%string, scored_agent 0.5)] initial)
                (k := "a"%string) (a := scored_agent 0.5))
      as (a' & Hlook & H0 & H1 & He);
      [reflexivity | vm_compute; discriminate | vm_compute; discriminate |].
    exists a'. split; [exact Hlook|]. split; [exact H0|]. split; [exact H1|].
    rewrite He. vm_compute. reflexivity.
Defined.

(* ------------------------------------------------------------------ *)
(** ** Task status ([get_task_status]) *)
(* ------------------------------------------------------------------ *)

(** [priority.name]. *)
Definition priority_name (p : TaskPriority) : string :=
  match p with
  | CRITICAL => "CRITICAL"
  | HIGH => "HIGH"
  | NORMAL => "NORMAL"
  | LOW => "LOW"
  | BACKGROUND => "BACKGROUND"
  end.

(** The two dictionaries [get_task_status] builds: the one of an active
    task has its assigned agents, the one of a completed task its
    result. *)
Inductive TaskStatus :=
| ActiveTask (id type status priority : string)
    (assigned_agents : list string) (created_at : string)
| CompletedTask (id type status priority : string) (result : PyValue)
    (created_at : string).

Definition has_id (o : ThinkMeshOrchestrator) (task_id : string) (t : nat)
  : bool :=
  match tasks o !! t with
  | Some task => String.eqb (Orchestrator.task_id task) task_id
  | None => false
  end.

Definition get_task_status (task_id : string) (o : ThinkMeshOrchestrator)
  : option TaskStatus :=
  match Py.get task_id (active_tasks o) with
  | Some t =>
      option_map
        (fun task =>
           ActiveTask (Orchestrator.task_id task) (task_type task)
             (status task) (priority_name (priority task))
             (assigned_agents task) (created_at task))
        (tasks o !! t)
  | None =>
      match List.find (has_id o task_id) (completed_tasks o) with
      | Some t =>
          option_map
            (fun completed =>
               CompletedTask (Orchestrator.task_id completed)
                 (task_type completed) (status completed)
                 (priority_name (priority completed)) (result completed)
                 (created_at completed))
            (tasks o !! t)
      | None => None
      end
  end.

Lemma length_set_absent {V} (k : string) (v : V) (d : Py.dict V) :
  Py.get k d = None -> length (Py.set k v d) = S (length d).
Proof.
  induction d as [|[k' v'] d IH]; cbn; [reflexivity|].
  destruct (String.eqb k k'); [discriminate|].
  intros H. cbn. rewrite (IH H). reflexivity.
Qed.

(** X17. [submit_task] returns the new id without suspending;
    right afterwards [get_task_status] of that id answers from the active
    tasks with the status "pending", the type and priority given, no
    assigned agent and the creation time; the queue is one longer, and so
    is [active_tasks] when the id is new. *)
Theorem submitted_task_is_pending (uuid now task_type : string)
  (requirements : Requirements) (context : Py.dict PyValue)
  (priority : TaskPriority) (deadline : option Q)
  (s : ThinkMeshOrchestrator) :
  let r := submit_task uuid now task_type requirements context priority
             deadline s in
  value r = inl uuid
  /\ seen r = []
  /\ get_task_status uuid (final r)
     = Some (ActiveTask uuid task_type "pending" (priority_name priority)
               [] now)
  /\ task_queue (final r) = task_queue s ++ [length (tasks s)]
  /\ status_queue_size (get_status (final r))
     = S (status_queue_size (get_status s))
  /\ (Py.get uuid (active_tasks s) = None ->
      status_active_tasks (get_status (final r))
      = S (status_active_tasks (get_status s)))
  /\ agents (final r) = agents s
  /\ completed_tasks (final r) = completed_tasks s.
Proof.
  cbv zeta. unfold submit_task, bind, get, modify, ret.
  cbn [value final seen app tasks active_tasks task_queue agents
       completed_tasks with_tasks with_active_tasks with_task_queue
       get_status status_queue_size status_active_tasks].
  do 2 (split; [reflexivity|]). split.
  { unfold get_task_status.
    cbn [active_tasks tasks with_tasks with_active_tasks with_task_queue].
    rewrite get_set. rewrite lookup_app_r by reflexivity.
    rewrite Nat.sub_diag. reflexivity. }
  split; [reflexivity|]. split.
  { rewrite length_app. cbn. lia. }
  split; [|split; reflexivity].
  intros Hnew. apply length_set_absent, Hnew.
Qed.

(* ------------------------------------------------------------------ *)
(** ** The registry *)
(* ------------------------------------------------------------------ *)

Lemma del_set_absent {V} (k : string) (v : V) (d : Py.dict V) :
  Py.get k d = None -> Py.del k (Py.set k v d) = d.
Proof.
  induction d as [|[k' v'] d IH]; cbn.
  - rewrite String.eqb_refl. reflexivity.
  - destruct (String.eqb k k') eqn:E; [discriminate|].
    intros H. cbn. rewrite E, (IH H). reflexivity.
Qed.

Lemma with_agents_same s : with_agents (agents s) s = s.
Proof. destruct s. reflexivity. Qed.

(** X18. Unregistering an agent id that is not
    registered returns False and changes nothing; registering it and then
    unregistering it returns True and gives back the orchestrator as it
    was. *)
Theorem register_unregister_round_trip (agent_id : string)
  (specializations : list string) (capabilities : Capabilities)
  (s : ThinkMeshOrchestrator) :
  Py.get agent_id (agents s) = None ->
  let registered :=
    final (register_agent agent_id specializations capabilities s) in
  unregister_agent agent_id s = MkRun (inl false) s []
  /\ status_total_agents (get_status registered)
     = S (status_total_agents (get_status s))
  /\ unregister_agent agent_id registered = MkRun (inl true) s [].
Proof.
  intros Hnew. cbv zeta. split; [|split].
  - unfold unregister_agent, bind, get. cbn [value final seen].
    unfold Py.contains. rewrite Hnew. reflexivity.
  - unfold register_agent, bind, modify, ret.
    cbn [value final seen get_status status_total_agents agents with_agents].
    apply length_set_absent, Hnew.
  - unfold register_agent, unregister_agent, bind, get, modify, ret.
    cbn [value final seen app agents with_agents].
    unfold Py.contains. rewrite get_set.
    cbn [value final seen app agents with_agents].
    rewrite (del_set_absent _ Hnew).
    f_equal. destruct s. reflexivity.
Qed.

Lemma register_unregister_round_trip_witness :
  let caps :=
    {| cap_performance_score := Some 0.7; cap_max_load := Some 4%Z;
       cap_skills := None |} in
  let s := final (register_agent "a" ["vision"%string] caps initial) in
  let registered := final (register_agent "b" [] caps s) in
  unregister_agent "b" s = MkRun (inl false) s []
  /\ status_total_agents (get_status registered)
     = S (status_total_agents (get_status s))
  /\ unregister_agent "b" registered = MkRun (inl true) s [].
Proof.
  apply (@register_unregister_round_trip "b" []
           {| cap_performance_score := Some 0.7; cap_max_load := Some 4%Z;
              cap_skills := None |}
           (final (register_agent "a" ["vision"%string]
                     {| cap_performance_score := Some 0.7;
                        cap_max_load := Some 4%Z; cap_skills := None |}
                     initial))).
  reflexivity.
Defined.

Lemma keys_set_present {V} (k : string) (v : V) (d : Py.dict V) :
  Py.contains k d = true -> map fst (Py.set k v d) = map fst d.
Proof.
  unfold Py.contains. induction d as [|[k' v'] d IH]; cbn; [discriminate|].
  destruct (String.eqb_spec k k') as [->|Hne]; cbn; [reflexivity|].
  intros H. rewrite (IH H). reflexivity.
Qed.

(** X19. Registering an id that is already registered
    replaces the agent in place: the ids and their order do not change,
    the other agents are untouched, and the agent is as new, with load 0
    and the performance score of the request (the float it names, 0.5 by
    default), whatever score and load it had. *)
Theorem registering_again_resets_agent (agent_id : string)
  (specializations : list string) (capabilities : Capabilities)
  (s : ThinkMeshOrchestrator) (old : AgentCapability) :
  Py.get agent_id (agents s) = Some old ->
  let r := register_agent agent_id specializations capabilities s in
  value r = inl true
  /\ map fst (agents (final r)) = map fst (agents s)
  /\ status_total_agents (get_status (final r))
     = status_total_agents (get_status s)
  /\ (forall k, k <> agent_id ->
        Py.get k (agents (final r)) = Py.get k (agents s))
  /\ exists a,
       Py.get agent_id (agents (final r)) = Some a
       /\ current_load a = 0%Z
       /\ performance_score a
          = Py.float (default 0.5 (cap_performance_score capabilities))
       /\ max_load a = default 10%Z (cap_max_load capabilities)
       /\ Orchestrator.specializations a = specializations
       /\ availability a = true.
Proof.
  intros Hold. cbv zeta. unfold register_agent, bind, modify, ret.
  cbn [value final seen agents with_agents get_status status_total_agents].
  assert (Hkeys : forall v : AgentCapability,
            map fst (Py.set agent_id v (agents s)) = map fst (agents s)).
  { intros v. apply keys_set_present. unfold Py.contains.
    rewrite Hold. reflexivity. }
  split; [reflexivity|]. split; [apply Hkeys|]. split.
  { rewrite <- (length_map fst), Hkeys, length_map. reflexivity. }
  split; [intros k Hk; apply get_set_ne, Hk|].
  eexists. split; [apply get_set|]. repeat split; reflexivity.
Qed.

Lemma registering_again_resets_agent_witness :
  let busy :=
    {| agent_id := "a"; specializations := ["vision"%string];
       performance_score := 0.93; availability := true; current_load := 2;
       max_load := 5; skills := [] |} in
  let s := with_agents [("a"%string, busy)] initial in
  let caps :=
    {| cap_performance_score := None; cap_max_load := None;
       cap_skills := None |} in
  let r := register_agent "a" ["audio"%string] caps s in
  value r = inl true
  /\ map fst (agents (final r)) = map fst (agents s)
  /\ status_total_agents (get_status (final r))
     = status_total_agents (get_status s)
  /\ (forall k, k <> "a"%string ->
        Py.get k (agents (final r)) = Py.get k (agents s))
  /\ exists a,
       Py.get "a" (agents (final r)) = Some a
       /\ current_load a = 0%Z
       /\ performance_score a = Py.float 0.5
       /\ max_load a = 10%Z
       /\ Orchestrator.specializations a = ["audio"%string]
       /\ availability a = true.
Proof.
  apply (@registering_again_resets_agent "a" ["audio"%string]
           {| cap_performance_score := None; cap_max_load := None;
              cap_skills := None |}
           (with_agents
              [("a"%string,
                {| agent_id := "a"; specializations := ["vision"%string];
                   performance_score := 0.93; availability := true;
                   current_load := 2; max_load := 5; skills := [] |})]
              initial)
           {| agent_id := "a"; specializations := ["vision"%string];
              performance_score := 0.93; availability := true;
              current_load := 2; max_load := 5; skills := [] |}).
  reflexivity.
Defined.

(* ------------------------------------------------------------------ *)
(** ** Subtasks and consensus *)
(* ------------------------------------------------------------------ *)

Lemma to_uint_nonnil n : Nat.to_uint n <> Decimal.Nil.
Proof.
  pose proof (Unsigned.to_of (Nat.to_uint n)) as H.
  rewrite Unsigned.of_to in H. rewrite H. apply unorm_nonnil.
Qed.

Lemma str_nat_inj n m : Py.str_nat n = Py.str_nat m -> n = m.
Proof.
  unfold Py.str_nat. intros H.
  apply (f_equal NilZero.uint_of_string) in H.
  rewrite !NilZero.usu in H by apply to_uint_nonnil.
  injection H as H. apply Unsigned.to_uint_inj, H.
Qed.

Lemma append_inj_l (p a b : string) : (p ++ a = p ++ b)%string -> a = b.
Proof.
  induction p as [|c p IH]; cbn; [auto|].
  intros H. injection H as H. apply IH, H.
Qed.

Lemma create_subtasks_lookup task n i :
  (i < n)%nat ->
  _create_subtasks task n !! i
  = Some {| sub_id := task_id task ++ "_sub_" ++ Py.str_nat i;
            sub_type := task_type task ++ "_part";
            sub_requirements := requirements task;
            sub_context :=
              Py.set "total_subtasks" (VInt (Z.of_nat n))
                (Py.set "subtask_index" (VInt (Z.of_nat i)) (context task)) |}.
Proof.
  intros Hi. unfold _create_subtasks.
  rewrite list_lookup_fmap, lookup_seq_lt by exact Hi. reflexivity.
Qed.

(** X20. [_create_subtasks] returns [num_subtasks] subtasks with
    pairwise distinct ids; the one at index [i] has the id of the task
    followed by "_sub_" and [i], the requirements of the task, and the
    context of the task in which "subtask_index" is [i] and
    "total_subtasks" is [num_subtasks] (overriding entries of those names)
    and every other entry is as in the task. *)
Theorem subtasks_are_indexed (task : Task) (num_subtasks : nat) :
  let subtasks := _create_subtasks task num_subtasks in
  length subtasks = num_subtasks
  /\ NoDup (map sub_id subtasks)
  /\ forall i, (i < num_subtasks)%nat ->
       exists sub,
         subtasks !! i = Some sub
         /\ sub_id sub = (task_id task ++ "_sub_" ++ Py.str_nat i)%string
         /\ sub_type sub = (task_type task ++ "_part")%string
         /\ sub_requirements sub = requirements task
         /\ Py.get "subtask_index" (sub_context sub)
            = Some (VInt (Z.of_nat i))
         /\ Py.get "total_subtasks" (sub_context sub)
            = Some (VInt (Z.of_nat num_subtasks))
         /\ forall k, k <> "subtask_index"%string ->
                      k <> "total_subtasks"%string ->
                      Py.get k (sub_context sub) = Py.get k (context task).
Proof.
  cbv zeta. split; [|split].
  - unfold _create_subtasks. rewrite length_map, length_seq. reflexivity.
  - unfold _create_subtasks. rewrite map_map. cbn [sub_id].
    apply NoDup_fmap_2_strong; [|apply NoDup_seq].
    intros i j _ _ H. apply append_inj_l, append_inj_l in H.
    apply str_nat_inj, H.
  - intros i Hi. eexists. split; [apply create_subtasks_lookup, Hi|].
    cbn [sub_id sub_type sub_requirements sub_context].
    do 3 (split; [reflexivity|]). split; [|split].
    + rewrite get_set_ne by discriminate. apply get_set.
    + apply get_set.
    + intros k H1 H2. rewrite !get_set_ne by assumption. reflexivity.
Qed.

(** [_achieve_consensus] returns [None] for the empty list
    only; for a non-empty list it returns one of the results it was
    given, and when all results have the same string form it returns the
    first of them. *)
Theorem consensus_returns_a_result :
  forall (A : Type) (str : A -> string) (results : list A),
    (_achieve_consensus str results = None <-> results = [])
    /\ (forall r, _achieve_consensus str results = Some r -> r ∈ results)
    /\ (forall r0 rest,
          results = r0 :: rest ->
          (forall x, x ∈ rest -> str x = str r0) ->
          _achieve_consensus str results = Some r0).
Proof.
  intros A str results. destruct results as [|r0 rest].
  - split; [split; reflexivity|]. split; [|discriminate].
    intros r H. discriminate H.
  - destruct (achieve_consensus_first_most_frequent str r0 rest)
      as (r & before & after & Hr & Hsplit & Hbefore & _).
    split; [rewrite Hr; split; discriminate|]. split.
    + intros r' H. rewrite Hr in H. injection H as <-.
      rewrite Hsplit. apply elem_of_app. right. apply elem_of_cons. auto.
    + intros r1 rest1 [= <- <-] Hsame. rewrite Hr. f_equal.
      destruct before as [|b before'].
      * cbn in Hsplit. congruence.
      * exfalso. cbn in Hsplit. injection Hsplit as <- Hrest.
        apply Forall_cons in Hbefore as [Hlt _].
        assert (Hin : r ∈ rest)
          by (rewrite Hrest; apply elem_of_app; right; apply elem_of_cons; auto).
        unfold votes in Hlt. rewrite (Hsame r Hin) in Hlt. lia.
Qed.

(* ------------------------------------------------------------------ *)
(** ** What becomes of a routed task *)
(* ------------------------------------------------------------------ *)

Lemma del_absent {V} (k : string) (d : Py.dict V) :
  Py.contains k d = false -> Py.del k d = d.
Proof.
  unfold Py.contains. induction d as [|[k' v'] d IH]; cbn; [reflexivity|].
  destruct (String.eqb k k'); [discriminate|].
  intros H. rewrite (IH H). reflexivity.
Qed.

(** [_complete_task] in one step. *)
Lemma complete_task_run t task s :
  _complete_task t task s
  = MkRun (inl tt)
      (with_completed_tasks (completed_tasks s ++ [t])
         (with_active_tasks (Py.del (task_id task) (active_tasks s)) s)) [].
Proof.
  unfold _complete_task, bind, get, modify. cbn [value final seen].
  destruct (Py.contains (task_id task) (active_tasks s)) eqn:E;
    cbn [value final seen app completed_tasks with_active_tasks ret].
  - reflexivity.
  - rewrite (del_absent E). destruct s. reflexivity.
Qed.

(** Running a sequence step by step. *)
Lemma bind_pure {A B} (m : M A) (k : A -> M B) s a s1 :
  m s = MkRun (inl a) s1 [] -> bind m k s = k a s1.
Proof.
  intros H. unfold bind. rewrite H. cbn [value final seen app].
  destruct (k a s1). reflexivity.
Qed.

Lemma bind_step {A B} (m : M A) (k : A -> M B) s a s1 l v s2 l2 :
  m s = MkRun (inl a) s1 l -> k a s1 = MkRun v s2 l2 ->
  bind m k s = MkRun v s2 (l ++ l2).
Proof.
  intros H Hk. unfold bind. rewrite H. cbn [value final seen].
  rewrite Hk. reflexivity.
Qed.

Lemma bind_raise {A B} (m : M A) (k : A -> M B) s e s1 l :
  m s = MkRun (inr e) s1 l -> bind m k s = MkRun (inr e) s1 l.
Proof. intros H. unfold bind. rewrite H. reflexivity. Qed.

Lemma modify_run f s : modify f s = MkRun (inl tt) (f s) [].
Proof. reflexivity. Qed.

(** The last statements of a routing: result, status, completion. *)
Lemma finish_run t task v st s :
  (set_result t v >> set_status t st >> _complete_task t task) s
  = MkRun (inl tt)
      (with_completed_tasks (completed_tasks s ++ [t])
         (with_active_tasks (Py.del (task_id task) (active_tasks s))
            (update_task t (with_status st)
               (update_task t (with_result v) s)))) [].
Proof.
  unfold set_result, set_status.
  rewrite (bind_pure _ (modify_run _ s)).
  rewrite (bind_pure _ (modify_run _ _)).
  rewrite complete_task_run. reflexivity.
Qed.

Section Outcomes.
Variable str : PyValue -> string.

Lemma sequential_routing_run env t task s best rest :
  value (_find_suitable_agents task s) = inl (best :: rest) ->
  let assigned :=
    update_task t (with_assigned_agents [agent_id (snd best)]) s in
  let started := update_agent (fst best) (add_load 1) assigned in
  let ended := settle (outcome_of env (fst best)) (fst best) started in
  _sequential_routing env t task s
  = match outcome_value (outcome_of env (fst best)) best (task_id task) with
    | inl v =>
        MkRun (inl tt)
          (with_completed_tasks (completed_tasks ended ++ [t])
             (with_active_tasks (Py.del (task_id task) (active_tasks ended))
                (update_task t (with_status "completed")
                   (update_task t (with_result v) ended)))) [started]
    | inr e => MkRun (inr e) ended [started]
    end.
Proof.
  intros Hv. cbv zeta.
  apply find_suitable_agents_returns in Hv as [Hrun _].
  unfold _sequential_routing. rewrite (bind_pure _ Hrun).
  unfold set_assigned_agents. rewrite (bind_pure _ (modify_run _ s)).
  unfold execute_for.
  destruct (outcome_value (outcome_of env (fst best)) best (task_id task))
    as [v|e] eqn:E.
  - erewrite bind_step;
      [|rewrite execute_on_agent_run, E; reflexivity | apply finish_run].
    reflexivity.
  - erewrite bind_raise;
      [|rewrite execute_on_agent_run, E; reflexivity].
    reflexivity.
Qed.

(** X21. Under the SEQUENTIAL strategy a task with at
    least one suitable agent is given to the first of them. If the
    execution completes, the task gets its result and the status
    "completed" and moves from [active_tasks] to [completed_tasks]. If it
    raises, [_route_task] swallows the exception: the task gets the status
    "failed" and stays in [active_tasks], it is not appended to
    [completed_tasks]. If it is cancelled, the cancellation leaves
    [_route_task] and the task keeps the status it had. The routing
    suspends once, while the execution is in flight. *)
Theorem sequential_route_outcomes (env : Env) (t : nat) (task : Task)
  (s : ThinkMeshOrchestrator) (best : AgentRef) (rest : list AgentRef) :
  strategy s = SEQUENTIAL ->
  tasks s !! t = Some task ->
  value (_find_suitable_agents task s) = inl (best :: rest) ->
  let r := _route_task str env t task s in
  let assigned := with_assigned_agents [agent_id (snd best)] task in
  length (seen r) = 1%nat
  /\ match outcome_of env (fst best) with
     | Completes timestamp =>
         value r = inl tt
         /\ tasks (final r) !! t
            = Some (with_status "completed"
                      (with_result
                         (VResult (agent_id (snd best)) (task_id task)
                            timestamp) assigned))
         /\ active_tasks (final r) = Py.del (task_id task) (active_tasks s)
         /\ completed_tasks (final r) = completed_tasks s ++ [t]
     | Fails msg =>
         value r = inl tt
         /\ tasks (final r) !! t = Some (with_status "failed" assigned)
         /\ active_tasks (final r) = active_tasks s
         /\ completed_tasks (final r) = completed_tasks s
     | Cancelled =>
         value r = inr CancelledError
         /\ tasks (final r) !! t = Some assigned
         /\ active_tasks (final r) = active_tasks s
         /\ completed_tasks (final r) = completed_tasks s
     end.
Proof.
  intros Hstrategy Ht Hv. cbv zeta.
  unfold _route_task, try_except.
  rewrite (bind_pure (fun o => route_by str (strategy o) env t task)
             (eq_refl : get s = MkRun (inl s) s [])).
  rewrite Hstrategy. cbn [route_by].
  rewrite (sequential_routing_run env t Hv). cbv zeta.
  destruct (outcome_of env (fst best)) as [timestamp|msg|];
    cbn [outcome_value value final seen app length settle set_status modify
         update_agent update_task tasks active_tasks completed_tasks
         with_agents with_tasks with_active_tasks with_completed_tasks];
    rewrite ?list_lookup_alter_eq, Ht;
    (split; [reflexivity|]); repeat split; reflexivity.
Qed.

Lemma books_gathered env positions s :
  books (settle_all env positions (begin_all positions s)) = books s.
Proof. rewrite books_settle_all. apply books_begin_all. Qed.

Lemma gathered_frame env positions s :
  let s' := settle_all env positions (begin_all positions s) in
  tasks s' = tasks s /\ active_tasks s' = active_tasks s
  /\ completed_tasks s' = completed_tasks s.
Proof.
  cbv zeta. pose proof (books_gathered env positions s) as H.
  unfold books in H. injection H as H1 H2 H3 _. auto.
Qed.

Lemma take_min {B} (n : nat) (l : list B) :
  take (Nat.min n (length l)) l = take n l.
Proof.
  destruct (Nat.le_ge_cases n (length l)) as [H|H].
  - rewrite Nat.min_l by exact H. reflexivity.
  - rewrite Nat.min_r by exact H. rewrite !take_ge by lia. reflexivity.
Qed.

Lemma positions_same_task task (l : list AgentRef) :
  map (fun j : AgentRef * string => fst (fst j)) (same_task task l)
  = map fst l.
Proof. unfold same_task. rewrite map_map. reflexivity. Qed.

Lemma parallel_routing_run env t task s best rest :
  value (_find_suitable_agents task s) = inl (best :: rest) ->
  let selected := take 3 (best :: rest) in
  let results := map (gathered (outcome_of env)) (same_task task selected) in
  let result := first_not_exception results in
  let assigned :=
    update_task t (with_assigned_agents (agent_ids selected)) s in
  let started := begin_all (map fst selected) assigned in
  let ended := settle_all (outcome_of env) (map fst selected) started in
  _parallel_routing env t task s
  = MkRun (inl tt)
      (with_completed_tasks (completed_tasks ended ++ [t])
         (with_active_tasks (Py.del (task_id task) (active_tasks ended))
            (update_task t
               (with_status (if truthy result then "completed" else "failed"))
               (update_task t (with_result result) ended)))) [started].
Proof.
  intros Hv. cbv zeta.
  apply find_suitable_agents_returns in Hv as [Hrun _].
  unfold _parallel_routing. rewrite (bind_pure _ Hrun).
  cbv zeta. rewrite take_min.
  unfold set_assigned_agents. rewrite (bind_pure _ (modify_run _ s)).
  erewrite bind_step; [|apply gather_execute_run | apply finish_run].
  cbv zeta. rewrite positions_same_task. reflexivity.
Qed.

(** X22. Under the PARALLEL strategy a task with at least
    one suitable agent is given to the first three of them (fewer if there
    are fewer). The routing never raises and always moves the task from
    [active_tasks] to [completed_tasks], also when it fails. The result is
    the first gathered value that is not an exception, in rank order:
    when every execution raises there is none and the status is "failed";
    a cancelled execution is not an exception, so when the first agent's
    execution is cancelled the cancellation itself becomes the result and
    the status is "completed". *)
Theorem parallel_route_outcomes (env : Env) (t : nat) (task : Task)
  (s : ThinkMeshOrchestrator) (best : AgentRef) (rest : list AgentRef) :
  strategy s = PARALLEL ->
  tasks s !! t = Some task ->
  value (_find_suitable_agents task s) = inl (best :: rest) ->
  let selected := take 3 (best :: rest) in
  let results := map (gathered (outcome_of env)) (same_task task selected) in
  let outcome := first_not_exception results in
  let r := _route_task str env t task s in
  value r = inl tt
  /\ length (seen r) = 1%nat
  /\ tasks (final r) !! t
     = Some (with_status (if truthy outcome then "completed" else "failed")
               (with_result outcome
                  (with_assigned_agents (agent_ids selected) task)))
  /\ active_tasks (final r) = Py.del (task_id task) (active_tasks s)
  /\ completed_tasks (final r) = completed_tasks s ++ [t]
  /\ ((forall a, a ∈ selected -> exists msg, outcome_of env (fst a) = Fails msg) ->
      outcome = VNone /\ truthy outcome = false)
  /\ (outcome_of env (fst best) = Cancelled ->
      outcome = VCancelledError /\ truthy outcome = true)
  /\ (forall timestamp, outcome_of env (fst best) = Completes timestamp ->
      outcome = VResult (agent_id (snd best)) (task_id task) timestamp).
Proof.
  intros Hstrategy Ht Hv. cbv zeta.
  unfold _route_task, try_except.
  rewrite (bind_pure (fun o => route_by str (strategy o) env t task)
             (eq_refl : get s = MkRun (inl s) s [])).
  rewrite Hstrategy. cbn [route_by].
  rewrite (parallel_routing_run env t Hv). cbv zeta.
  set (selected := take 3 (best :: rest)).
  set (assigned := update_task t (with_assigned_agents (agent_ids selected)) s).
  destruct (gathered_frame (outcome_of env) (map fst selected) assigned)
    as (Htasks & Hactive & Hcompleted).
  cbv zeta in Htasks, Hactive, Hcompleted.
  cbn [value final seen length].
  do 2 (split; [reflexivity|]).
  cbn [tasks active_tasks completed_tasks update_task with_tasks
       with_active_tasks with_completed_tasks].
  rewrite Htasks, Hactive, Hcompleted.
  split.
  { rewrite !list_lookup_alter_eq. unfold assigned.
    cbn [tasks update_task with_tasks]. rewrite list_lookup_alter_eq, Ht.
    reflexivity. }
  do 2 (split; [reflexivity|]).
  split; [|split].
  - intros Hall.
    assert (Hnone : List.find (fun r => negb (isinstance_Exception r))
                      (map (gathered (outcome_of env))
                         (same_task task selected)) = None).
    { clearbody selected. clear - Hall.
      induction selected as [|a l IH]; [reflexivity|].
      cbn [same_task map List.find].
      destruct (Hall a) as [msg Hmsg]; [apply elem_of_cons; auto|].
      unfold gathered at 1. cbn [fst snd]. rewrite Hmsg.
      cbn [outcome_value isinstance_Exception negb].
      apply IH. intros b Hb. apply Hall. apply elem_of_cons. auto. }
    unfold first_not_exception. rewrite Hnone. split; reflexivity.
  - intros Hc. unfold first_not_exception, selected.
    cbn [take same_task map List.find].
    assert (Hg : gathered (outcome_of env) (best, task_id task)
                 = VCancelledError)
      by (unfold gathered; cbn [fst snd]; rewrite Hc; reflexivity).
    rewrite Hg. split; reflexivity.
  - intros timestamp Hc. unfold first_not_exception, selected.
    cbn [take same_task map List.find].
    assert (Hg : gathered (outcome_of env) (best, task_id task)
                 = VResult (agent_id (snd best)) (task_id task) timestamp)
      by (unfold gathered; cbn [fst snd]; rewrite Hc; reflexivity).
    rewrite Hg. reflexivity.
Qed.

End Outcomes.

Definition one_agent_state : ThinkMeshOrchestrator :=
  with_task_queue []
    (final (run example_str
              [Initialize;
               RegisterAgent "a" ["vision"%string]
                 {| cap_performance_score := None; cap_max_load := None;
                    cap_skills := None |};
               SetStrategy SEQUENTIAL;
               SubmitTask "u1" "now" "job"
                 {| req_specializations := []; req_skills := [] |} []
                 NORMAL None]
              initial)).

Definition plain_task : Task :=
  {| task_id := "u1"; task_type := "job"; priority := NORMAL;
     requirements := {| req_specializations := []; req_skills := [] |};
     context := []; created_at := "now"; deadline := None;
     status := "pending"; assigned_agents := []; result := VNone |}.

Definition fresh_agent (name : string) (specs : list string)
  : AgentCapability :=
  {| agent_id := name; specializations := specs;
     performance_score := Py.float 0.5; availability := true;
     current_load := 0; max_load := 10; skills := [] |}.

Definition stormy : Env :=
  {| outcome_of := fun _ => Fails "boom"; first_done := 0;
     python_minor := 10 |}.

Lemma sequential_route_outcomes_witness :
  let r := _route_task example_str stormy 0 plain_task one_agent_state in
  length (seen r) = 1%nat
  /\ value r = inl tt
  /\ tasks (final r) !! 0%nat
     = Some (with_status "failed"
               (with_assigned_agents ["a"%string] plain_task))
  /\ active_tasks (final r) = active_tasks one_agent_state
  /\ completed_tasks (final r) = completed_tasks one_agent_state.
Proof.
  apply (@sequential_route_outcomes example_str stormy 0%nat plain_task
           one_agent_state (0%nat, fresh_agent "a" ["vision"%string]) []);
    reflexivity.
Defined.

Definition one_agent_parallel : ThinkMeshOrchestrator :=
  with_strategy PARALLEL one_agent_state.

Lemma parallel_route_outcomes_witness :
  let r := _route_task example_str stormy 0 plain_task one_agent_parallel in
  value r = inl tt
  /\ tasks (final r) !! 0%nat
     = Some (with_status "failed"
               (with_result VNone
                  (with_assigned_agents ["a"%string] plain_task)))
  /\ active_tasks (final r) = []
  /\ completed_tasks (final r) = [0%nat].
Proof.
  pose proof (@parallel_route_outcomes example_str stormy 0%nat plain_task
                one_agent_parallel (0%nat, fresh_agent "a" ["vision"%string])
                [] eq_refl eq_refl eq_refl) as (Hv & _ & Ht & Ha & Hc & _).
  exact (conj Hv (conj Ht (conj Ha Hc))).
Defined.

(* ------------------------------------------------------------------ *)
(** ** Strategies that coincide *)
(* ------------------------------------------------------------------ *)

Lemma max_by_head {B} (key : B -> Q) (best : B) (l : list B) :
  Forall (fun y => key y <= key best) l -> Py.max_by key best l = best.
Proof.
  induction 1 as [|x l Hx _ IH]; [reflexivity|].
  cbn [Py.max_by]. unfold Py.lt.
  rewrite (proj2 (Qle_bool_iff (key x) (key best)) Hx). exact IH.
Qed.

Lemma ranked_head (first : AgentRef) (others : list AgentRef) :
  ranked (first :: others) ->
  Forall (fun y : AgentRef => load_key (snd y) <= load_key (snd first)) others.
Proof.
  intros H. apply StronglySorted_inv in H as [_ H].
  eapply Forall_impl; [exact H|]. intros y [Hlt|[Heq _]]; cbn beta in *.
  - apply Qlt_le_weak, Hlt.
  - rewrite Heq. apply Qle_refl.
Qed.

Lemma score_without_skills env task a :
  req_skills (requirements task) = [] -> score_agent env task a = load_key a.
Proof. intros H. unfold score_agent. rewrite H. reflexivity. Qed.

(** X23. For a task that requires no skills the
    ADAPTIVE strategy does exactly what SEQUENTIAL does: the suitable
    agents come sorted by the score that ADAPTIVE maximizes, and [max]
    returns the first maximal element, which is the first agent. With
    fewer than three suitable agents CONSENSUS does exactly what PARALLEL
    does, and without a coordinator HIERARCHICAL does exactly what
    ADAPTIVE does. *)
Theorem strategies_that_coincide :
  (forall env t task s,
     req_skills (requirements task) = [] ->
     _adaptive_routing env t task s = _sequential_routing env t task s)
  /\ (forall str env t task s suitable,
        value (_find_suitable_agents task s) = inl suitable ->
        (length suitable < 3)%nat ->
        _consensus_routing str env t task s = _parallel_routing env t task s)
  /\ (forall env t task s,
        List.find is_coordinator (enumerate (agents s)) = None ->
        _hierarchical_routing env t task s = _adaptive_routing env t task s).
Proof.
  split; [|split].
  - intros env t task s Hskills.
    unfold _adaptive_routing, _sequential_routing.
    destruct (value (_find_suitable_agents task s)) as [suitable|e] eqn:Hv.
    + pose proof (suitable_ranked Hv) as Hranked.
      apply find_suitable_agents_returns in Hv as [Hrun _].
      rewrite !(bind_pure _ Hrun).
      destruct suitable as [|first others]; [reflexivity|].
      cbv zeta. rewrite max_by_head; [reflexivity|].
      eapply Forall_impl; [apply (ranked_head Hranked)|].
      intros y Hy. cbn beta. rewrite !(score_without_skills env _ Hskills).
      exact Hy.
    + unfold bind. rewrite Hv. reflexivity.
  - intros str env t task s suitable Hv Hlen.
    apply find_suitable_agents_returns in Hv as [Hrun _].
    unfold _consensus_routing. rewrite (bind_pure _ Hrun).
    apply Nat.ltb_lt in Hlen. rewrite Hlen. reflexivity.
  - intros env t task s Hnone. unfold _hierarchical_routing.
    rewrite (bind_pure _ (eq_refl : get s = MkRun (inl s) s [])).
    rewrite Hnone. reflexivity.
Qed.

(* ------------------------------------------------------------------ *)
(** ** Shutdown ([shutdown]) *)
(* ------------------------------------------------------------------ *)

Section Shutdown.
Variable str : PyValue -> string.

(** The loop [while self.active_tasks: await asyncio.sleep(0.1)]. During
    each sleep the other coroutines run: [sleeps] lists, sleep after
    sleep, the calls that are performed meanwhile. The value is [true]
    when the loop is left, [false] when the orchestrator is still waiting
    after the last of the listed sleeps. *)
Fixpoint shutdown_wait (sleeps : list (list Call)) : M bool :=
  let* o := get in
  if is_nonempty (active_tasks o)
  then
    match sleeps with
    | [] => ret false
    | during :: later => suspend >> run str during >> shutdown_wait later
    end
  else ret true.

Definition shutdown (sleeps : list (list Call)) : M bool :=
  modify (with_running false) >> shutdown_wait sleeps.

Lemma safe_pre (Inv : ThinkMeshOrchestrator -> Prop) {A}
  (P P' : ThinkMeshOrchestrator -> Prop) (m : M A) Q :
  (forall s, P' s -> P s) -> safe Inv P m Q -> safe Inv P' m Q.
Proof. intros HP Hm s Hg Hs. apply (Hm s Hg (HP s Hs)). Qed.

Lemma harmless_suspend (Inv : ThinkMeshOrchestrator -> Prop) :
  harmless Inv suspend.
Proof.
  intros s Hs _. cbn. split; [exact Hs|].
  split; [constructor; [exact Hs | constructor] | intros; exact I].
Qed.

Lemma stuck_nonempty ft t s :
  stuck ft t s -> is_nonempty (active_tasks s) = true.
Proof.
  intros (_ & Ha & _). destruct (active_tasks s); [discriminate | reflexivity].
Qed.

Lemma stuck_running ft t v s : stuck ft t s -> stuck ft t (with_running v s).
Proof. apply stuck_books. reflexivity. Qed.

Lemma shutdown_wait_stuck ft t sleeps :
  Forall (fun during => forallb (avoids (task_id ft)) during = true) sleeps ->
  safe (stuck ft t) always (shutdown_wait sleeps) (fun b _ => b = false).
Proof.
  induction sleeps as [|during later IH]; intros Hall; cbn [shutdown_wait].
  - eapply safe_bind; [apply safe_get|]. intros o s Hs [-> _].
    rewrite (stuck_nonempty Hs). cbn.
    split; [exact Hs|]. split; [constructor|]. intros a [= <-]. reflexivity.
  - apply Forall_cons in Hall as [Hduring Hlater].
    eapply safe_bind; [apply safe_get|]. intros o s Hs [-> _].
    rewrite (stuck_nonempty Hs).
    assert (H : safe (stuck ft t) always
                  (suspend >> run str during >> shutdown_wait later)
                  (fun b _ => b = false)).
    { eapply safe_bind; [apply harmless_suspend|].
      intros ?. eapply safe_bind.
      - apply safe_of_harmless, (@stuck_run str ft t during Hduring).
      - intros ?. eapply safe_pre; [|apply (IH Hlater)]. intros; exact I. }
    exact (H s Hs I).
Qed.

Lemma stuck_task_status ft t s :
  stuck ft t s ->
  get_task_status (task_id ft) s
  = Some (ActiveTask (task_id ft) (task_type ft) (status ft)
            (priority_name (priority ft)) (assigned_agents ft)
            (created_at ft)).
Proof.
  intros (Ht & Ha & _). unfold get_task_status. rewrite Ha, Ht. reflexivity.
Qed.

(** X24. With no active task [shutdown] clears [_running] and
    returns at once. With a task that is in [active_tasks] but neither
    queued nor completed (a task whose routing failed, for one), the
    waiting loop of [shutdown] is never left, whatever calls are made
    during its sleeps (submissions drawing other ids, registrations,
    strategy changes, iterations of the consumer): in every state seen
    meanwhile, and in the last one, the task is still active and
    [get_task_status] still answers for it from the active tasks. *)
Theorem shutdown_waits_for_active_tasks :
  (forall sleeps s,
     active_tasks s = [] ->
     shutdown sleeps s = MkRun (inl true) (with_running false s) [])
  /\ (forall ft t sleeps s,
        stuck ft t s ->
        Forall (fun during => forallb (avoids (task_id ft)) during = true)
          sleeps ->
        let r := shutdown sleeps s in
        value r <> inl true
        /\ Forall (fun s' =>
                     is_nonempty (active_tasks s') = true
                     /\ get_task_status (task_id ft) s'
                        = Some (ActiveTask (task_id ft) (task_type ft)
                                  (status ft) (priority_name (priority ft))
                                  (assigned_agents ft) (created_at ft)))
             (seen r ++ [final r])).
Proof.
  split.
  - intros sleeps s Hnone. unfold shutdown.
    rewrite (bind_pure _ (modify_run _ s)).
    destruct sleeps; cbn [shutdown_wait];
      rewrite (bind_pure _ (eq_refl : get (with_running false s) = MkRun (inl (with_running false s)) (with_running false s) []));
      cbn [active_tasks with_running]; rewrite Hnone; reflexivity.
  - intros ft t sleeps s Hs Hall r.
    assert (Hsafe : safe (stuck ft t) always (shutdown sleeps)
                      (fun b _ => b = false)).
    { unfold shutdown. eapply safe_bind.
      - apply harmless_modify. intros s'. apply stuck_running.
      - intros ?. eapply safe_pre; [|apply (@shutdown_wait_stuck ft t sleeps Hall)].
        intros; exact I. }
    destruct (Hsafe s Hs I) as (Hfinal & Hseen & Hvalue). fold r in Hfinal, Hseen, Hvalue.
    split.
    + intros Htrue. specialize (Hvalue true Htrue). discriminate.
    + apply Forall_app. split; [|constructor; [|constructor]].
      * eapply Forall_impl; [exact Hseen|]. intros s' Hs'.
        split; [apply (stuck_nonempty Hs')
               | apply (stuck_task_status Hs')].
      * split; [apply (stuck_nonempty Hfinal)
               | apply (stuck_task_status Hfinal)].
Qed.

End Shutdown.

Lemma shutdown_waits_for_active_tasks_witness :
  let s := final (_route_task example_str calm 0 audio_task vision_only) in
  let r := shutdown example_str [later_calls; []; [ProcessNext calm]] s in
  value r <> inl true
  /\ Forall (fun s' =>
               is_nonempty (active_tasks s') = true
               /\ get_task_status "u1" s'
                  = Some (ActiveTask "u1" "job" "failed" "NORMAL" [] "now"))
       (seen r ++ [final r]).
Proof.
  apply (proj2 (shutdown_waits_for_active_tasks example_str)
           (with_status "failed" audio_task) 0%nat
           [later_calls; []; [ProcessNext calm]]
           (final (_route_task example_str calm 0 audio_task vision_only))).
  - apply (@stuck_after_failed_route example_str calm 0%nat audio_task
             vision_only).
    + reflexivity.
    + split; [reflexivity|]. intros H. vm_compute in H. discriminate H.
    + reflexivity.
    + intros H. vm_compute in H. inversion H.
    + intros H. vm_compute in H. inversion H.
    + intros x tx H. vm_compute in H. inversion H.
  - repeat constructor.
Defined.

(* ------------------------------------------------------------------ *)
(** ** What lasts along a history

    [lasting]: every registered agent satisfies [Q], a property of agents
    that adding to the load and adjusting the score keep, and the
    completed tasks extend the list [done]. *)
(* ------------------------------------------------------------------ *)

Section Lasting.
Variable str : PyValue -> string.
Variable Q : AgentCapability -> Prop.
Variable done : list nat.
Hypothesis Q_add_load : forall d a, Q a -> Q (add_load d a).
Hypothesis Q_reward : forall a, Q a -> Q (reward a).
Hypothesis Q_penalize : forall a, Q a -> Q (penalize a).

Definition lasting (s : ThinkMeshOrchestrator) : Prop :=
  Forall (fun kv => Q (snd kv)) (agents s)
  /\ done `prefix_of` completed_tasks s.

Lemma lasting_frame s s' :
  agents s' = agents s -> completed_tasks s' = completed_tasks s ->
  lasting s -> lasting s'.
Proof. unfold lasting. intros -> ->. auto. Qed.

Lemma lasting_update_agent i f s :
  (forall a, Q a -> Q (f a)) -> lasting s -> lasting (update_agent i f s).
Proof.
  intros Hf [Ha Hd]. split; [|exact Hd].
  unfold update_agent. cbn [agents with_agents].
  apply Forall_alter; [exact Ha|]. intros [k a] _ H. cbn. apply Hf, H.
Qed.

Lemma lasting_settle outcome i s : lasting s -> lasting (settle outcome i s).
Proof.
  intros H. unfold settle.
  apply lasting_update_agent; [apply Q_add_load|].
  destruct outcome; [apply lasting_update_agent; auto
                    |apply lasting_update_agent; auto | exact H].
Qed.

Lemma lasting_begin_all positions s :
  lasting s -> lasting (begin_all positions s).
Proof.
  unfold begin_all. revert s.
  induction positions as [|i positions IH]; intros s H; [exact H|].
  cbn [fold_left]. apply IH, lasting_update_agent; [apply Q_add_load | exact H].
Qed.

Lemma lasting_settle_all env positions s :
  lasting s -> lasting (settle_all env positions s).
Proof.
  unfold settle_all. revert s.
  induction positions as [|i positions IH]; intros s H; [exact H|].
  cbn [fold_left]. apply IH, lasting_settle, H.
Qed.

Lemma lasting_set_status t v : harmless lasting (set_status t v).
Proof. apply harmless_modify. intros s. apply lasting_frame; reflexivity. Qed.

Lemma lasting_set_result t v : harmless lasting (set_result t v).
Proof. apply harmless_modify. intros s. apply lasting_frame; reflexivity. Qed.

Lemma lasting_set_assigned_agents t v :
  harmless lasting (set_assigned_agents t v).
Proof. apply harmless_modify. intros s. apply lasting_frame; reflexivity. Qed.

Lemma lasting_complete_task t task : harmless lasting (_complete_task t task).
Proof.
  intros s [Ha Hd] _. rewrite complete_task_run. cbn [value final seen].
  split; [|split; [constructor | intros; exact I]].
  split; [exact Ha|]. cbn [completed_tasks with_completed_tasks].
  apply prefix_app_r, Hd.
Qed.

Lemma lasting_execute_for env agent task_id :
  harmless lasting (execute_for env agent task_id).
Proof.
  intros s Hs _. unfold execute_for. rewrite execute_on_agent_run.
  cbn [value final seen].
  assert (Hstart : lasting (update_agent (fst agent) (add_load 1) s))
    by (apply lasting_update_agent; [apply Q_add_load | exact Hs]).
  split; [apply lasting_settle, Hstart|].
  split; [constructor; [exact Hstart | constructor] | intros; exact I].
Qed.

Lemma lasting_gather_execute env jobs :
  harmless lasting (gather_execute env jobs).
Proof.
  intros s Hs _. rewrite gather_execute_run. cbn [value final seen].
  match goal with
  | |- context [settle_all _ _ (begin_all ?p s)] =>
      assert (Hstart : lasting (begin_all p s)) by (apply lasting_begin_all, Hs)
  end.
  split; [apply lasting_settle_all, Hstart|].
  split; [constructor; [exact Hstart | constructor] | intros; exact I].
Qed.

Lemma lasting_wait_first_completed env task selected :
  harmless lasting (wait_first_completed env task selected).
Proof.
  intros s Hs _. rewrite wait_first_completed_run. cbn [value final seen].
  assert (Hstart : lasting (begin_all (map fst selected) s))
    by (apply lasting_begin_all, Hs).
  split; [|split; [constructor; [exact Hstart | constructor]
                  | intros; exact I]].
  eapply lasting_frame; [| |apply lasting_settle_all, Hstart]; reflexivity.
Qed.

Lemma lasting_deliver_cancellations : harmless lasting deliver_cancellations.
Proof.
  intros s Hs _. rewrite deliver_cancellations_run.
  destruct (cancelling s) as [|a pending]; cbn [value final seen].
  - split; [exact Hs|]. split; [constructor | intros; exact I].
  - split; [|split; [constructor; [exact Hs | constructor]
                    | intros; exact I]].
    eapply lasting_frame; [| |apply lasting_settle_all, Hs]; reflexivity.
Qed.

Ltac lasting_auto :=
  auto using harmless_ret, harmless_raise, harmless_first_result,
    harmless_find_suitable_agents, lasting_set_status, lasting_set_result,
    lasting_set_assigned_agents, lasting_complete_task, lasting_execute_for,
    lasting_gather_execute, lasting_wait_first_completed.

Lemma lasting_parallel_routing env t task :
  harmless lasting (_parallel_routing env t task).
Proof. unfold _parallel_routing. harmless_tail lasting_auto. Qed.

Lemma lasting_adaptive_routing env t task :
  harmless lasting (_adaptive_routing env t task).
Proof. unfold _adaptive_routing. harmless_tail lasting_auto. Qed.

Lemma lasting_route_by strategy env t task :
  harmless lasting (route_by str strategy env t task).
Proof.
  destruct strategy; cbn [route_by].
  - unfold _sequential_routing. harmless_tail lasting_auto.
  - apply lasting_parallel_routing.
  - unfold _hierarchical_routing.
    eapply safe_bind; [apply safe_get|]. intros o.
    destruct (List.find _ _);
      [|apply safe_of_harmless, lasting_adaptive_routing].
    apply safe_of_harmless. harmless_tail lasting_auto.
  - unfold _consensus_routing.
    apply harmless_bind; [apply harmless_find_suitable_agents|].
    intros l. destruct (length l <? 3)%nat;
      [apply lasting_parallel_routing|].
    harmless_tail lasting_auto.
  - unfold _competitive_routing. harmless_tail lasting_auto.
  - unfold _collaborative_routing. harmless_tail lasting_auto.
  - apply lasting_adaptive_routing.
Qed.

Lemma lasting_route_task env t task :
  harmless lasting (_route_task str env t task).
Proof.
  unfold _route_task. apply harmless_try_except.
  - eapply safe_bind; [apply safe_get|]. intros o.
    apply safe_of_harmless, lasting_route_by.
  - intros msg. apply lasting_set_status.
Qed.

Lemma lasting_process_next env : harmless lasting (process_next str env).
Proof.
  unfold process_next.
  apply harmless_try_finally; [|apply lasting_deliver_cancellations].
  eapply safe_bind; [apply safe_get|]. intros o. apply safe_of_harmless.
  destruct (_running o); [|apply harmless_ret].
  destruct (task_queue o) as [|t rest]; [apply harmless_ret|].
  apply harmless_bind.
  - apply harmless_modify. intros s. apply lasting_frame; reflexivity.
  - intros ?. destruct (tasks o !! t) as [task|]; [|apply harmless_ret].
    apply harmless_try_except; [apply lasting_route_task|].
    intros msg. apply harmless_ret.
Qed.

(** The agent object that [register_agent] builds. *)
Definition registered (agent_id : string) (specializations : list string)
  (capabilities : Capabilities) : AgentCapability :=
  {| agent_id := agent_id; specializations := specializations;
     performance_score :=
       Py.float (default 0.5 (cap_performance_score capabilities));
     availability := true; current_load := 0;
     max_load := default 10%Z (cap_max_load capabilities);
     skills := default [] (cap_skills capabilities) |}.

Definition fits (c : Call) : Prop :=
  match c with
  | RegisterAgent agent_id specializations capabilities =>
      Q (registered agent_id specializations capabilities)
  | _ => True
  end.

Lemma lasting_perform c : fits c -> harmless lasting (perform str c).
Proof.
  intros Hc. destruct c; cbn [perform fits] in *.
  - apply harmless_modify. intros s. apply lasting_frame; reflexivity.
  - apply harmless_modify. intros s. apply lasting_frame; reflexivity.
  - unfold register_agent. apply harmless_bind; [|intros; apply harmless_ret].
    apply harmless_bind; [|intros; apply harmless_ret].
    apply harmless_modify. intros s [Ha Hd]. split; [|exact Hd].
    cbn [agents with_agents]. apply Forall_dict_set; [exact Ha | exact Hc].
  - unfold unregister_agent. apply harmless_bind; [|intros; apply harmless_ret].
    eapply safe_bind; [apply safe_get|]. intros o.
    destruct (Py.contains _ _); [|apply safe_of_harmless, harmless_ret].
    intros s [Ha Hd] [-> _]. unfold bind, modify, ret.
    cbn [value final seen app].
    split; [|split; [constructor | intros; exact I]].
    split; [|exact Hd]. cbn [agents with_agents]. apply Forall_dict_del, Ha.
  - apply harmless_modify. intros s. apply lasting_frame; reflexivity.
  - unfold submit_task. apply harmless_bind; [|intros; apply harmless_ret].
    eapply safe_bind; [apply safe_get|]. intros o.
    apply safe_of_harmless.
    repeat (apply harmless_bind; [|intros ?]);
      try apply harmless_ret;
      apply harmless_modify; intros s; apply lasting_frame; reflexivity.
  - apply lasting_process_next.
Qed.

Lemma lasting_run calls :
  Forall fits calls -> harmless lasting (run str calls).
Proof.
  intros Hall. unfold run. apply harmless_history. intros c Hc.
  apply harmless_then_suspend, lasting_perform.
  rewrite Forall_forall in Hall. apply Hall, Hc.
Qed.

End Lasting.

Lemma harmless_states (Inv : ThinkMeshOrchestrator -> Prop) {A} (m : M A) s :
  harmless Inv m -> Inv s -> Forall Inv (seen (m s) ++ [final (m s)]).
Proof.
  intros Hm Hs. destruct (Hm s Hs I) as (Hfinal & Hseen & _).
  apply Forall_app. split; [exact Hseen|]. constructor; [exact Hfinal|].
  constructor.
Qed.

Lemma all_available_count (d : Py.dict AgentCapability) :
  Forall (fun kv => availability (snd kv) = true) d ->
  length (List.filter availability (Py.values d)) = length d.
Proof.
  induction 1 as [|[k a] d Ha _ IH]; [reflexivity|].
  unfold Py.values in *. cbn [map snd List.filter] in *.
  rewrite Ha. cbn [length]. rewrite IH. reflexivity.
Qed.

(** X25. Nothing in the orchestrator ever clears the
    availability of an agent: in every state of every history, in flight
    or not, every registered agent is available, so [get_status] reports
    as many active agents as agents. *)
Theorem agents_stay_available (str : PyValue -> string) (calls : list Call) :
  let r := run str calls initial in
  Forall (fun s' =>
            Forall (fun kv => availability (snd kv) = true) (agents s')
            /\ status_active_agents (get_status s')
               = status_total_agents (get_status s'))
    (seen r ++ [final r]).
Proof.
  cbv zeta.
  pose proof (@lasting_run str (fun a => availability a = true) []
                (fun d a H => H) (fun a H => H) (fun a H => H) calls) as Hrun.
  assert (Hfits : Forall (fits (fun a => availability a = true)) calls).
  { apply Forall_forall. intros c _. destruct c; exact I || reflexivity. }
  pose proof (harmless_states (Hrun Hfits)
                (conj (Forall_nil_2 _) (prefix_nil _) : lasting _ [] initial))
    as Hall.
  eapply Forall_impl; [exact Hall|]. intros s' [Ha _].
  split; [exact Ha|]. apply all_available_count, Ha.
Qed.


Definition score_in_range (c : Call) : bool :=
  match c with
  | RegisterAgent _ _ capabilities =>
      Py.le 0 (default 0.5 (cap_performance_score capabilities))
      && Py.le (default 0.5 (cap_performance_score capabilities)) 1
  | _ => true
  end.

(** X26. When the agents are registered with
    performance scores between 0 and 1, the score of every registered
    agent is between 0 and 1 in every state of the history, in flight or
    not, whatever the strategies and the outcomes of the executions. *)
Theorem scores_stay_bounded (str : PyValue -> string) (calls : list Call) :
  forallb score_in_range calls = true ->
  let r := run str calls initial in
  Forall (fun s' =>
            Forall (fun kv => 0 <= performance_score (snd kv)
                              /\ performance_score (snd kv) <= 1)
              (agents s'))
    (seen r ++ [final r]).
Proof.
  intros Hcalls. cbv zeta.
  set (Q := fun a => 0 <= performance_score a /\ performance_score a <= 1).
  assert (Hrun : harmless (lasting Q []) (run str calls)).
  { apply lasting_run.
    - intros d a H. exact H.
    - intros a [H0 H1]. apply reward_bounded; assumption.
    - intros a [H0 H1]. apply penalize_bounded; assumption.
    - apply Forall_forall. intros c Hc.
      rewrite forallb_forall in Hcalls.
      specialize (Hcalls c (proj1 (list_elem_of_In _ _) Hc)).
      destruct c; try exact I. cbn [score_in_range fits] in *.
      apply andb_true_iff in Hcalls as [H0 H1].
      apply Py.le_iff in H0, H1.
      unfold Q. cbn [registered performance_score]. split.
      + apply Py.float_nonneg, H0.
      + rewrite <- Py.float_1. apply Py.float_le_compat, H1. }
  pose proof (harmless_states Hrun
                (conj (Forall_nil_2 _) (prefix_nil _) : lasting Q [] initial))
    as Hall.
  eapply Forall_impl; [exact Hall|]. intros s' [Ha _]. exact Ha.
Qed.

Lemma scores_stay_bounded_witness :
  let r := run example_str busy_history initial in
  Forall (fun s' =>
            Forall (fun kv => 0 <= performance_score (snd kv)
                              /\ performance_score (snd kv) <= 1)
              (agents s'))
    (seen r ++ [final r]).
Proof.
  apply (@scores_stay_bounded example_str busy_history). reflexivity.
Defined.

(** X27. [completed_tasks] only grows at its end: in every
    state of every history from any state, in flight or not, the list of
    the start is a prefix of the list, so nothing is ever removed from it
    or reordered and the count that [get_status] reports never goes
    down. *)
Theorem completed_tasks_only_grow (str : PyValue -> string)
  (calls : list Call) (s : ThinkMeshOrchestrator) :
  let r := run str calls s in
  Forall (fun s' =>
            completed_tasks s `prefix_of` completed_tasks s'
            /\ (status_completed_tasks (get_status s)
                <= status_completed_tasks (get_status s'))%nat)
    (seen r ++ [final r]).
Proof.
  cbv zeta.
  assert (Hrun : harmless (lasting (fun _ => True) (completed_tasks s))
                   (run str calls)).
  { apply lasting_run; auto.
    apply Forall_forall. intros c _. destruct c; exact I. }
  assert (Hs : lasting (fun _ => True) (completed_tasks s) s).
  { split; [apply Forall_forall; auto | reflexivity]. }
  pose proof (harmless_states Hrun Hs) as Hall.
  eapply Forall_impl; [exact Hall|]. intros s' [_ Hd].
  split; [exact Hd|]. cbn [get_status status_completed_tasks].
  apply prefix_length, Hd.
Qed.

(* ------------------------------------------------------------------ *)
(** ** Between the calls every agent is idle *)
(* ------------------------------------------------------------------ *)





(* ------------------------------------------------------------------ *)
(** ** Histories that keep the loads within capacity *)
(* ------------------------------------------------------------------ *)









Section WithinCapacity.
Variable str : PyValue -> string.






End WithinCapacity.







(* ------------------------------------------------------------------ *)
(** ** What routing leaves alone

    [field] is a part of the orchestrator that does not depend on the
    agents, the task objects, the active and completed tasks or the
    pending cancellations; [untouched]: it has the value [x]. *)
(* ------------------------------------------------------------------ *)

Section Untouched.
Variable str : PyValue -> string.
Variable X : Type.
Variable field : ThinkMeshOrchestrator -> X.
Variable x : X.
Hypothesis field_agents : forall v s, field (with_agents v s) = field s.
Hypothesis field_tasks : forall v s, field (with_tasks v s) = field s.
Hypothesis field_active_tasks :
  forall v s, field (with_active_tasks v s) = field s.
Hypothesis field_completed_tasks :
  forall v s, field (with_completed_tasks v s) = field s.
Hypothesis field_cancelling : forall v s, field (with_cancelling v s) = field s.




















End Untouched.



Close Scope Q_scope.

End Orchestrator.

(* ================================================================== *)
(** * The stand-alone router ([task_router.py]) *)
(* ================================================================== *)

Module TaskRouter.

Import Orchestrator.

Definition _is_suitable (task : Task) (agent : AgentCapability) : bool :=
  if negb (availability agent) then false
  else
    let required_specs := req_specializations (requirements task) in
    if is_nonempty required_specs
    then existsb (fun s => mem s (specializations agent)) required_specs
    else true.

(** [sorted(suitable, key=lambda a: a.performance_score, reverse=True)]. *)
Definition route (task : Task) (agents : Py.dict AgentCapability)
  : list AgentCapability :=
  Py.sort_desc performance_score
    (List.filter (_is_suitable task) (Py.values agents)).


(** ** The descending sort *)

Section SortMore.
Context {A : Type} (key : A -> Q).

Lemma insert_desc_perm x (l : list A) :
  Permutation (Py.insert_desc key x l) (x :: l).
Proof.
  induction l as [|z l IH]; cbn [Py.insert_desc]; [reflexivity|].
  destruct (Py.ge (key x) (key z)); [reflexivity|].
  rewrite IH. apply perm_swap.
Qed.

Lemma sort_desc_perm (l : list A) : Permutation (Py.sort_desc key l) l.
Proof.
  induction l as [|x l IH]; cbn [Py.sort_desc]; [reflexivity|].
  rewrite insert_desc_perm, IH. reflexivity.
Qed.

Lemma insert_desc_descending x (l : list A) :
  StronglySorted (fun a b => (key b <= key a)%Q) l ->
  StronglySorted (fun a b => (key b <= key a)%Q) (Py.insert_desc key x l).
Proof.
  induction l as [|z l IH]; intros Hs; cbn [Py.insert_desc].
  - repeat constructor.
  - apply StronglySorted_inv in Hs as [Hs Hz].
    destruct (Py.ge (key x) (key z)) eqn:E.
    + apply Qle_bool_iff in E.
      constructor; [constructor; assumption|].
      constructor; [exact E|].
      rewrite Forall_forall in Hz |- *. intros y Hy.
      apply Qle_trans with (key z); [apply Hz, Hy | exact E].
    + constructor; [apply IH, Hs|].
      rewrite Forall_forall in Hz |- *. intros y Hy.
      apply (proj1 (Py.elem_of_insert_desc key x l y)) in Hy as [->|Hy];
        [|apply Hz, Hy].
      apply Qlt_le_weak, (proj1 (Py.le_false_iff (key z) (key x))). exact E.
Qed.

Lemma sort_desc_descending (l : list A) :
  StronglySorted (fun a b => (key b <= key a)%Q) (Py.sort_desc key l).
Proof.
  induction l as [|x l IH]; cbn [Py.sort_desc]; [constructor|].
  apply insert_desc_descending, IH.
Qed.



End SortMore.



Lemma is_suitable_spec task a :
  _is_suitable task a = true
  <-> availability a = true
      /\ (req_specializations (requirements task) = []
          \/ exists spec,
               spec ∈ req_specializations (requirements task)
               /\ spec ∈ specializations a).
Proof.
  unfold _is_suitable. destruct (availability a); cbn [negb];
    [|split; [discriminate | intros [H _]; discriminate]].
  destruct (req_specializations (requirements task)) as [|r0 required] eqn:E;
    cbn [is_nonempty].
  - split; [intros _; split; [reflexivity | left; reflexivity] | reflexivity].
  - rewrite existsb_exists. split.
    + intros (spec & Hin & Hmem). split; [reflexivity|]. right.
      exists spec. split; [apply list_elem_of_In, Hin|].
      apply mem_true_iff, Hmem.
    + intros [_ [H|(spec & Hin & Hmem)]]; [discriminate|].
      exists spec. split; [apply list_elem_of_In, Hin|].
      apply mem_true_iff, Hmem.
Qed.

(** X29. [TaskRouter.route] returns, each once, the
    agents of the registry that are available and, when the task asks for
    specializations, have one of them; loads play no part. The list is in
    descending order of performance score. *)
Theorem route_filters_and_ranks (task : Task)
  (agents : Py.dict AgentCapability) :
  Permutation (route task agents)
    (List.filter (_is_suitable task) (Py.values agents))
  /\ (forall a,
        a ∈ route task agents
        <-> (exists k, (k, a) ∈ agents)
            /\ availability a = true
            /\ (req_specializations (requirements task) = []
                \/ exists spec,
                     spec ∈ req_specializations (requirements task)
                     /\ spec ∈ specializations a))
  /\ StronglySorted
       (fun a b => (performance_score b <= performance_score a)%Q)
       (route task agents).
Proof.
  unfold route. split; [apply sort_desc_perm|].
  split; [|apply sort_desc_descending].
  intros a. rewrite Py.elem_of_sort_desc, list_elem_of_In, filter_In.
  rewrite is_suitable_spec. unfold Py.values.
  rewrite <- list_elem_of_In, list_elem_of_fmap. split.
  - intros [([k a'] & -> & Hin) H]. split; [exists k; exact Hin | exact H].
  - intros [[k Hin] H]. split; [exists (k, a); auto | exact H].
Qed.







End TaskRouter.
